(** * The multi-agent orchestrator of geenius-cli, embedded in Rocq

    Source: [src/agent/agent-orchestrator.ts] (class [AgentOrchestrator]) and
    the worker it drives, [CustomAIAgent.processTask] of
    [src/agent/custom-ai-agent.ts].

    Conventions of the embedding.
    - Text is a [string] of ASCII characters; [toLowerCase] and [trim] are
      the ASCII restrictions of the JavaScript methods.
    - A worker is an external capability.  A call to [processTask] either
      returns an [AgentResult] or throws; what it does is decided by the
      [World], which sees the whole history of calls made so far.  The
      workers of the repository are [CustomAIAgent]s, whose [processTask]
      always returns: [initializeTeam] is the world made of them.
    - [Date.now()] is a function of that history as well.
    - The arrays and maps the executors mutate (the task array, the
      timeline, the contribution map) are passed as state.  The task array
      is threaded by the loops themselves, the rest lives in the [Store].
    - Numbers are integers: [maxConcurrency] is a [Z]. *)

From Stdlib Require Import String Ascii List ZArith Lia Bool Arith.
From Stdlib Require Import Permutation Sorted DecimalString.
From Stdlib Require DecimalNat Finite.
Import ListNotations.
Local Open Scope string_scope.
Local Open Scope list_scope.

(** ** JavaScript string methods *)

Module Js.

Definition nl : string := String "010"%char EmptyString.

Definition lowerChar (c : ascii) : ascii :=
  let n := nat_of_ascii c in
  if (65 <=? n)%nat && (n <=? 90)%nat then ascii_of_nat (n + 32) else c.

Fixpoint toLowerCase (s : string) : string :=
  match s with
  | EmptyString => EmptyString
  | String c r => String (lowerChar c) (toLowerCase r)
  end.

Fixpoint startsWith (s p : string) {struct p} : bool :=
  match p with
  | EmptyString => true
  | String a p' =>
      match s with
      | EmptyString => false
      | String b s' => Ascii.eqb a b && startsWith s' p'
      end
  end.

Fixpoint includes (s sub : string) : bool :=
  startsWith s sub ||
  match s with
  | EmptyString => false
  | String _ r => includes r sub
  end.

(** White space of [String.prototype.trim], ASCII part: TAB, LF, VT, FF, CR
    and the space. *)
Definition isWhite (c : ascii) : bool :=
  let n := nat_of_ascii c in
  ((9 <=? n)%nat && (n <=? 13)%nat) || (n =? 32)%nat.

Fixpoint trimStart (s : string) : string :=
  match s with
  | EmptyString => EmptyString
  | String c r => if isWhite c then trimStart r else s
  end.

Fixpoint trimEnd (s : string) : string :=
  match s with
  | EmptyString => EmptyString
  | String c r =>
      match trimEnd r with
      | EmptyString => if isWhite c then EmptyString else String c EmptyString
      | r' => String c r'
      end
  end.

Definition trim (s : string) : string := trimEnd (trimStart s).

Fixpoint dropChars (n : nat) (s : string) : string :=
  match n, s with
  | O, _ => s
  | S n', String _ r => dropChars n' r
  | S _, EmptyString => EmptyString
  end.

(** [s.replace(pat, '')] for a string pattern: the first occurrence goes. *)
Fixpoint removeFirst (pat s : string) : string :=
  if startsWith s pat then dropChars (String.length pat) s
  else match s with
       | EmptyString => EmptyString
       | String c r => String c (removeFirst pat r)
       end.

(** [s.split(sep)] for a one-character separator. *)
Fixpoint split (sep : ascii) (s : string) : list string :=
  match s with
  | EmptyString => [EmptyString]
  | String c r =>
      if Ascii.eqb c sep then EmptyString :: split sep r
      else match split sep r with
           | h :: t => String c h :: t
           | [] => [String c EmptyString]
           end
  end.

Fixpoint join (sep : string) (l : list string) : string :=
  match l with
  | [] => EmptyString
  | [x] => x
  | x :: r => x ++ sep ++ join sep r
  end.

(** A string in a condition: the empty string is falsy. *)
Definition truthy (s : string) : bool :=
  match s with EmptyString => false | _ => true end.

(** [`${n}`] for a natural number. *)
Definition ofNat (n : nat) : string := NilEmpty.string_of_uint (Nat.to_uint n).

(** [`${x}`] for a value that may be [undefined]. *)
Definition template (o : option string) : string :=
  match o with Some s => s | None => "undefined" end.

(** Relative index of [Array.prototype.slice]. *)
Definition relIndex (len k : Z) : Z :=
  if (k <? 0)%Z then Z.max (len + k) 0 else Z.min k len.

Definition slice {A} (l : list A) (s e : Z) : list A :=
  let len := Z.of_nat (length l) in
  let from := relIndex len s in
  let to := relIndex len e in
  firstn (Z.to_nat (to - from)) (skipn (Z.to_nat from) l).

(** [Array.prototype.indexOf] on strings, [-1] when absent. *)
Fixpoint indexOf (l : list string) (x : string) : Z :=
  match l with
  | [] => (-1)%Z
  | y :: r => if String.eqb y x then 0%Z
              else let k := indexOf r x in
                   if (k <? 0)%Z then (-1)%Z else (k + 1)%Z
  end.

(** [Array.prototype.sort(cmp)] is stable; for a comparator that is the
    difference of two keys its result is the stable sort by key, computed
    here by insertion: an element goes before the elements that follow it
    in the array unless their key is smaller. *)
Fixpoint insertBy {A} (key : A -> Z) (x : A) (l : list A) : list A :=
  match l with
  | [] => [x]
  | y :: r => if (key x - key y <=? 0)%Z then x :: l else y :: insertBy key x r
  end.

Definition sortBy {A} (key : A -> Z) (l : list A) : list A :=
  fold_right (fun x acc => insertBy key x acc) [] l.

End Js.

(** ** Data model *)

Inductive Status := pending | in_progress | completed | failed.

(** [AgentResult] of the worker; [executionSteps] is not inspected by the
    orchestrator and is left out. *)
Record AgentResult := mkAgentResult {
  ar_success : bool;
  ar_result : option string;
  ar_error : option string;
  ar_reasoning : list string
}.

(** What is stored in [task.result] and in [results]. *)
Inductive Payload :=
| PAgent (r : AgentResult)
| PError (message : string)
| PCombined (primary secondary : AgentResult) (final : option string).

Record Task := mkTask {
  id : string;
  description : string;
  priority : string;
  dependencies : list string;
  assignedAgent : option string;
  status : Status;
  result : option Payload;
  startTime : option Z;
  endTime : option Z
}.

Inductive StrategyType := sequential | parallel | hierarchical | collaborative.

Record OrchestrationStrategy := mkStrategy {
  type : StrategyType;
  maxConcurrency : Z;
  retryOnFailure : bool;
  crossValidation : bool
}.

Record TimelineEntry := mkEntry {
  timestamp : Z;
  event : string;
  agent : string
}.

Definition Contributions := list (string * list (string * AgentResult)).

(** The value the executors return; [validationIssues] is added by
    [orchestrateTask] after a failed cross-validation. *)
Record StrategyResult := mkSR {
  sr_success : bool;
  sr_results : list Payload;
  validationIssues : option (list string)
}.

Record Report := mkReport {
  success : bool;
  report_result : StrategyResult;
  taskBreakdown : list Task;
  report_contributions : Contributions;
  report_timeline : list TimelineEntry
}.

(** ** Workers and the world around them *)

Inductive AgentId := Lead | Member (role : string).

Record Options := mkOptions { reasoning : bool; maxSteps : Z }.

Record Call := mkCall { callee : AgentId; prompt : string; options : Options }.

Inductive Outcome (A : Type) :=
| Returned (a : A)
| Threw (message : string).
Arguments Returned {A} a.
Arguments Threw {A} message.

Record World := mkWorld {
  (** what [processTask] does, given the calls made before it *)
  respond : list Call -> Call -> Outcome AgentResult;
  (** [Date.now()] *)
  clock : list Call -> Z;
  (** which of [n] outstanding promises settles next *)
  pick : list Call -> nat -> nat;
  (** [JSON.stringify(result, null, 2)] *)
  stringifyResult : StrategyResult -> string;
  (** [JSON.stringify(Object.fromEntries(agentContributions), null, 2)] *)
  stringifyContributions : Contributions -> string
}.

Record AgentOrchestrator := mkOrchestrator {
  world : World;
  strategy : OrchestrationStrategy
}.

Record Store := mkStore {
  timeline : list TimelineEntry;
  agentContributions : Contributions;
  history : list Call
}.

Definition emptyStore : Store := mkStore [] [] [].

(** ** A state monad for the store *)

Definition M (A : Type) : Type := Store -> A * Store.

Definition ret {A} (a : A) : M A := fun st => (a, st).

Definition bind {A B} (c : M A) (k : A -> M B) : M B :=
  fun st => let (a, st') := c st in k a st'.

Declare Scope orch_scope.
Delimit Scope orch_scope with orch.
Notation "x <- c ;; k" := (bind c (fun x => k))
  (at level 61, c at next level, right associativity) : orch_scope.
Notation "c ;;; k" := (bind c (fun _ => k))
  (at level 61, right associativity) : orch_scope.
Local Open Scope orch_scope.

Definition dateNow (this : AgentOrchestrator) : M Z :=
  fun st => (clock (world this) (history st), st).

Definition pushTimeline (this : AgentOrchestrator) (ev who : string) : M unit :=
  fun st =>
    (tt, mkStore (timeline st ++ [mkEntry (clock (world this) (history st)) ev who])
                 (agentContributions st) (history st)).

Definition processTask (this : AgentOrchestrator) (who : AgentId)
    (p : string) (o : Options) : M (Outcome AgentResult) :=
  fun st =>
    let c := mkCall who p o in
    (respond (world this) (history st) c,
     mkStore (timeline st) (agentContributions st) (history st ++ [c])).

(** ** The team ([initializeTeam]) *)

(** Keys of [team.roles] and [team.members], in insertion order, with the
    [name] of each role. *)
Definition roles : list (string * string) :=
  [ ("architect", "Software Architect");
    ("developer", "Senior Developer");
    ("tester", "QA Engineer");
    ("reviewer", "Code Reviewer");
    ("documenter", "Technical Writer") ].

Definition roleKeys : list string := map fst roles.

Fixpoint lookup {V} (m : list (string * V)) (k : string) : option V :=
  match m with
  | [] => None
  | (k', v) :: r => if String.eqb k' k then Some v else lookup r k
  end.

(** [Map.prototype.set] and the object spread [{...old, [k]: v}]: an
    existing key keeps its place. *)
Fixpoint assocSet {V} (m : list (string * V)) (k : string) (v : V)
    : list (string * V) :=
  match m with
  | [] => [(k, v)]
  | (k', v') :: r =>
      if String.eqb k' k then (k, v) :: r else (k', v') :: assocSet r k v
  end.

(** [this.team.roles.get(agent)?.name] *)
Definition roleName (who : string) : option string := lookup roles who.

(** [this.team.members.get(agent)!.processTask(...)]: one worker per role
    key; on a key that is not in the map the call is a [TypeError]. *)
Definition memberProcessTask (this : AgentOrchestrator) (who : string)
    (p : string) (o : Options) : M (Outcome AgentResult) :=
  if existsb (String.eqb who) roleKeys
  then processTask this (Member who) p o
  else ret (Threw "Cannot read properties of undefined (reading 'processTask')").

(** [agentContributions.set(agent, {...(agentContributions.get(agent) || {}),
    [task.id]: result})] *)
Definition contribute (who taskId : string) (r : AgentResult) : M unit :=
  fun st =>
    let old := match lookup (agentContributions st) who with
               | Some o => o
               | None => []
               end in
    (tt, mkStore (timeline st)
                 (assocSet (agentContributions st) who (assocSet old taskId r))
                 (history st)).

(** ** Task updates made by the executors *)

Definition startTask (now : Z) (who : string) (t : Task) : Task :=
  mkTask (id t) (description t) (priority t) (dependencies t)
         (Some who) in_progress (result t) (Some now) (endTime t).

Definition completeTask (now : Z) (p : Payload) (t : Task) : Task :=
  mkTask (id t) (description t) (priority t) (dependencies t)
         (assignedAgent t) completed (Some p) (startTime t) (Some now).

Definition failTask (message : string) (t : Task) : Task :=
  mkTask (id t) (description t) (priority t) (dependencies t)
         (assignedAgent t) failed (Some (PError message)) (startTime t) (endTime t).

(** ** [selectBestAgent] and [selectSecondaryAgent] *)

Definition selectBestAgent (task : Task) : string :=
  let taskText := Js.toLowerCase (description task) in
  if Js.includes taskText "architecture" || Js.includes taskText "design"
     || Js.includes taskText "plan" then "architect"
  else if Js.includes taskText "test" || Js.includes taskText "quality"
     || Js.includes taskText "bug" then "tester"
  else if Js.includes taskText "document" || Js.includes taskText "readme"
     || Js.includes taskText "guide" then "documenter"
  else if Js.includes taskText "review" || Js.includes taskText "improve"
     || Js.includes taskText "refactor" then "reviewer"
  else "developer".

Definition selectSecondaryAgent (task : Task) (primaryAgent : string) : string :=
  let agents := filter (fun a => negb (String.eqb a primaryAgent)) roleKeys in
  if String.eqb primaryAgent "developer" then "reviewer"
  else if String.eqb primaryAgent "architect" then "developer"
  else if String.eqb primaryAgent "tester" then "developer"
  else if String.eqb primaryAgent "reviewer" then "developer"
  else if String.eqb primaryAgent "documenter" then "reviewer"
  else nth 0 agents "undefined".

(** ** The decomposer *)

(** [currentTask : Partial<Task>] *)
Record PartialTask := mkPartial {
  pt_description : option string;
  pt_priority : option string;
  pt_dependencies : option (list string)
}.

Definition orElse (o : option string) (d : string) : string :=
  match o with
  | Some s => if Js.truthy s then s else d
  | None => d
  end.

(** The [tasks.push({...})] guarded by [if (currentTask.description)]. *)
Definition pushCurrent (tasks : list Task) (currentTask : PartialTask) : list Task :=
  match pt_description currentTask with
  | Some d =>
      if Js.truthy d then
        tasks ++ [mkTask ("task-" ++ Js.ofNat (length tasks + 1)) d
                         (orElse (pt_priority currentTask) "medium")
                         (match pt_dependencies currentTask with
                          | Some ds => ds | None => [] end)
                         None pending None None None]
      else tasks
  | None => tasks
  end.

Definition isTaskStart (trimmed : string) : bool :=
  Js.startsWith trimmed "Task:" || Js.startsWith trimmed "-".

(** [trimmed.replace(/^(Task:|-)/, '')] *)
Definition stripMarker (trimmed : string) : string :=
  if Js.startsWith trimmed "Task:" then Js.dropChars 5 trimmed
  else if Js.startsWith trimmed "-" then Js.dropChars 1 trimmed
  else trimmed.

(** One turn of the [for (const line of lines)] loop. *)
Definition parseLine (acc : list Task * PartialTask) (line : string)
    : list Task * PartialTask :=
  let (tasks, currentTask) := acc in
  let trimmed := Js.trim line in
  if isTaskStart trimmed then
    (pushCurrent tasks currentTask,
     mkPartial (Some (Js.trim (stripMarker trimmed))) (Some "medium") (Some []))
  else if Js.startsWith trimmed "Priority:" then
    (tasks,
     mkPartial (pt_description currentTask)
               (Some (Js.toLowerCase (Js.trim (Js.removeFirst "Priority:" trimmed))))
               (pt_dependencies currentTask))
  else if Js.startsWith trimmed "Depends on:" then
    let deps := map Js.trim
                    (Js.split ","%char (Js.trim (Js.removeFirst "Depends on:" trimmed))) in
    (tasks,
     mkPartial (pt_description currentTask) (pt_priority currentTask)
               (Some (filter (fun d => (0 <? String.length d)%nat) deps)))
  else acc.

Definition fallbackTask (originalDescription : string) : Task :=
  mkTask "task-1" originalDescription "medium" [] None pending None None None.

Definition parseTaskBreakdown (analysisResult originalDescription : string)
    : list Task :=
  let lines := Js.split "010"%char analysisResult in
  let (tasks0, currentTask) :=
    fold_left parseLine lines ([], mkPartial None None None) in
  let tasks := pushCurrent tasks0 currentTask in
  if (0 <? length tasks)%nat then tasks else [fallbackTask originalDescription].

Definition analysisPrompt (description : string) : string :=
  "Analyze this task and break it down into smaller, manageable subtasks: "
  ++ description ++ Js.nl
  ++ "      " ++ Js.nl
  ++ "      Consider:" ++ Js.nl
  ++ "      - Required skills and roles" ++ Js.nl
  ++ "      - Task dependencies" ++ Js.nl
  ++ "      - Priority levels" ++ Js.nl
  ++ "      - Estimated complexity" ++ Js.nl
  ++ "      - Required tools and resources" ++ Js.nl
  ++ "      " ++ Js.nl
  ++ "      Available roles: " ++ Js.join ", " roleKeys.

(** [analysisResult.result] is [undefined] when the lead's [processTask]
    reports a failure; [parseTaskBreakdown] then calls [split] on it. *)
Definition analyzeAndBreakdownTask (this : AgentOrchestrator)
    (description : string) : M (Outcome (list Task)) :=
  analysisResult <- processTask this Lead (analysisPrompt description)
                                (mkOptions true 5) ;;
  match analysisResult with
  | Threw e => ret (Threw e)
  | Returned r =>
      match ar_result r with
      | Some text => ret (Returned (parseTaskBreakdown text description))
      | None => ret (Threw "Cannot read properties of undefined (reading 'split')")
      end
  end.

(** ** [executeSequential] *)

Definition workerOptions : Options := mkOptions true 8.

(** The body of [for (const task of tasks)]; the result is the task array
    after the loop and the value returned. *)
Fixpoint executeSequentialLoop (this : AgentOrchestrator) (tasks : list Task)
    (results : list Payload) : M (list Task * StrategyResult) :=
  match tasks with
  | [] => ret ([], mkSR true results None)
  | task :: rest =>
      let who := selectBestAgent task in
      pushTimeline this ("Task started: " ++ description task) who ;;;
      now <- dateNow this ;;
      let task1 := startTask now who task in
      r <- memberProcessTask this who (description task) workerOptions ;;
      match r with
      | Returned res =>
          now' <- dateNow this ;;
          let task2 := completeTask now' (PAgent res) task1 in
          contribute who (id task) res ;;;
          pushTimeline this ("Task completed: " ++ description task) who ;;;
          out <- executeSequentialLoop this rest (results ++ [PAgent res]) ;;
          ret (task2 :: fst out, snd out)
      | Threw e =>
          let task2 := failTask e task1 in
          pushTimeline this ("Task failed: " ++ description task) who ;;;
          if negb (retryOnFailure (strategy this))
          then ret (task2 :: rest, mkSR false results None)
          else
            out <- executeSequentialLoop this rest results ;;
            ret (task2 :: fst out, snd out)
      end
  end.

Definition executeSequential (this : AgentOrchestrator) (tasks : list Task)
    : M (list Task * StrategyResult) :=
  executeSequentialLoop this tasks [].

(** ** [executeParallel] *)

(** A task whose [async] body has run up to its [await]: the call is out,
    its outcome is not yet observed. *)
Record InFlight := mkInFlight {
  f_task : Task;
  f_agent : string;
  f_outcome : Outcome AgentResult
}.

(** The synchronous part of the [batch.map(async (task) => ...)] body.  The
    world fixes the outcome of the call when the call is made; when it is
    observed is up to [pick]. *)
Definition dispatch (this : AgentOrchestrator) (task : Task) : M InFlight :=
  let who := selectBestAgent task in
  pushTimeline this ("Task started: " ++ description task) who ;;;
  now <- dateNow this ;;
  r <- memberProcessTask this who (description task) workerOptions ;;
  ret (mkInFlight (startTask now who task) who r).

Fixpoint dispatchAll (this : AgentOrchestrator) (batch : list Task)
    : M (list InFlight) :=
  match batch with
  | [] => ret []
  | task :: rest =>
      f <- dispatch this task ;;
      fs <- dispatchAll this rest ;;
      ret (f :: fs)
  end.

(** The continuation after the [await], on the task object ... *)
Definition settleTask (now : Z) (f : InFlight) : Task :=
  match f_outcome f with
  | Returned res => completeTask now (PAgent res) (f_task f)
  | Threw e => failTask e (f_task f)
  end.

(** ... and on the shared contribution map and timeline. *)
Definition settleShared (this : AgentOrchestrator) (f : InFlight) : M unit :=
  match f_outcome f with
  | Returned res =>
      contribute (f_agent f) (id (f_task f)) res ;;;
      pushTimeline this ("Task completed: " ++ description (f_task f)) (f_agent f)
  | Threw _ =>
      pushTimeline this ("Task failed: " ++ description (f_task f)) (f_agent f)
  end.

Fixpoint removeNth {A} (k : nat) (l : list A) : list A :=
  match k, l with
  | _, [] => []
  | O, _ :: r => r
  | S k', x :: r => x :: removeNth k' r
  end.

(** The order in which the promises of a batch settle: the world picks one
    of the outstanding ones, again and again. *)
Fixpoint settleOrder {A} (choose : nat -> nat) (n : nat) (waiting : list A)
    : list A :=
  match n with
  | O => []
  | S n' =>
      match waiting with
      | [] => []
      | x :: _ =>
          let k := (choose (length waiting) mod length waiting)%nat in
          nth k waiting x :: settleOrder choose n' (removeNth k waiting)
      end
  end.

Fixpoint settleAll (this : AgentOrchestrator) (fs : list InFlight) : M unit :=
  match fs with
  | [] => ret tt
  | f :: rest => settleShared this f ;;; settleAll this rest
  end.

(** One batch, from [batch.map] to the end of [Promise.allSettled]. *)
Definition runBatch (this : AgentOrchestrator) (batch : list Task)
    : M (list InFlight * list Task) :=
  flights <- dispatchAll this batch ;;
  fun st =>
    let order := settleOrder (pick (world this) (history st))
                             (length flights) flights in
    let (_, st') := settleAll this order st in
    let now := clock (world this) (history st) in
    ((flights, map (settleTask now) flights), st').

(** [for (const result of batchResults)]: the results pushed, and whether
    the loop left through [return { success: false, results }]. *)
Fixpoint collectBatch (retry : bool) (flights : list InFlight)
    (results : list Payload) : list Payload * bool :=
  match flights with
  | [] => (results, false)
  | f :: rest =>
      match f_outcome f with
      | Returned res => collectBatch retry rest (results ++ [PAgent res])
      | Threw _ => if negb retry then (results, true)
                   else collectBatch retry rest results
      end
  end.

(** The tasks of a batch are the objects of the task array: what the batch
    did to them shows in the array, from the place the slice began. *)
Definition writeBack (tasks : list Task) (from : nat) (batch : list Task)
    : list Task :=
  firstn from tasks ++ batch ++ skipn (from + length batch) tasks.

(** [for (let i = 0; i < tasks.length; i += maxConcurrency)].  The loop
    need not end; [None] is the answer when [fuel] turns are not enough. *)
Fixpoint executeParallelLoop (this : AgentOrchestrator) (fuel : nat) (i : Z)
    (tasks : list Task) (results : list Payload)
    : M (option (list Task * StrategyResult)) :=
  match fuel with
  | O => ret None
  | S fuel' =>
      if (i <? Z.of_nat (length tasks))%Z then
        let maxConcurrency := maxConcurrency (strategy this) in
        let batch := Js.slice tasks i (i + maxConcurrency) in
        let from := Z.to_nat (Js.relIndex (Z.of_nat (length tasks)) i) in
        settled <- runBatch this batch ;;
        let tasks' := writeBack tasks from (snd settled) in
        let (results', aborted) :=
          collectBatch (retryOnFailure (strategy this)) (fst settled) results in
        if aborted then ret (Some (tasks', mkSR false results' None))
        else executeParallelLoop this fuel' (i + maxConcurrency) tasks' results'
      else ret (Some (tasks, mkSR true results None))
  end.

Definition executeParallel (this : AgentOrchestrator) (fuel : nat)
    (tasks : list Task) : M (option (list Task * StrategyResult)) :=
  executeParallelLoop this fuel 0 tasks [].

(** ** [executeHierarchical] *)

Definition priorityOrder : list string := ["urgent"; "high"; "medium"; "low"].

Definition priorityRank (t : Task) : Z := Js.indexOf priorityOrder (priority t).

Definition guidancePrompt (task : Task) (who : string) : string :=
  "Provide guidance for this task: " ++ description task ++ Js.nl
  ++ "        Agent: " ++ who ++ Js.nl
  ++ "        Role: " ++ Js.template (roleName who).

Definition guidanceOptions : Options := mkOptions false 3.

Definition guidedPrompt (task : Task) (guidance : AgentResult) : string :=
  description task ++ Js.nl ++ Js.nl ++ "Guidance from lead: "
  ++ Js.template (ar_result guidance).

(** The loop over [sortedTasks].  The call to the lead stands before the
    [try]: when it throws, so does the executor. *)
Fixpoint executeHierarchicalLoop (this : AgentOrchestrator) (tasks : list Task)
    (results : list Payload) : M (list Task * Outcome StrategyResult) :=
  match tasks with
  | [] => ret ([], Returned (mkSR true results None))
  | task :: rest =>
      let who := selectBestAgent task in
      g <- processTask this Lead (guidancePrompt task who) guidanceOptions ;;
      match g with
      | Threw e => ret (task :: rest, Threw e)
      | Returned guidance =>
          pushTimeline this ("Guidance provided for: " ++ description task) "lead" ;;;
          pushTimeline this ("Task started: " ++ description task) who ;;;
          now <- dateNow this ;;
          let task1 := startTask now who task in
          r <- memberProcessTask this who (guidedPrompt task guidance) workerOptions ;;
          match r with
          | Returned res =>
              now' <- dateNow this ;;
              let task2 := completeTask now' (PAgent res) task1 in
              contribute who (id task) res ;;;
              pushTimeline this ("Task completed: " ++ description task) who ;;;
              out <- executeHierarchicalLoop this rest (results ++ [PAgent res]) ;;
              ret (task2 :: fst out, snd out)
          | Threw e =>
              let task2 := failTask e task1 in
              pushTimeline this ("Task failed: " ++ description task) who ;;;
              if negb (retryOnFailure (strategy this))
              then ret (task2 :: rest, Returned (mkSR false results None))
              else
                out <- executeHierarchicalLoop this rest results ;;
                ret (task2 :: fst out, snd out)
          end
      end
  end.

(** [tasks.sort(...)] sorts the array in place: the sorted array is also the
    one the caller holds. *)
Definition executeHierarchical (this : AgentOrchestrator) (tasks : list Task)
    : M (list Task * Outcome StrategyResult) :=
  let sortedTasks := Js.sortBy priorityRank tasks in
  executeHierarchicalLoop this sortedTasks [].

(** ** [executeCollaborative] *)

Definition collaborativeOptions : Options := mkOptions true 5.

Definition reviewPrompt (task : Task) (primaryResult : AgentResult) : string :=
  "Review and improve this work: " ++ Js.template (ar_result primaryResult)
  ++ Js.nl ++ "          Original task: " ++ description task.

Fixpoint executeCollaborativeLoop (this : AgentOrchestrator) (tasks : list Task)
    (results : list Payload) : M (list Task * StrategyResult) :=
  match tasks with
  | [] => ret ([], mkSR true results None)
  | task :: rest =>
      let primaryAgent := selectBestAgent task in
      let secondaryAgent := selectSecondaryAgent task primaryAgent in
      pushTimeline this ("Collaborative task started: " ++ description task)
                   primaryAgent ;;;
      now <- dateNow this ;;
      let task1 := startTask now primaryAgent task in
      let onError (e : string) : M (list Task * StrategyResult) :=
        let task2 := failTask e task1 in
        pushTimeline this ("Task failed: " ++ description task) primaryAgent ;;;
        if negb (retryOnFailure (strategy this))
        then ret (task2 :: rest, mkSR false results None)
        else
          out <- executeCollaborativeLoop this rest results ;;
          ret (task2 :: fst out, snd out) in
      p <- memberProcessTask this primaryAgent (description task)
                             collaborativeOptions ;;
      match p with
      | Threw e => onError e
      | Returned primaryResult =>
          s <- memberProcessTask this secondaryAgent
                                 (reviewPrompt task primaryResult)
                                 collaborativeOptions ;;
          match s with
          | Threw e => onError e
          | Returned secondaryResult =>
              let combinedResult :=
                PCombined primaryResult secondaryResult (ar_result secondaryResult) in
              now' <- dateNow this ;;
              let task2 := completeTask now' combinedResult task1 in
              contribute primaryAgent (id task) primaryResult ;;;
              contribute secondaryAgent (id task) secondaryResult ;;;
              pushTimeline this ("Collaborative task completed: " ++ description task)
                           secondaryAgent ;;;
              out <- executeCollaborativeLoop this rest (results ++ [combinedResult]) ;;
              ret (task2 :: fst out, snd out)
          end
      end
  end.

Definition executeCollaborative (this : AgentOrchestrator) (tasks : list Task)
    : M (list Task * StrategyResult) :=
  executeCollaborativeLoop this tasks [].

(** ** [crossValidate] *)

Record Validation := mkValidation {
  passed : bool;
  issues : list string;
  recommendations : list string
}.

Definition extractLines (word1 word2 : string) (text : string) : list string :=
  map (fun line => Js.dropChars 2 (Js.trim line))
      (filter (fun line =>
                 Js.startsWith (Js.trim line) "- "
                 && (Js.includes (Js.toLowerCase line) word1
                     || Js.includes (Js.toLowerCase line) word2))
              (Js.split "010"%char text)).

Definition extractIssues : string -> list string := extractLines "issue" "problem".

Definition extractRecommendations : string -> list string :=
  extractLines "recommend" "suggest".

Definition validationPrompt (this : AgentOrchestrator) (res : StrategyResult)
    (contributions : Contributions) : string :=
  "Cross-validate this work for quality, completeness, and correctness:" ++ Js.nl
  ++ "      " ++ Js.nl
  ++ "      Results: " ++ stringifyResult (world this) res ++ Js.nl
  ++ "      Agent contributions: "
  ++ stringifyContributions (world this) contributions ++ Js.nl
  ++ "      " ++ Js.nl
  ++ "      Provide:" ++ Js.nl
  ++ "      1. Pass/fail assessment" ++ Js.nl
  ++ "      2. List of issues found" ++ Js.nl
  ++ "      3. Recommendations for improvement".

(** The verdict read off the reviewer's text. *)
Definition verdict (text : string) : bool :=
  let validationText := Js.toLowerCase text in
  Js.includes validationText "pass" && negb (Js.includes validationText "fail").

Definition validationOptions : Options := mkOptions true 5.

Definition crossValidate (this : AgentOrchestrator) (res : StrategyResult)
    : M (Outcome Validation) :=
  fun st =>
    let p := validationPrompt this res (agentContributions st) in
    let (v, st') := memberProcessTask this "reviewer" p validationOptions st in
    match v with
    | Threw e => (Threw e, st')
    | Returned validation =>
        match ar_result validation with
        | None =>
            (Threw "Cannot read properties of undefined (reading 'toLowerCase')", st')
        | Some text =>
            (Returned (mkValidation (verdict text) (extractIssues text)
                                    (extractRecommendations text)), st')
        end
    end.

(** ** [orchestrateTask] *)

Definition mkRunReport (ok : bool) (res : StrategyResult) (tasks : list Task)
    : M (option (Outcome Report)) :=
  fun st =>
    (Some (Returned (mkReport ok res tasks (agentContributions st) (timeline st))), st).

(** Steps 2 and 3 share the shape "executor, then the optional review". *)
Definition runStrategy (this : AgentOrchestrator) (fuel : nat)
    (kind : StrategyType) (taskBreakdown : list Task)
    : M (option (list Task * Outcome StrategyResult)) :=
  match kind with
  | sequential =>
      r <- executeSequential this taskBreakdown ;;
      ret (Some (fst r, Returned (snd r)))
  | parallel =>
      r <- executeParallel this fuel taskBreakdown ;;
      ret (match r with
           | Some out => Some (fst out, Returned (snd out))
           | None => None
           end)
  | hierarchical =>
      r <- executeHierarchical this taskBreakdown ;;
      ret (Some r)
  | collaborative =>
      r <- executeCollaborative this taskBreakdown ;;
      ret (Some (fst r, Returned (snd r)))
  end.

(** [options.strategy || this.strategy] picks the executor and decides on
    cross-validation; the executors themselves read [this.strategy].  A
    thrown error rejects the promise [orchestrateTask] returns.  The
    [taskCompleted] event is emitted to no listener. *)
Definition orchestrateTask (this : AgentOrchestrator) (fuel : nat)
    (description : string) (optionsStrategy : option OrchestrationStrategy)
    : M (option (Outcome Report)) :=
  let strategy := match optionsStrategy with
                  | Some s => s
                  | None => strategy this
                  end in
  pushTimeline this "Task analysis started" "lead" ;;;
  breakdown <- analyzeAndBreakdownTask this description ;;
  match breakdown with
  | Threw e => ret (Some (Threw e))
  | Returned taskBreakdown =>
      pushTimeline this "Task breakdown completed" "lead" ;;;
      executed <- runStrategy this fuel (type strategy) taskBreakdown ;;
      match executed with
      | None => ret None
      | Some (_, Threw e) => ret (Some (Threw e))
      | Some (tasks, Returned res) =>
          if crossValidation strategy && sr_success res then
            pushTimeline this "Cross-validation started" "reviewer" ;;;
            v <- crossValidate this res ;;
            match v with
            | Threw e => ret (Some (Threw e))
            | Returned validation =>
                pushTimeline this "Cross-validation completed" "reviewer" ;;;
                if negb (passed validation)
                then mkRunReport false
                       (mkSR (sr_success res) (sr_results res)
                             (Some (issues validation))) tasks
                else mkRunReport true res tasks
            end
          else mkRunReport (sr_success res) res tasks
      end
  end.

(** ** Vocabulary of the properties *)

Definition isTerminal (s : Status) : bool :=
  match s with completed | failed => true | _ => false end.

Definition isInProgress (s : Status) : bool :=
  match s with in_progress => true | _ => false end.

Definition isCompleted (s : Status) : bool :=
  match s with completed => true | _ => false end.

Definition terminal (t : Task) : Prop := isTerminal (status t) = true.

(** The strategy [orchestrateTask] looks at. *)
Definition effectiveStrategy (this : AgentOrchestrator)
    (optionsStrategy : option OrchestrationStrategy) : OrchestrationStrategy :=
  match optionsStrategy with Some s => s | None => strategy this end.

(** The role selector as the specification words it: an ordered table of
    keyword classes, the first class with a keyword in the text wins. *)
Definition roleRules : list (list string * string) :=
  [ (["architecture"; "design"; "plan"], "architect");
    (["quality"; "bug"; "test"], "tester");
    (["document"; "guide"; "readme"], "documenter");
    (["review"; "improve"; "refactor"], "reviewer") ].

Fixpoint firstMatch (rules : list (list string * string)) (text : string) : string :=
  match rules with
  | [] => "developer"
  | (keywords, role) :: rest =>
      if existsb (Js.includes text) keywords then role else firstMatch rest text
  end.

(** A line of the lead's answer that opens a task with a description. *)
Definition describesTask (line : string) : bool :=
  let trimmed := Js.trim line in
  isTaskStart trimmed && Js.truthy (Js.trim (stripMarker trimmed)).

(** Contiguous batches of [n] elements, the last one possibly shorter. *)
Fixpoint chunksOf {A} (fuel n : nat) (l : list A) : list (list A) :=
  match fuel with
  | O => []
  | S fuel' =>
      match l with
      | [] => []
      | _ => firstn n l :: chunksOf fuel' n (skipn n l)
      end
  end.

Definition chunks {A} (n : nat) (l : list A) : list (list A) :=
  chunksOf (length l) n l.

(** The parallel executor as a run over a list of batches. *)
Fixpoint runBatches (this : AgentOrchestrator) (batches : list (list Task))
    (results : list Payload) : M (list (list Task) * StrategyResult) :=
  match batches with
  | [] => ret ([], mkSR true results None)
  | batch :: rest =>
      settled <- runBatch this batch ;;
      let (results', aborted) :=
        collectBatch (retryOnFailure (strategy this)) (fst settled) results in
      if aborted then ret ([snd settled], mkSR false results' None)
      else
        out <- runBatches this rest results' ;;
        ret (snd settled :: fst out, snd out)
  end.

Definition startedEvent (t : Task) : string := "Task started: " ++ description t.

Definition finishedEvent (t : Task) : string :=
  if isCompleted (status t) then "Task completed: " ++ description t
  else "Task failed: " ++ description t.

(** Events of a parallel run, batch after batch: the batch's starts, then
    its ends in some order, then the next batch. *)
Inductive barrierTrace : list (list Task) -> list string -> Prop :=
| barrier_done : barrierTrace [] []
| barrier_batch batch rest ends later :
    Permutation ends (map finishedEvent batch) ->
    barrierTrace rest later ->
    barrierTrace (batch :: rest) (map startedEvent batch ++ ends ++ later).

(** A settled batch is the dispatched batch with every task terminal. *)
Definition settles (batch settled : list Task) : Prop :=
  map id settled = map id batch /\
  map description settled = map description batch /\
  map assignedAgent settled = map (fun t => Some (selectBestAgent t)) batch /\
  Forall terminal settled.

Definition leadCall (task : Task) : Call :=
  mkCall Lead (guidancePrompt task (selectBestAgent task)) guidanceOptions.

Definition guidedCall (task : Task) (guidance : AgentResult) : Call :=
  mkCall (Member (selectBestAgent task)) (guidedPrompt task guidance) workerOptions.

(** Descriptions of the tasks started, as the timeline records them. *)
Definition startedTasks (entries : list TimelineEntry) : list string :=
  map (fun e => Js.dropChars 14 (event e))
      (filter (fun e => Js.startsWith (event e) "Task started: ") entries).

(** The lead always answers (it may answer with a failure result). *)
Definition leadReturns (w : World) : Prop :=
  forall h p o, exists r, respond w h (mkCall Lead p o) = Returned r.

(** ** Further vocabulary, and sample teams and tasks *)

Definition inert (currentTask : PartialTask) : Prop :=
  match pt_description currentTask with
  | Some d => Js.truthy d = false
  | None => True
  end.

Inductive ranTo : list Task -> list Task -> Prop :=
| ran_none rest : ranTo rest rest
| ran_task t t' rest rest' :
    terminal t' -> ranTo rest rest' -> ranTo (t :: rest) (t' :: rest').

Definition notInProgress (t : Task) : Prop := isInProgress (status t) = false.

Definition keyLe {A} (key : A -> Z) (a b : A) : Prop := (key a <= key b)%Z.

Definition workerCall (t : Task) : Call :=
  mkCall (Member (selectBestAgent t)) (description t) workerOptions.

Definition dispatched (t : Task) (f : InFlight) : Prop :=
  f_agent f = selectBestAgent t
  /\ id (f_task f) = id t
  /\ description (f_task f) = description t
  /\ assignedAgent (f_task f) = Some (selectBestAgent t).

Definition allCompleted (batch : list Task) : bool :=
  forallb (fun t => isCompleted (status t)) batch.

Definition isPending (t : Task) : Prop := status t = pending.

Definition answer (text : string) : AgentResult :=
  mkAgentResult true (Some text) None [].

(** What [CustomAIAgent.processTask] returns from its own [catch]. *)
Definition failureResult (message : string) : AgentResult :=
  mkAgentResult false None (Some message) [].

(** A world in which the lead and each role answer in a fixed way. *)
Definition fixedWorld (lead : Outcome AgentResult)
    (member : string -> Outcome AgentResult) : World :=
  mkWorld (fun _ c => match callee c with
                      | Lead => lead
                      | Member r => member r
                      end)
          (fun h => Z.of_nat (length h))
          (fun _ _ => 0%nat)
          (fun _ => "{}")
          (fun _ => "{}").

Definition newTask (taskId text prio : string) : Task :=
  mkTask taskId text prio [] None pending None None None.

Definition reviewCall (this : AgentOrchestrator) (res : StrategyResult)
    (contributions : Contributions) : Call :=
  mkCall (Member "reviewer") (validationPrompt this res contributions)
         validationOptions.

Definition afterPush (this : AgentOrchestrator) (ev who : string) (st : Store)
    : Store :=
  snd (pushTimeline this ev who st).

Definition analysisCall (description : string) : Call :=
  mkCall Lead (analysisPrompt description) (mkOptions true 5).

Definition brokenLead : AgentOrchestrator :=
  mkOrchestrator
    (fixedWorld (Returned (failureResult "Anthropic API error: 500 Internal Server Error"))
                (fun _ => Returned (answer "done")))
    (mkStrategy hierarchical 3 true true).

(** Two tasks, a tester that throws, no retry. *)
Definition abortingRun : AgentOrchestrator :=
  mkOrchestrator
    (fixedWorld (Returned (answer ("- Test the login form" ++ Js.nl
                                   ++ "- Write the code")))
                (fun r => if String.eqb r "tester" then Threw "boom"
                          else Returned (answer "done")))
    (mkStrategy sequential 3 false false).

Definition twoFixes : list Task :=
  [newTask "task-1" "Fix login" "medium"; newTask "task-2" "Fix logout" "medium"].

Definition helpfulTeam (s : OrchestrationStrategy) : AgentOrchestrator :=
  mkOrchestrator
    (fixedWorld (Returned (answer "Use REST")) (fun _ => Returned (answer "done")))
    s.

Definition twoFixesRun : Store :=
  snd (executeParallel (helpfulTeam (mkStrategy parallel 2 true false)) 2
                       twoFixes emptyStore).

Definition apiTask : Task := newTask "task-1" "Build API" "high".

Definition guidedRun : Store :=
  snd (executeHierarchical (helpfulTeam (mkStrategy hierarchical 3 true false))
                           [apiTask] emptyStore).

Definition fiveTasks : list Task :=
  [newTask "task-1" "Write the parser" "medium";
   newTask "task-2" "Test the parser" "medium";
   newTask "task-3" "Write the printer" "medium";
   newTask "task-4" "Document the printer" "medium";
   newTask "task-5" "Ship it" "medium"].

Definition reviewedRun : AgentOrchestrator :=
  mkOrchestrator
    (fixedWorld (Returned (answer "- Write the code"))
                (fun r => if String.eqb r "reviewer"
                          then Returned (answer "Pass: no failures found")
                          else Returned (answer "done")))
    (mkStrategy sequential 3 true true).

Definition mixedPriorities : list Task :=
  [newTask "task-1" "Tidy the changelog" "low";
   newTask "task-2" "Patch the outage" "urgent";
   newTask "task-3" "Add the endpoint" "medium"].

(** Every worker throws, and the run retries. *)
Definition failingTeam (kind : StrategyType) : AgentOrchestrator :=
  mkOrchestrator
    (fixedWorld (Returned (answer ("- Write the code" ++ Js.nl ++ "- Test the code")))
                (fun _ => Threw "worker unavailable"))
    (mkStrategy kind 2 true false).

(** * Further vocabulary *)

(** ** More vocabulary for the orchestrator *)

(** The results of the completed tasks, in task order. *)
Definition completedResults (tasks : list Task) : list Payload :=
  flat_map (fun t => match status t, result t with
                     | completed, Some p => [p]
                     | _, _ => []
                     end) tasks.

(** [agentContributions.get(who)?.[taskId]] *)
Definition recorded (c : Contributions) (who taskId : string)
    : option AgentResult :=
  match lookup c who with
  | Some entries => lookup entries taskId
  | None => None
  end.

Definition isCompletedTask (t : Task) : Prop := status t = completed.

(** The ids the decomposer hands out. *)
Definition taskIds (n : nat) : list string :=
  map (fun i => ("task-" ++ Js.ofNat i)%string) (seq 1 n).

(** A task as the decomposer leaves it. *)
Definition fresh (t : Task) : Prop :=
  status t = pending /\ assignedAgent t = None /\ result t = None
  /\ startTime t = None /\ endTime t = None /\ priority t <> EmptyString.

(** The store grew: nothing was taken from the timeline or from the
    history, or changed in them. *)
Definition extends (st st' : Store) : Prop :=
  (exists entries, timeline st' = timeline st ++ entries)
  /\ (exists calls, history st' = history st ++ calls).

Definition numbered (tasks : list Task) : Prop :=
  map id tasks = taskIds (length tasks).


(** A computation that only adds to the timeline and to the history. *)
Definition grows {A} (c : M A) : Prop := forall st, extends st (snd (c st)).

Definition primaryCall (task : Task) : Call :=
  mkCall (Member (selectBestAgent task)) (description task) collaborativeOptions.

Definition secondaryCall (task : Task) (primaryResult : AgentResult) : Call :=
  mkCall (Member (selectSecondaryAgent task (selectBestAgent task)))
         (reviewPrompt task primaryResult) collaborativeOptions.

(** A text without a slash. *)
Fixpoint slashFree (s : string) : bool :=
  match s with
  | EmptyString => true
  | String c r => negb (Ascii.eqb c "/"%char) && slashFree r
  end.

(** A score with its issues: between [lo] and 100, and 100 exactly when
    there is no issue. *)
Definition scored (lo : Z) (r : list string * Z) : Prop :=
  (lo <= snd r <= 100)%Z /\ (fst r = [] <-> snd r = 100%Z).

Definition threeSteps : list Task :=
  [newTask "task-1" "Write the code" "medium";
   newTask "task-2" "Test the code" "medium";
   newTask "task-3" "Ship the code" "medium"].

(** A lead that is gone, with workers that answer. *)
Definition silentLead : AgentOrchestrator :=
  mkOrchestrator
    (fixedWorld (Threw "lead unavailable") (fun _ => Returned (answer "done")))
    (mkStrategy hierarchical 3 true false).

Definition brokenReviewer : AgentOrchestrator :=
  mkOrchestrator
    (fixedWorld (Returned (answer "- Write the code"))
                (fun r => if String.eqb r "reviewer"
                          then Returned (failureResult "Anthropic API error: 529 Overloaded")
                          else Returned (answer "done")))
    (mkStrategy sequential 3 true true).

(** * Template validation

    Source: [src/templates/template-fetcher.ts] (class [TemplateFetcher])
    and [src/templates/template-validator.ts] (class [TemplateValidator]).
    GitHub is outside: what a request gives is decided by the [GitHub]
    record, which sees the requests made before it.  The [zod] schema and
    [JSON.stringify] are parameters as well. *)

Module Templates.

(** ** [parseRepoUrl] *)

(** The longest prefix without a slash, and what follows it. *)
Fixpoint nonSlashRun (s : string) : string * string :=
  match s with
  | EmptyString => (EmptyString, EmptyString)
  | String c r =>
      if Ascii.eqb c "/"%char then (EmptyString, s)
      else let (run, rest) := nonSlashRun r in (String c run, rest)
  end.

(** [/github\.com\/([^\/]+)\/([^\/]+)/] anchored at the start of [s]. *)
Definition matchRepoAt (s : string) : option (string * string) :=
  if Js.startsWith s "github.com/" then
    let (owner, rest) := nonSlashRun (Js.dropChars 11 s) in
    if Js.truthy owner && Js.startsWith rest "/" then
      let (repo, _) := nonSlashRun (Js.dropChars 1 rest) in
      if Js.truthy repo then Some (owner, repo) else None
    else None
  else None.

(** [repoUrl.match(...)]: the leftmost match; [None] is the thrown
    [Error('Invalid GitHub repository URL')]. *)
Fixpoint parseRepoUrl (repoUrl : string) : option (string * string) :=
  match matchRepoAt repoUrl with
  | Some m => Some m
  | None =>
      match repoUrl with
      | EmptyString => None
      | String _ r => parseRepoUrl r
      end
  end.

(** ** GitHub *)

Inductive Request :=
| ReposGet (owner repo : string)
| GetContent (owner repo path : string).

(** Of a [package.json], whether [scripts?.dev], [scripts?.build] and
    [scripts?.test] are truthy. *)
Record Scripts := mkScripts { dev : bool; build : bool; test : bool }.

(** What [repos.getContent] gives: it throws, or its data has no [content]
    (a directory), or it is a file; of a file, what [JSON.parse] and the
    look at the scripts make of it, [None] when they throw. *)
Inductive Content :=
| Absent
| Listing
| FileData (parsed : option Scripts).

Record GitHub := mkGitHub {
  (** [repos.get] returns ([true]) or throws *)
  reposGet : list Request -> string -> string -> bool;
  getContent : list Request -> string -> string -> string -> Content
}.

Definition G (A : Type) : Type := list Request -> A * list Request.

Definition fetch (api : GitHub) (owner repo path : string) : G Content :=
  fun log => (getContent api log owner repo path,
              log ++ [GetContent owner repo path]).

(** ** [TemplateFetcher.validateTemplate] *)

Record BasicValidation := mkBasic {
  b_valid : bool;
  b_issues : list string;
  b_score : Z
}.

Definition requiredFiles : list string :=
  ["package.json"; "README.md"; ".env.example"; "tsconfig.json"].

(** [for (const file of requiredFiles)] *)
Fixpoint checkRequiredFiles (api : GitHub) (owner repo : string)
    (files : list string) (issues : list string) (score : Z)
    : G (list string * Z) :=
  match files with
  | [] => fun log => ((issues, score), log)
  | file :: rest => fun log =>
      let (c, log1) := fetch api owner repo file log in
      match c with
      | Absent =>
          checkRequiredFiles api owner repo rest
            (issues ++ [("Missing required file: " ++ file)%string])
            (score - 20)%Z log1
      | _ => checkRequiredFiles api owner repo rest issues score log1
      end
  end.

Definition missingScript (present : bool) (name : string)
    (acc : list string * Z) : list string * Z :=
  if present then acc
  else (fst acc ++ [("Missing " ++ name ++ " script in package.json")%string],
        (snd acc - 10)%Z).

Definition checkPackageJson (api : GitHub) (owner repo : string)
    (issues : list string) (score : Z) : G (list string * Z) :=
  fun log =>
    let (c, log1) := fetch api owner repo "package.json" log in
    match c with
    | Listing => ((issues, score), log1)
    | FileData (Some s) =>
        (missingScript (test s) "test"
           (missingScript (build s) "build"
              (missingScript (dev s) "dev" (issues, score))), log1)
    | Absent | FileData None =>
        ((issues ++ ["Cannot parse package.json"], (score - 30)%Z), log1)
    end.

Definition checkTestsDirectory (api : GitHub) (owner repo : string)
    (issues : list string) (score : Z) : G (list string * Z) :=
  fun log =>
    let (c, log1) := fetch api owner repo "tests" log in
    match c with
    | Absent =>
        let (c', log2) := fetch api owner repo "__tests__" log1 in
        match c' with
        | Absent => ((issues ++ ["No tests directory found"], (score - 15)%Z), log2)
        | _ => ((issues, score), log2)
        end
    | _ => ((issues, score), log1)
    end.

Definition validateTemplate (api : GitHub) (repoUrl : string)
    : G (Outcome BasicValidation) :=
  fun log =>
    match parseRepoUrl repoUrl with
    | None => (Threw "Invalid GitHub repository URL", log)
    | Some (owner, repo) =>
        let log0 := log ++ [ReposGet owner repo] in
        if reposGet api log owner repo then
          let (r1, log1) :=
            checkRequiredFiles api owner repo requiredFiles [] 100 log0 in
          let (r2, log2) := checkPackageJson api owner repo (fst r1) (snd r1) log1 in
          let (r3, log3) :=
            checkTestsDirectory api owner repo (fst r2) (snd r2) log2 in
          (Returned (mkBasic (60 <=? snd r3)%Z (fst r3) (snd r3)), log3)
        else
          (Returned (mkBasic false ["Repository not found or not accessible"] 0),
           log0)
    end.

(** ** [TemplateValidator.performAdditionalChecks] *)

Record AdditionalChecks := mkAdditional {
  a_issues : list string;
  a_recommendations : list string;
  a_penalties : Z
}.

(** One [try { getContent } catch { ... }]: a missing path costs a penalty
    and leaves a note, among the issues or among the recommendations. *)
Definition checkPath (api : GitHub) (owner repo path : string)
    (asIssue : bool) (note : string) (penalty : Z) (acc : AdditionalChecks)
    : G AdditionalChecks :=
  fun log =>
    let (c, log1) := fetch api owner repo path log in
    match c with
    | Absent =>
        (if asIssue
         then mkAdditional (a_issues acc ++ [note]) (a_recommendations acc)
                           (a_penalties acc + penalty)%Z
         else mkAdditional (a_issues acc) (a_recommendations acc ++ [note])
                           (a_penalties acc + penalty)%Z,
         log1)
    | _ => (acc, log1)
    end.

Definition performAdditionalChecks (api : GitHub) (repoUrl : string)
    : G AdditionalChecks :=
  fun log =>
    match parseRepoUrl repoUrl with
    | None =>
        (mkAdditional
           ["Failed to perform additional checks: Invalid GitHub repository URL"]
           [] 20, log)
    | Some (owner, repo) =>
        let (a1, log1) :=
          checkPath api owner repo ".github/workflows" false
                    "Consider adding GitHub Actions for CI/CD" 5
                    (mkAdditional [] [] 0) log in
        let (a2, log2) :=
          checkPath api owner repo "LICENSE" true "Missing LICENSE file" 10 a1 log1 in
        let (a3, log3) :=
          checkPath api owner repo "CONTRIBUTING.md" false
                    "Consider adding CONTRIBUTING.md" 5 a2 log2 in
        let (a4, log4) :=
          checkPath api owner repo "SECURITY.md" false
                    "Consider adding SECURITY.md" 3 a3 log3 in
        checkPath api owner repo "CODE_OF_CONDUCT.md" false
                  "Consider adding CODE_OF_CONDUCT.md" 2 a4 log4
    end.

(** ** [TemplateValidator.validateTemplateRepository] *)

Record RepositoryValidation := mkRepositoryValidation {
  r_valid : bool;
  r_score : Z;
  r_issues : list string;
  r_recommendations : list string
}.

Definition validateTemplateRepository (api : GitHub) (repoUrl : string)
    : G RepositoryValidation :=
  fun log =>
    let (basic, log1) := validateTemplate api repoUrl log in
    match basic with
    | Threw message =>
        (mkRepositoryValidation (70 <=? 0)%Z 0
           [("Repository validation failed: " ++ message)%string] [], log1)
    | Returned basicValidation =>
        let (additionalChecks, log2) := performAdditionalChecks api repoUrl log1 in
        let score :=
          Z.max 0 (b_score basicValidation - a_penalties additionalChecks) in
        (mkRepositoryValidation (70 <=? score)%Z score
           (b_issues basicValidation ++ a_issues additionalChecks)
           (a_recommendations additionalChecks), log2)
    end.

(** ** [TemplateValidator.generateTemplateHealthReport] *)

(** A template, as far as the validator reads it; a field that may be
    missing is an [option]. *)
Record Template := mkTemplate {
  t_id : string;
  t_name : string;
  t_repository : string;
  t_stack : option (list string);
  t_envVars : option (list string);
  t_features : option (list string)
}.

Inductive Health := healthy | warning | critical.

Record Detail := mkDetail {
  d_template : string;
  d_status : Health;
  d_issues : list string;
  d_score : Z
}.

Record HealthReport := mkHealthReport {
  h_healthy : nat;
  h_warning : nat;
  h_critical : nat;
  h_details : list Detail
}.

Definition classify (score : Z) : Health :=
  if (90 <=? score)%Z then healthy
  else if (70 <=? score)%Z then warning
  else critical.

(** The loop over the templates; [validateTemplateRepository] does not
    throw, the [catch] around it is never entered. *)
Fixpoint healthLoop (api : GitHub) (templates : list Template)
    (acc : HealthReport) : G HealthReport :=
  match templates with
  | [] => fun log => (acc, log)
  | template :: rest => fun log =>
      let (validation, log1) :=
        validateTemplateRepository api (t_repository template) log in
      let status := classify (r_score validation) in
      let detail := mkDetail (t_name template) status (r_issues validation)
                             (r_score validation) in
      healthLoop api rest
        (match status with
         | healthy => mkHealthReport (h_healthy acc + 1) (h_warning acc)
                                     (h_critical acc) (h_details acc ++ [detail])
         | warning => mkHealthReport (h_healthy acc) (h_warning acc + 1)
                                     (h_critical acc) (h_details acc ++ [detail])
         | critical => mkHealthReport (h_healthy acc) (h_warning acc)
                                      (h_critical acc + 1) (h_details acc ++ [detail])
         end) log1
  end.

Definition generateTemplateHealthReport (api : GitHub) (templates : list Template)
    : G HealthReport :=
  healthLoop api templates (mkHealthReport 0 0 0 []).

(** ** [validateTemplateConfig] and [validateTemplateRegistry] *)

Record Category := mkCategory {
  c_id : option string;
  c_name : option string;
  c_templates : option (list string)
}.

Record Registry := mkRegistry {
  (** [None]: no [templates], or not an array *)
  templates : option (list Template);
  categories : option (list Category)
}.

Record Library := mkLibrary {
  (** the messages of [TemplateSchema.parse], none when it passes *)
  schemaErrors : Template -> list string;
  stringifyCategory : Category -> string
}.

Record ConfigValidation := mkConfigValidation {
  cv_valid : bool;
  cv_errors : list string;
  cv_warnings : list string
}.

Definition warnWhen (cond : bool) (message : string) : list string :=
  if cond then [message] else [].

Definition validateTemplateConfig (lib : Library) (template : Template)
    : ConfigValidation :=
  let errors := schemaErrors lib template in
  let warnings :=
    warnWhen (match t_stack template with
              | Some l => (8 <? length l)%nat | None => false end)
             "Stack has many technologies - consider simplifying"
    ++ warnWhen (match t_envVars template with
                 | Some l => (15 <? length l)%nat | None => false end)
                "Many environment variables - consider consolidating"
    ++ warnWhen (match t_features template with
                 | Some l => (length l <? 3)%nat | None => false end)
                "Template should highlight more features" in
  mkConfigValidation (length errors =? 0)%nat errors warnings.

(** The two [Set] loops: a key seen before is pushed once for each time it
    comes again. *)
Fixpoint repeated (seen keys : list string) : list string :=
  match keys with
  | [] => []
  | k :: rest =>
      (if existsb (String.eqb k) seen then [k] else [])
      ++ repeated (k :: seen) rest
  end.

Record RegistryValidation := mkRegistryValidation {
  v_valid : bool;
  v_issues : list string;
  v_warnings : list string;
  v_duplicates : list string
}.

Definition templateIssues (lib : Library) (ts : list Template) : list string :=
  flat_map (fun template =>
              let validation := validateTemplateConfig lib template in
              if negb (cv_valid validation)
              then [("Template " ++ t_id template ++ ": "
                     ++ Js.join ", " (cv_errors validation))%string]
              else []) ts.

Definition templateWarnings (lib : Library) (ts : list Template) : list string :=
  flat_map (fun template =>
              let validation := validateTemplateConfig lib template in
              if (0 <? length (cv_warnings validation))%nat
              then [("Template " ++ t_id template ++ ": "
                     ++ Js.join ", " (cv_warnings validation))%string]
              else []) ts.

Definition falsy (o : option string) : bool :=
  match o with Some s => negb (Js.truthy s) | None => true end.

Definition categoryIssues (lib : Library) (ts : list Template)
    (category : Category) : list string :=
  (if falsy (c_id category) || falsy (c_name category)
   then [("Category missing id or name: " ++ stringifyCategory lib category)%string]
   else [])
  ++ match c_templates category with
     | Some ids =>
         flat_map (fun templateId =>
                     if existsb (fun t => String.eqb (t_id t) templateId) ts
                     then []
                     else [("Category " ++ Js.template (c_id category)
                            ++ " references non-existent template: "
                            ++ templateId)%string]) ids
     | None => []
     end.

Definition validateTemplateRegistry (lib : Library) (registry : Registry)
    : RegistryValidation :=
  match templates registry with
  | None => mkRegistryValidation false ["Registry must have a templates array"] [] []
  | Some ts =>
      let duplicates :=
        repeated [] (map t_id ts)
        ++ map (fun r => ("Repository: " ++ r)%string)
               (repeated [] (map t_repository ts)) in
      let issues :=
        templateIssues lib ts
        ++ match categories registry with
           | Some cs => flat_map (categoryIssues lib ts) cs
           | None => []
           end in
      mkRegistryValidation (length issues =? 0)%nat issues
                           (templateWarnings lib ts) duplicates
  end.

End Templates.

(** Penalties with their notes: between 0 and [hi], and 0 exactly when
    nothing was noted; at most [ni] issues and [nr] recommendations. *)
Definition charged (hi : Z) (ni nr : nat) (a : Templates.AdditionalChecks)
    : Prop :=
  (0 <= Templates.a_penalties a <= hi)%Z
  /\ (Templates.a_penalties a = 0%Z
      <-> Templates.a_issues a = [] /\ Templates.a_recommendations a = [])
  /\ (length (Templates.a_issues a) <= ni)%nat
  /\ (length (Templates.a_recommendations a) <= nr)%nat.

Definition countStatus (s : Templates.Health) (details : list Templates.Detail)
    : nat :=
  length (filter (fun d => match Templates.d_status d, s with
                           | Templates.healthy, Templates.healthy
                           | Templates.warning, Templates.warning
                           | Templates.critical, Templates.critical => true
                           | _, _ => false
                           end) details).

Definition acceptingLibrary : Templates.Library :=
  Templates.mkLibrary (fun _ => []) (fun _ => "{}").

Definition twoTemplates : list Templates.Template :=
  [Templates.mkTemplate "vite-react" "Vite React"
     "https://github.com/mxn2020/vite-react" None None None;
   Templates.mkTemplate "next-app" "Next App"
     "https://github.com/mxn2020/next-app" None None None].

Definition smallRegistry : Templates.Registry :=
  Templates.mkRegistry (Some twoTemplates) None.

(** * The worker: [CustomAIAgent.processTask]

    Source: [src/agent/custom-ai-agent.ts].  The language model, the tools
    and the clock are outside: what they give is decided by the
    [CustomAIAgent] record, which sees the requests made before.
    - [callAIWithTools] returns the text of the reply or throws; a reply
      that is no string makes [stepResult.toLowerCase()] throw and counts
      as thrown.
    - [execute] is [tool.execute] followed by [JSON.stringify]: the text of
      the result, or the message of what is thrown on the way, by the tool,
      by [JSON.stringify], or by [slice] when there is no text.
    - [options.onProgress] is not given; the orchestrator gives none.
    - The system prompt is a template literal evaluated inside the [try]:
      it reads [this.memory.projectContext.framework], which throws a
      [TypeError] when the configuration has no [projectContext].
    - A string is its UTF-8 bytes. *)

Module Agent.

Record ToolCall := mkToolCall { tc_name : string; tc_parameters : string }.

Record ExecutionStep := mkStep {
  es_step : string;
  es_result : string;
  es_success : bool;
  es_tool : string;
  es_parameters : string
}.

Record Message := mkMessage {
  m_role : string;
  m_content : string;
  m_timestamp : Z
}.

Record TaskRecord := mkTaskRecord {
  tr_task : string;
  tr_approach : string;
  tr_result : string;
  tr_success : bool;
  tr_timestamp : Z
}.

Inductive Event :=
| AskedAI (request : string)
| RanTool (toolCall : ToolCall).

Record CustomAIAgent := mkAgent {
  (** the template literal built from [this.tools], [this.config] and
      [this.memory.projectContext]: its text, or the message of what its
      evaluation throws *)
  systemPrompt : Outcome string;
  callAIWithTools : list Event -> string -> Outcome string;
  parseToolCalls : string -> list ToolCall;
  (** the keys of [this.tools] *)
  tools : list string;
  execute : list Event -> ToolCall -> Outcome string;
  now : list Event -> Z
}.

(** [this.memory], and the requests made so far. *)
Record State := mkState {
  conversation : list Message;
  taskHistory : list TaskRecord;
  events : list Event
}.

(** The local variables of [processTask] that outlive a step. *)
Record Progress := mkProgress {
  p_reasoning : list string;
  p_executionSteps : list ExecutionStep;
  p_lastResult : string
}.

(** [for (const toolCall of toolCalls)]: a name that is no key of
    [this.tools] is passed over. *)
Fixpoint runTools (this : CustomAIAgent) (toolCalls : list ToolCall)
    (p : Progress) (log : list Event) : Progress * list Event :=
  match toolCalls with
  | [] => (p, log)
  | toolCall :: rest =>
      let name := tc_name toolCall in
      if existsb (String.eqb name) (tools this) then
        match execute this log toolCall with
        | Returned toolResult =>
            runTools this rest
              (mkProgress
                 (p_reasoning p ++ [("✅ Executed " ++ name ++ " successfully")%string])
                 (p_executionSteps p
                  ++ [mkStep ("Using " ++ name) (String.substring 0 500 toolResult)
                             true name (tc_parameters toolCall)])
                 toolResult)
              (log ++ [RanTool toolCall])
        | Threw message =>
            runTools this rest
              (mkProgress
                 (p_reasoning p
                  ++ [("❌ Tool " ++ name ++ " failed: " ++ message)%string])
                 (p_executionSteps p
                  ++ [mkStep ("Using " ++ name) ("Error: " ++ message)
                             false name (tc_parameters toolCall)])
                 (p_lastResult p))
              (log ++ [RanTool toolCall])
        end
      else runTools this rest p log
  end.

Definition announcesCompletion (stepResult : string) : bool :=
  Js.includes (Js.toLowerCase stepResult) "task completed"
  || Js.includes (Js.toLowerCase stepResult) "implementation finished"
  || Js.includes (Js.toLowerCase stepResult) "all done".

Definition stepPrompt (systemPrompt : string) (currentStep : Z)
    (prompt lastResult : string) : string :=
  if (currentStep =? 1)%Z
  then systemPrompt ++ Js.nl ++ Js.nl ++ "Task: " ++ prompt ++ Js.nl ++ Js.nl
       ++ "Please start by analyzing the current state and then implement the required changes."
  else "Continue with the implementation. Previous result: " ++ lastResult
       ++ Js.nl ++ Js.nl ++ "Next step in the process:".

(** [while (shouldContinue && currentStep < options.maxSteps)].  The loop
    is entered with [shouldContinue] true; [remaining] is
    [maxSteps - currentStep], the number of steps the test still admits.
    The first component is the message of the error thrown, if any. *)
Fixpoint stepLoop (this : CustomAIAgent) (systemPrompt : string)
    (remaining : nat) (currentStep : Z)
    (prompt : string) (p : Progress) (log : list Event)
    : option string * Progress * list Event :=
  match remaining with
  | O => (None, p, log)
  | S remaining' =>
      let currentStep := (currentStep + 1)%Z in
      let request :=
        stepPrompt systemPrompt currentStep prompt (p_lastResult p) in
      let log1 := log ++ [AskedAI request] in
      match callAIWithTools this log request with
      | Threw message => (Some message, p, log1)
      | Returned stepResult =>
          match parseToolCalls this stepResult with
          | [] =>
              (None,
               mkProgress (p_reasoning p) (p_executionSteps p) stepResult, log1)
          | toolCalls =>
              let (p1, log2) := runTools this toolCalls p log1 in
              if announcesCompletion stepResult then (None, p1, log2)
              else stepLoop this systemPrompt remaining' currentStep prompt p1 log2
          end
      end
  end.

Definition processTask (this : CustomAIAgent) (prompt : string)
    (o : Options) (st : State)
    : (AgentResult * list ExecutionStep) * State :=
  let conversation1 :=
    conversation st ++ [mkMessage "user" prompt (now this (events st))] in
  let reasoning0 :=
    if reasoning o
    then ["🧠 Analyzing task and generating execution plan..."] else [] in
  match systemPrompt this with
  | Threw message =>
      ((mkAgentResult false None (Some message) reasoning0, []),
       mkState conversation1 (taskHistory st) (events st))
  | Returned systemPrompt =>
      let '(error, p, log) :=
        stepLoop this systemPrompt (Z.to_nat (maxSteps o)) 0 prompt
                 (mkProgress reasoning0 [] EmptyString) (events st) in
      match error with
      | None =>
          ((mkAgentResult true (Some (p_lastResult p)) None (p_reasoning p),
            p_executionSteps p),
           mkState conversation1
             (taskHistory st
              ++ [mkTaskRecord prompt
                    (Js.ofNat (length (p_executionSteps p)) ++ " steps executed")
                    (String.substring 0 500 (p_lastResult p)) true
                    (now this log)])
             log)
      | Some message =>
          ((mkAgentResult false None (Some message) (p_reasoning p),
            p_executionSteps p),
           mkState conversation1 (taskHistory st) log)
      end
  end.

End Agent.

(** The requests to the language model among the events. *)
Definition asked (log : list Agent.Event) : list string :=
  flat_map (fun e => match e with
                     | Agent.AskedAI request => [request]
                     | Agent.RanTool _ => []
                     end) log.

Definition ran (log : list Agent.Event) : list Agent.ToolCall :=
  flat_map (fun e => match e with
                     | Agent.AskedAI _ => []
                     | Agent.RanTool toolCall => [toolCall]
                     end) log.

(** A tool call whose name is a key of [this.tools]. *)
Definition known (this : Agent.CustomAIAgent) (toolCall : Agent.ToolCall) : Prop :=
  In (Agent.tc_name toolCall) (Agent.tools this).

(** What a run of tools or of steps leaves behind: [more] events, a step
    and a line of reasoning for each tool run among them, every tool a
    known one. *)
Definition tracks (this : Agent.CustomAIAgent) (p p' : Agent.Progress)
    (more : list Agent.Event) : Prop :=
  map Agent.es_tool (Agent.p_executionSteps p')
  = map Agent.es_tool (Agent.p_executionSteps p) ++ map Agent.tc_name (ran more)
  /\ length (Agent.p_reasoning p')
     = (length (Agent.p_reasoning p) + length (ran more))%nat
  /\ Forall (known this) (ran more).

(** An agent whose language model asks for a tool once and then stops,
    and whose only tool throws. *)
Definition clumsyAgent : Agent.CustomAIAgent :=
  Agent.mkAgent (Returned "You are an advanced AI development assistant")
    (fun log _ => match asked log with
                  | [] => Returned "use_tool: read_file()"
                  | _ => Returned "All done"
                  end)
    (fun text => if Js.startsWith text "use_tool"
                 then [Agent.mkToolCall "read_file" "{}"] else [])
    ["read_file"]
    (fun _ _ => Threw "ENOENT")
    (fun log => Z.of_nat (length log)).

Definition freshState : Agent.State := Agent.mkState [] [] [].

Definition laterState : Agent.State :=
  Agent.mkState [] [] [Agent.AskedAI "Earlier request"].

(** An agent configured without [projectContext], as the orchestrator
    configures its team; its language model would reply at once. *)
Definition bareAgent : Agent.CustomAIAgent :=
  Agent.mkAgent
    (Threw "Cannot read properties of undefined (reading 'framework')")
    (fun _ _ => Returned "All done")
    (fun _ => [])
    []
    (fun _ _ => Threw "ENOENT")
    (fun log => Z.of_nat (length log)).

(** * The coding agent: [CodingAgent.developFeature]

    Source: [src/agent/coding-agent.ts].  The language model, the sandbox
    and the test runner are outside, decided by the [CodingAgent] record
    from what happened before.  The callbacks [onProgress] and [onCommit]
    return; what they are called with is kept in the session. *)

Module Coding.

(** A change found by [extractCodeChanges]; the action is always [create]. *)
Record Change := mkChange { filePath : string; content : string }.

Inductive Event :=
| Commanded (prompt : string) (iteration : nat)
| Applied (changes : list Change)
| Tested (passed : bool).

Record CodingAgent := mkCodingAgent {
  runAICommand : list Event -> string -> nat -> Outcome string;
  extractCodeChanges : string -> list Change;
  (** [Some message]: it throws *)
  applyChanges : list Event -> list Change -> option string;
  (** [testResult.success] and [testResult.output], unless the call throws *)
  runTests : list Event -> Outcome (bool * string)
}.

(** The local variables of [developFeature], the calls of the two
    callbacks, and what happened so far. *)
Record Session := mkSession {
  s_iteration : nat;
  s_success : bool;
  s_commits : list string;
  s_output : string;
  s_progress : list string;
  s_committed : list string;
  s_log : list Event
}.

Definition onProgress (step : string) (s : Session) : Session :=
  mkSession (s_iteration s) (s_success s) (s_commits s) (s_output s)
            (s_progress s ++ [step]) (s_committed s) (s_log s).

Definition happened (e : Event) (s : Session) : Session :=
  mkSession (s_iteration s) (s_success s) (s_commits s) (s_output s)
            (s_progress s) (s_committed s) (s_log s ++ [e]).

Definition addOutput (text : string) (s : Session) : Session :=
  mkSession (s_iteration s) (s_success s) (s_commits s) (s_output s ++ text)
            (s_progress s) (s_committed s) (s_log s).

Definition commitMessage (iteration : nat) (taskDescription : string) : string :=
  "feat: iteration " ++ Js.ofNat iteration ++ " - "
  ++ String.substring 0 50 taskDescription.

(** [commits.push(commitMessage); options.onCommit(commitMessage)] *)
Definition commit (taskDescription : string) (s : Session) : Session :=
  mkSession (s_iteration s) (s_success s)
            (s_commits s ++ [commitMessage (s_iteration s) taskDescription])
            (s_output s) (s_progress s)
            (s_committed s ++ [commitMessage (s_iteration s) taskDescription])
            (s_log s).

(** The [catch] of an iteration. *)
Definition caught (message : string) (s : Session) : Session :=
  addOutput (Js.nl ++ "Error: " ++ message)
    (onProgress ("❌ Error in iteration " ++ Js.ofNat (s_iteration s) ++ ": "
                 ++ message) s).

Definition fixPrompt (testOutput : string) : string :=
  "The tests are failing with this output:" ++ Js.nl ++ testOutput
  ++ Js.nl ++ Js.nl ++ "Please fix these issues.".

(** The body of the loop. *)
Definition iterate (this : CodingAgent) (taskDescription : string)
    (s : Session) : Session :=
  let s0 :=
    mkSession (S (s_iteration s)) (s_success s) (s_commits s) (s_output s)
              (s_progress s) (s_committed s) (s_log s) in
  let s1 :=
    onProgress ("Iteration " ++ Js.ofNat (s_iteration s0)
                ++ ": Analyzing and implementing...") s0 in
  let s2 := happened (Commanded taskDescription (s_iteration s1)) s1 in
  match runAICommand this (s_log s1) taskDescription (s_iteration s1) with
  | Threw message => caught message s2
  | Returned aiResponse =>
      let s3 :=
        addOutput (Js.nl ++ "--- Iteration " ++ Js.ofNat (s_iteration s2)
                   ++ " ---" ++ Js.nl ++ aiResponse) s2 in
      match extractCodeChanges this aiResponse with
      | [] => s3
      | changes =>
          let s4 := happened (Applied changes) s3 in
          match applyChanges this (s_log s3) changes with
          | Some message => caught message s4
          | None =>
              let s5 := onProgress "Running tests..." s4 in
              match runTests this (s_log s5) with
              | Threw message => caught message s5
              | Returned (passed, testOutput) =>
                  let s6 := happened (Tested passed) s5 in
                  if passed then
                    commit taskDescription
                      (onProgress "✅ All tests passing!"
                         (mkSession (s_iteration s6) true (s_commits s6)
                                    (s_output s6) (s_progress s6)
                                    (s_committed s6) (s_log s6)))
                  else
                    let s7 := onProgress "❌ Tests failing, fixing issues..." s6 in
                    let s8 :=
                      happened (Commanded (fixPrompt testOutput) (s_iteration s7))
                               s7 in
                    match runAICommand this (s_log s7) (fixPrompt testOutput)
                                       (s_iteration s7) with
                    | Threw message => caught message s8
                    | Returned _ => commit taskDescription s8
                    end
              end
          end
      end
  end.

(** [while (iteration < maxIterations && !success)]; [remaining] is
    [maxIterations - iteration], the number of iterations the first test
    still admits. *)
Fixpoint develop (this : CodingAgent) (taskDescription : string)
    (remaining : nat) (s : Session) : Session :=
  match remaining with
  | O => s
  | S remaining' =>
      if s_success s then s
      else develop this taskDescription remaining' (iterate this taskDescription s)
  end.

(** [options.maxIterations || 10] *)
Definition orTen (maxIterations : option Z) : Z :=
  match maxIterations with
  | Some m => if (m =? 0)%Z then 10%Z else m
  | None => 10%Z
  end.

(** The session at the [return]; the value returned is its [s_success],
    [s_commits] and [s_output]. *)
Definition developFeature (this : CodingAgent) (taskDescription : string)
    (maxIterations : option Z) : Session :=
  develop this taskDescription (Z.to_nat (orTen maxIterations))
    (onProgress "Starting AI development session..."
       (mkSession 0 false [] EmptyString [] [] [])).

End Coding.

(** What holds of a session between two iterations. *)
Definition steady (taskDescription : string) (s : Coding.Session) : Prop :=
  (Coding.s_success s = true <-> In (Coding.Tested true) (Coding.s_log s))
  /\ Coding.s_committed s = Coding.s_commits s
  /\ (length (Coding.s_commits s) <= Coding.s_iteration s)%nat
  /\ Forall (fun m => exists i, (1 <= i <= Coding.s_iteration s)%nat
                                /\ m = Coding.commitMessage i taskDescription)
            (Coding.s_commits s).

(** * The team as [initializeTeam] builds it *)

(** [initializeTeam] makes the lead and the five members [CustomAIAgent]s.
    What stands behind a worker when it is called (its configuration, its
    language model, tools and clock, and its memory) is given by [agents]
    from the calls made so far; the call runs the agent's [processTask],
    whose body is one [try] with a [catch] that returns a result.  The
    rest of the world stays as it is. *)
Definition initializeTeam
    (agents : list Call -> AgentId -> Agent.CustomAIAgent * Agent.State)
    (w : World) : World :=
  mkWorld (fun h c =>
             Returned (fst (fst (Agent.processTask
                                   (fst (agents h (callee c)))
                                   (prompt c) (options c)
                                   (snd (agents h (callee c)))))))
          (clock w) (pick w) (stringifyResult w) (stringifyContributions w).

(** Every call of a worker returns a result (which may report a failure). *)
Definition resolves (w : World) : Prop :=
  forall h c, exists r, respond w h c = Returned r.

(** A flight whose call has returned. *)
Definition landed (f : InFlight) : Prop := exists r, f_outcome f = Returned r.

(** A team whose language models answer in one step and call no tool: the
    lead's model lists two tasks, or gives a hint when asked for guidance;
    the tester's model is down; the models of the others say that they are
    done. *)
Definition officeAgents (h : list Call) (who : AgentId)
    : Agent.CustomAIAgent * Agent.State :=
  (Agent.mkAgent
     (Returned "You are an advanced AI development assistant")
     (fun _ request =>
        match who with
        | Lead =>
            if Js.includes request "Provide guidance"
            then Returned "Keep it small"
            else Returned ("- Test the login form" ++ Js.nl
                           ++ "- Write the code")%string
        | Member r =>
            if String.eqb r "tester"
            then Threw "Anthropic API error: 500 Internal Server Error"
            else Returned "done"
        end)
     (fun _ => [])
     []
     (fun _ _ => Threw "ENOENT")
     (fun log => Z.of_nat (length log)),
   Agent.mkState [] [] []).

Definition office (s : OrchestrationStrategy) : AgentOrchestrator :=
  mkOrchestrator (initializeTeam officeAgents (world (helpfulTeam s))) s.

(** Calls of a hierarchical run that reaches every task of [tasks], from
    history [h] on: for each task the lead is asked for guidance on the
    task and its role, with reasoning disabled, and the member of that
    role is then given the task description followed by the guidance. *)
Inductive consulted (w : World) : list Call -> list Task -> list Call -> Prop :=
| consulted_all h : consulted w h [] []
| consulted_task h task rest guidance ask work calls :
    ask = mkCall Lead
            ("Provide guidance for this task: " ++ description task ++ Js.nl
             ++ "        Agent: " ++ selectBestAgent task ++ Js.nl
             ++ "        Role: " ++ Js.template (roleName (selectBestAgent task)))
            (mkOptions false 3) ->
    respond w h ask = Returned guidance ->
    work = mkCall (Member (selectBestAgent task))
             (description task ++ Js.nl ++ Js.nl ++ "Guidance from lead: "
              ++ Js.template (ar_result guidance))
             (mkOptions true 8) ->
    consulted w (h ++ [ask; work]) rest calls ->
    consulted w h (task :: rest) (ask :: work :: calls).

(** Where a parallel run without [retryOnFailure] stops: after all the
    batches, each of them completed, or after the first batch with a task
    that is not completed. *)
Definition stopsAtFailure (ok : bool) (batches settled : list (list Task)) : Prop :=
  (ok = true /\ length settled = length batches
   /\ forallb allCompleted settled = true)
  \/ (ok = false
      /\ exists done last,
           settled = done ++ [last]
           /\ forallb allCompleted done = true
           /\ allCompleted last = false).

(** The world of [abortingRun] (a tester that throws) under the Parallel
    strategy, two tasks at a time, without [retryOnFailure]. *)
Definition abortingBatches : AgentOrchestrator :=
  mkOrchestrator (world abortingRun) (mkStrategy parallel 2 false false).

(** * Proofs *)

(** ** The role selector *)

Lemma selectBestAgent_table (task : Task) :
  selectBestAgent task = firstMatch roleRules (Js.toLowerCase (description task)).
Proof.
  unfold selectBestAgent, roleRules, firstMatch, existsb.
  generalize (Js.toLowerCase (description task)); intro text.
  repeat match goal with
         | |- context [Js.includes text ?k] => destruct (Js.includes text k); simpl
         end; reflexivity.
Qed.

Lemma selectBestAgent_is_member (task : Task) :
  existsb (String.eqb (selectBestAgent task)) roleKeys = true.
Proof.
  unfold selectBestAgent.
  generalize (Js.toLowerCase (description task)); intro text.
  repeat match goal with
         | |- context [Js.includes text ?k] => destruct (Js.includes text k); simpl
         end; reflexivity.
Qed.

(** C8. The role selector depends on the task text only and follows the
    fixed precedence architect, tester, documenter, reviewer, developer,
    the first keyword class found in the lower-cased text winning; the work
    item "Fix typo in README" goes to the documenter. *)
Theorem role_selector_precedence :
  (forall task,
     selectBestAgent task
     = firstMatch roleRules (Js.toLowerCase (description task)))
  /\ selectBestAgent (fallbackTask "Fix typo in README") = "documenter".
Proof.
  split; [exact selectBestAgent_table | reflexivity].
Qed.

(** ** The decomposer *)

Lemma pushCurrent_inert tasks currentTask :
  inert currentTask -> pushCurrent tasks currentTask = tasks.
Proof.
  unfold inert, pushCurrent.
  destruct (pt_description currentTask) as [d|]; [intros ->|]; reflexivity.
Qed.

Lemma parseLine_inert tasks currentTask line :
  describesTask line = false -> inert currentTask ->
  fst (parseLine (tasks, currentTask) line) = tasks
  /\ inert (snd (parseLine (tasks, currentTask) line)).
Proof.
  unfold describesTask, parseLine. intros Hline Hin.
  destruct (isTaskStart (Js.trim line)); cbn [andb fst snd] in *.
  - rewrite pushCurrent_inert by assumption. split; [reflexivity|].
    unfold inert; cbn [pt_description]. exact Hline.
  - destruct (Js.startsWith (Js.trim line) "Priority:"); cbn [fst snd].
    + split; [reflexivity | exact Hin].
    + destruct (Js.startsWith (Js.trim line) "Depends on:"); cbn [fst snd];
        (split; [reflexivity | exact Hin]).
Qed.

Lemma parseLines_inert lines : forall tasks currentTask,
  forallb (fun l => negb (describesTask l)) lines = true ->
  inert currentTask ->
  fst (fold_left parseLine lines (tasks, currentTask)) = tasks
  /\ inert (snd (fold_left parseLine lines (tasks, currentTask))).
Proof.
  induction lines as [|line lines IH]; intros tasks currentTask Hall Hin;
    cbn [fold_left].
  - split; [reflexivity | exact Hin].
  - cbn [forallb] in Hall. apply andb_true_iff in Hall as [Hl Hall].
    apply negb_true_iff in Hl.
    destruct (parseLine_inert tasks currentTask line Hl Hin) as [E1 E2].
    destruct (parseLine (tasks, currentTask) line) as [tasks' cur'].
    simpl in E1, E2. subst tasks'. apply IH; assumption.
Qed.

(** C9. Whatever the lead answered and whatever the work item is, the parse
    gives at least one task; when no line of the answer opens a task with a
    description, it gives the one fallback task, whose description is the
    work item and whose priority is medium. *)
Theorem parseTaskBreakdown_never_empty analysisResult originalDescription :
  (1 <= length (parseTaskBreakdown analysisResult originalDescription))%nat
  /\ (forallb (fun l => negb (describesTask l))
              (Js.split "010"%char analysisResult) = true ->
      exists t,
        parseTaskBreakdown analysisResult originalDescription = [t]
        /\ description t = originalDescription
        /\ priority t = "medium"
        /\ status t = pending).
Proof.
  unfold parseTaskBreakdown. split.
  - destruct (fold_left parseLine _ _) as [tasks0 cur].
    destruct (0 <? length (pushCurrent tasks0 cur))%nat eqn:E.
    + apply Nat.ltb_lt in E. lia.
    + simpl. lia.
  - intros Hall.
    destruct (parseLines_inert _ [] (mkPartial None None None) Hall I) as [E1 E2].
    destruct (fold_left parseLine _ _) as [tasks0 cur]. simpl in E1, E2.
    subst tasks0. rewrite pushCurrent_inert by assumption. simpl.
    exists (fallbackTask originalDescription). repeat split.
Qed.

Lemma parseTaskBreakdown_never_empty_witness :
  (1 <= length (parseTaskBreakdown "I cannot split this." EmptyString))%nat
  /\ exists t,
       parseTaskBreakdown "I cannot split this." EmptyString = [t]
       /\ description t = EmptyString
       /\ priority t = "medium"
       /\ status t = pending.
Proof.
  destruct (parseTaskBreakdown_never_empty "I cannot split this." EmptyString)
    as [H1 H2].
  split; [exact H1 | apply H2; reflexivity].
Defined.


(** ** Stepping through the monad *)

Lemma memberProcessTask_selected this task p o :
  memberProcessTask this (selectBestAgent task) p o
  = processTask this (Member (selectBestAgent task)) p o.
Proof.
  unfold memberProcessTask. now rewrite selectBestAgent_is_member.
Qed.

Ltac unfold_monad :=
  unfold bind, ret, pushTimeline, dateNow, contribute, processTask;
  cbn [fst snd timeline agentContributions history].

Ltac recursive_call loop IH :=
  match goal with
  | |- context [loop ?this ?rest ?results ?st] =>
      let H := fresh "IH" in
      pose proof (IH results st) as H;
      destruct (loop this rest results st) as [[? ?] ?];
      cbn [fst snd] in H |- *
  end.

Lemma terminal_completeTask now p t : terminal (completeTask now p t).
Proof. reflexivity. Qed.

Lemma terminal_failTask e t : terminal (failTask e t).
Proof. reflexivity. Qed.

Create HintDb orch.
#[local] Hint Resolve terminal_completeTask terminal_failTask : orch.
#[local] Hint Constructors ranTo Forall : orch.

Lemma ranTo_notInProgress l l' :
  ranTo l l' -> Forall notInProgress l -> Forall notInProgress l'.
Proof.
  induction 1 as [|t t' rest rest' Ht _ IH]; intros Hall; [assumption|].
  inversion Hall; subst. constructor; [|auto].
  unfold terminal in Ht. unfold notInProgress.
  destruct (status t'); simpl in *; congruence.
Qed.

(** ** The sequential executor *)

Lemma executeSequentialLoop_status this tasks : forall results st,
  let out := fst (executeSequentialLoop this tasks results st) in
  ranTo tasks (fst out)
  /\ (sr_success (snd out) = true -> Forall terminal (fst out))
  /\ (retryOnFailure (strategy this) = true -> sr_success (snd out) = true).
Proof.
  induction tasks as [|task rest IH]; intros results st; cbn zeta.
  - cbn. auto with orch.
  - cbn [executeSequentialLoop]. rewrite memberProcessTask_selected.
    unfold_monad.
    destruct (respond _ _ _) as [res|e].
    + recursive_call executeSequentialLoop IH.
      destruct IH0 as (R & T & S). auto 6 with orch.
    + destruct (retryOnFailure (strategy this)) eqn:Retry; cbn [negb].
      * recursive_call executeSequentialLoop IH.
        destruct IH0 as (R & T & S). auto 6 with orch.
      * cbn. repeat split; auto with orch; discriminate.
Qed.


(** ** The collaborative executor *)

Lemma executeCollaborativeLoop_status this tasks : forall results st,
  let out := fst (executeCollaborativeLoop this tasks results st) in
  ranTo tasks (fst out)
  /\ (sr_success (snd out) = true -> Forall terminal (fst out))
  /\ (retryOnFailure (strategy this) = true -> sr_success (snd out) = true).
Proof.
  induction tasks as [|task rest IH]; intros results st; cbn zeta.
  - cbn. auto with orch.
  - cbn [executeCollaborativeLoop]. rewrite memberProcessTask_selected.
    unfold memberProcessTask.
    destruct (existsb _ roleKeys); unfold_monad;
      repeat match goal with
             | |- context [respond ?w ?h ?c] => destruct (respond w h c) as [?res|?e]
             end;
      try (recursive_call executeCollaborativeLoop IH;
           destruct IH0 as (R & T & S); solve [auto 6 with orch]);
      (destruct (retryOnFailure (strategy this)) eqn:Retry; cbn [negb];
       [ recursive_call executeCollaborativeLoop IH;
         destruct IH0 as (R & T & S); auto 6 with orch
       | cbn; repeat split; auto with orch; discriminate ]).
Qed.

(** ** The hierarchical executor *)

Lemma executeHierarchicalLoop_status this tasks : forall results st,
  let out := fst (executeHierarchicalLoop this tasks results st) in
  ranTo tasks (fst out)
  /\ (forall sr, snd out = Returned sr ->
        (sr_success sr = true -> Forall terminal (fst out))
        /\ (retryOnFailure (strategy this) = true -> sr_success sr = true))
  /\ (leadReturns (world this) -> exists sr, snd out = Returned sr).
Proof.
  induction tasks as [|task rest IH]; intros results st; cbn zeta.
  - cbn. split; [auto with orch|]. split; [|eauto].
    intros sr [= <-]. auto with orch.
  - cbn [executeHierarchicalLoop]. unfold memberProcessTask.
    rewrite selectBestAgent_is_member. unfold_monad.
    destruct (respond _ _ (mkCall Lead _ _)) as [guidance|e] eqn:Hlead.
    + destruct (respond _ _ (mkCall (Member _) _ _)) as [res|e].
      * recursive_call executeHierarchicalLoop IH.
        destruct IH0 as (R & T & L). split; [auto with orch|]. split; [|exact L].
        intros sr Hsr. destruct (T sr Hsr) as [T1 T2].
        split; [intros S; constructor; auto with orch | exact T2].
      * destruct (retryOnFailure (strategy this)) eqn:Retry; cbn [negb].
        -- recursive_call executeHierarchicalLoop IH.
           destruct IH0 as (R & T & L). split; [auto with orch|]. split; [|exact L].
           intros sr Hsr. destruct (T sr Hsr) as [T1 T2].
           split; [intros S; constructor; auto with orch | exact T2].
        -- cbn. split; [auto with orch|]. split; [|eauto].
           intros sr [= <-]. cbn. split; discriminate.
    + cbn. split; [auto with orch|]. split; [discriminate|].
      intros HL. destruct (HL (history st) (guidancePrompt task (selectBestAgent task))
                              guidanceOptions) as [r Hr].
      congruence.
Qed.


Lemma startedTasks_app a b :
  startedTasks (a ++ b) = startedTasks a ++ startedTasks b.
Proof. unfold startedTasks. now rewrite filter_app, map_app. Qed.

Lemma startedTasks_started ts d who :
  startedTasks [mkEntry ts ("Task started: " ++ d) who] = [d].
Proof. reflexivity. Qed.

Lemma startedTasks_guidance ts d who :
  startedTasks [mkEntry ts ("Guidance provided for: " ++ d) who] = [].
Proof. reflexivity. Qed.

Lemma startedTasks_completed ts d who :
  startedTasks [mkEntry ts ("Task completed: " ++ d) who] = [].
Proof. reflexivity. Qed.

Lemma startedTasks_failed ts d who :
  startedTasks [mkEntry ts ("Task failed: " ++ d) who] = [].
Proof. reflexivity. Qed.

Ltac started_simpl :=
  repeat rewrite startedTasks_app;
  repeat rewrite ?startedTasks_started, ?startedTasks_guidance,
                 ?startedTasks_completed, ?startedTasks_failed;
  repeat rewrite ?app_nil_r, <- ?app_assoc; cbn [app].

Lemma executeHierarchicalLoop_started this tasks : forall results st,
  exists k,
    (k <= length tasks)%nat
    /\ startedTasks (timeline (snd (executeHierarchicalLoop this tasks results st)))
       = startedTasks (timeline st) ++ map description (firstn k tasks)
    /\ (forall sr,
          snd (fst (executeHierarchicalLoop this tasks results st)) = Returned sr ->
          sr_success sr = true -> k = length tasks).
Proof.
  induction tasks as [|task rest IH]; intros results st.
  - exists 0%nat. cbn. rewrite app_nil_r. auto.
  - cbn [executeHierarchicalLoop]. unfold memberProcessTask.
    rewrite selectBestAgent_is_member. unfold_monad.
    destruct (respond _ _ (mkCall Lead _ _)) as [guidance|e].
    + destruct (respond _ _ (mkCall (Member _) _ _)) as [res|e].
      * match goal with
        | |- context [executeHierarchicalLoop this rest ?r ?s] =>
            destruct (IH r s) as (k & Hk & Hs & Hall);
            destruct (executeHierarchicalLoop this rest r s) as [[? ?] ?]
        end.
        cbn [fst snd timeline agentContributions history] in *.
        exists (S k). split; [cbn; lia|]. split.
        -- rewrite Hs. started_simpl. reflexivity.
        -- intros sr Hsr S. cbn. f_equal. eauto.
      * destruct (retryOnFailure (strategy this)); cbn [negb].
        -- match goal with
           | |- context [executeHierarchicalLoop this rest ?r ?s] =>
               destruct (IH r s) as (k & Hk & Hs & Hall);
               destruct (executeHierarchicalLoop this rest r s) as [[? ?] ?]
           end.
           cbn [fst snd timeline agentContributions history] in *.
        exists (S k). split; [cbn; lia|]. split.
           ++ rewrite Hs. started_simpl. reflexivity.
           ++ intros sr Hsr S. cbn. f_equal. eauto.
        -- exists 1%nat. cbn [fst snd timeline]. split; [cbn; lia|]. split.
           ++ started_simpl. reflexivity.
           ++ intros sr [= <-]. cbn. discriminate.
    + exists 0%nat. cbn. rewrite app_nil_r. split; [lia|]. split; [reflexivity|].
      discriminate.
Qed.

(** ** [Array.prototype.sort] by key *)

Section SortBy.
Context {A : Type} (key : A -> Z).

Lemma insertBy_perm x l : Permutation (x :: l) (Js.insertBy key x l).
Proof.
  induction l as [|y r IH]; cbn; [reflexivity|].
  destruct (key x - key y <=? 0)%Z; [reflexivity|].
  rewrite perm_swap. now constructor.
Qed.

Lemma sortBy_perm l : Permutation l (Js.sortBy key l).
Proof.
  induction l as [|x l IH]; cbn; [constructor|].
  rewrite <- insertBy_perm. now constructor.
Qed.

Lemma insertBy_sorted x l :
  StronglySorted (keyLe key) l -> StronglySorted (keyLe key) (Js.insertBy key x l).
Proof.
  induction 1 as [|y r Hs IH Hy]; cbn.
  - repeat constructor.
  - destruct (key x - key y <=? 0)%Z eqn:E.
    + apply Z.leb_le in E. constructor; [now constructor|].
      constructor; [unfold keyLe; lia|].
      eapply Forall_impl; [|exact Hy]. unfold keyLe. intros; lia.
    + apply Z.leb_gt in E. constructor; [exact IH|].
      eapply Permutation_Forall; [apply insertBy_perm|].
      constructor; [unfold keyLe; lia | exact Hy].
Qed.

Lemma sortBy_sorted l : StronglySorted (keyLe key) (Js.sortBy key l).
Proof.
  induction l as [|x l IH]; cbn; [constructor | now apply insertBy_sorted].
Qed.

Lemma insertBy_filter k x l :
  filter (fun a => key a =? k)%Z (Js.insertBy key x l)
  = filter (fun a => key a =? k)%Z (x :: l).
Proof.
  induction l as [|y r IH]; cbn; [reflexivity|].
  destruct (key x - key y <=? 0)%Z eqn:E; [reflexivity|].
  apply Z.leb_gt in E. cbn. rewrite IH. cbn.
  destruct (key x =? k)%Z eqn:Ex, (key y =? k)%Z eqn:Ey; try reflexivity.
  apply Z.eqb_eq in Ex, Ey. lia.
Qed.

(** Stability: the elements of one key keep their order. *)
Lemma sortBy_stable k l :
  filter (fun a => key a =? k)%Z (Js.sortBy key l)
  = filter (fun a => key a =? k)%Z l.
Proof.
  unfold Js.sortBy.
  induction l as [|x l IH]; cbn [fold_right]; [reflexivity|].
  rewrite insertBy_filter. cbn [filter]. now rewrite IH.
Qed.
End SortBy.


(** ** One batch of the parallel executor *)

Lemma removeNth_perm {A} (d : A) k : forall l,
  (k < length l)%nat -> Permutation (nth k l d :: removeNth k l) l.
Proof.
  induction k as [|k IH]; intros [|x l] Hk; cbn in *; try lia.
  - reflexivity.
  - rewrite perm_swap. constructor. apply IH. lia.
Qed.

Lemma removeNth_length {A} k : forall l : list A,
  (k < length l)%nat -> length (removeNth k l) = pred (length l).
Proof.
  induction k as [|k IH]; intros [|x l] Hk; cbn in *; try lia.
  rewrite IH by lia. lia.
Qed.

Lemma settleOrder_perm {A} choose n : forall waiting : list A,
  (length waiting <= n)%nat -> Permutation (settleOrder choose n waiting) waiting.
Proof.
  induction n as [|n IH]; intros [|x l] Hn; cbn [settleOrder]; try reflexivity.
  - cbn in Hn. lia.
  - set (w := x :: l) in *.
    assert (Hk : (choose (length w) mod length w < length w)%nat)
      by (apply Nat.mod_upper_bound; subst w; cbn; lia).
    rewrite IH.
    + apply removeNth_perm. exact Hk.
    + rewrite removeNth_length by exact Hk. lia.
Qed.

Lemma dispatchAll_spec this batch : forall st,
  let fs := fst (dispatchAll this batch st) in
  let st' := snd (dispatchAll this batch st) in
  Forall2 dispatched batch fs
  /\ map event (timeline st') = map event (timeline st) ++ map startedEvent batch
  /\ history st' = history st ++ map workerCall batch
  /\ agentContributions st' = agentContributions st.
Proof.
  induction batch as [|task rest IH]; intros st; cbn zeta.
  - cbn. rewrite !app_nil_r. auto.
  - cbn [dispatchAll]. unfold dispatch. rewrite memberProcessTask_selected.
    unfold_monad.
    match goal with
    | |- context [dispatchAll this rest ?s] =>
        destruct (IH s) as (D & T & H & C);
        destruct (dispatchAll this rest s) as [fs st']
    end.
    cbn [fst snd timeline agentContributions history] in *.
    split; [|split; [|split]].
    + constructor; [|exact D]. repeat split.
    + rewrite T, map_app, <- app_assoc. reflexivity.
    + rewrite H, <- app_assoc. reflexivity.
    + exact C.
Qed.

Lemma finishedEvent_settleTask now f :
  finishedEvent (settleTask now f)
  = match f_outcome f with
    | Returned _ => ("Task completed: " ++ description (f_task f))%string
    | Threw _ => ("Task failed: " ++ description (f_task f))%string
    end.
Proof. unfold settleTask. now destruct (f_outcome f). Qed.

Lemma settleAll_spec this now fs : forall st,
  let st' := snd (settleAll this fs st) in
  map event (timeline st')
  = map event (timeline st) ++ map (fun f => finishedEvent (settleTask now f)) fs
  /\ history st' = history st.
Proof.
  induction fs as [|f rest IH]; intros st; cbn zeta.
  - cbn. now rewrite app_nil_r.
  - cbn [settleAll map]. rewrite finishedEvent_settleTask.
    unfold settleShared.
    destruct (f_outcome f); unfold_monad;
      match goal with
      | |- context [settleAll this rest ?s] =>
          destruct (IH s) as (T & H);
          destruct (settleAll this rest s) as [u st']
      end;
      cbn [fst snd timeline agentContributions history] in *;
      rewrite T, H, map_app, <- app_assoc; auto.
Qed.

Lemma settleTask_terminal now f : terminal (settleTask now f).
Proof. unfold settleTask. now destruct (f_outcome f). Qed.

Lemma settled_settles now batch fs :
  Forall2 dispatched batch fs -> settles batch (map (settleTask now) fs).
Proof.
  unfold settles. induction 1 as [|t f batch fs (Ha & Hi & Hd & Hg) _ IH]; cbn.
  - repeat split; constructor.
  - destruct IH as (I1 & I2 & I3 & I4).
    assert (E : id (settleTask now f) = id t
                /\ description (settleTask now f) = description t
                /\ assignedAgent (settleTask now f) = Some (selectBestAgent t)).
    { unfold settleTask. destruct (f_outcome f); cbn; auto. }
    destruct E as (E1 & E2 & E3).
    rewrite E1, E2, E3, I1, I2, I3. repeat split.
    constructor; [apply settleTask_terminal | exact I4].
Qed.

(** What a batch does: every task of the batch is started, then every one
    of them ends, in some order; the tasks come back terminal. *)
Lemma runBatch_spec this batch st :
  let settled := snd (fst (runBatch this batch st)) in
  let st' := snd (runBatch this batch st) in
  settles batch settled
  /\ length settled = length batch
  /\ (exists ends,
        map event (timeline st')
        = map event (timeline st) ++ map startedEvent batch ++ ends
        /\ Permutation ends (map finishedEvent settled))
  /\ history st' = history st ++ map workerCall batch.
Proof.
  cbn zeta. unfold runBatch, bind.
  destruct (dispatchAll_spec this batch st) as (D & T & H & C).
  destruct (dispatchAll this batch st) as [fs st1].
  cbn [fst snd] in *.
  set (now := clock (world this) (history st1)).
  set (order := settleOrder _ _ fs).
  destruct (settleAll_spec this now order st1) as (T2 & H2).
  destruct (settleAll this order st1) as [u st2].
  cbn [fst snd] in *.
  split; [now apply settled_settles|].
  split; [rewrite length_map; symmetry; eapply Forall2_length; eauto|].
  split.
  - eexists. split.
    + rewrite T2, T, <- app_assoc. reflexivity.
    + rewrite <- (map_map (settleTask now) finishedEvent).
      do 2 apply Permutation_map.
      apply settleOrder_perm. lia.
  - now rewrite H2, H.
Qed.


Lemma runBatch_flights this batch st :
  exists now,
    snd (fst (runBatch this batch st))
    = map (settleTask now) (fst (fst (runBatch this batch st))).
Proof.
  unfold runBatch, bind.
  destruct (dispatchAll this batch st) as [fs st1].
  destruct (settleAll this _ st1) as [u st2]. cbn. eauto.
Qed.

Lemma collectBatch_retry fs : forall results,
  snd (collectBatch true fs results) = false.
Proof.
  induction fs as [|f fs IH]; intros results; cbn; [reflexivity|].
  destruct (f_outcome f); apply IH.
Qed.

Lemma collectBatch_abort now fs : forall results,
  snd (collectBatch false fs results)
  = negb (forallb (fun t => isCompleted (status t)) (map (settleTask now) fs)).
Proof.
  induction fs as [|f fs IH]; intros results; cbn; [reflexivity|].
  unfold settleTask at 1. destruct (f_outcome f); cbn; [apply IH | reflexivity].
Qed.

(** ** Batches *)

Lemma chunksOf_enough {A} (n : nat) : forall fuel fuel' (l : list A),
  (1 <= n)%nat -> (length l <= fuel)%nat -> (length l <= fuel')%nat ->
  chunksOf fuel n l = chunksOf fuel' n l.
Proof.
  induction fuel as [|fuel IH]; intros [|fuel'] [|x l] Hn H1 H2;
    cbn in *; try reflexivity; try lia.
  f_equal. destruct n as [|n]; [lia|]. cbn.
  apply IH; try lia; rewrite length_skipn; lia.
Qed.

Lemma chunks_cons {A} (n : nat) (l : list A) :
  (1 <= n)%nat -> l <> [] ->
  chunks n l = firstn n l :: chunks n (skipn n l).
Proof.
  intros Hn Hl. unfold chunks. destruct l as [|x l]; [congruence|].
  cbn [length chunksOf]. f_equal.
  apply chunksOf_enough; try lia.
  rewrite length_skipn. cbn [length]. lia.
Qed.

Lemma chunks_concat {A} (n : nat) : forall (l : list A),
  (1 <= n)%nat -> concat (chunks n l) = l.
Proof.
  intros l Hn. remember (length l) as m eqn:Hm.
  revert l Hm. induction m as [m IH] using lt_wf_ind. intros l Hm.
  destruct l as [|x l]; [reflexivity|].
  rewrite chunks_cons by (auto; discriminate). cbn [concat].
  rewrite (IH (length (skipn n (x :: l)))); auto.
  - apply firstn_skipn.
  - subst m. rewrite length_skipn. cbn [length]. lia.
Qed.

Lemma chunks_sizes {A} (n : nat) : forall (l : list A),
  (1 <= n)%nat ->
  Forall (fun b => 1 <= length b <= n)%nat (chunks n l)
  /\ Forall (fun b => length b = n) (removelast (chunks n l)).
Proof.
  intros l Hn. remember (length l) as m eqn:Hm.
  revert l Hm. induction m as [m IH] using lt_wf_ind. intros l Hm.
  destruct l as [|x l]; [split; constructor|].
  rewrite chunks_cons by (auto; discriminate).
  destruct (IH (length (skipn n (x :: l)))) with (l := skipn n (x :: l))
    as [I1 I2]; auto.
  { subst m. rewrite length_skipn. cbn [length]. lia. }
  split.
  - constructor; [|exact I1]. rewrite length_firstn. cbn [length]. lia.
  - cbn [removelast].
    destruct (chunks n (skipn n (x :: l))) as [|b bs] eqn:E; [constructor|].
    constructor; [|exact I2].
    rewrite length_firstn. apply Nat.min_l.
    destruct (Nat.le_gt_cases n (length (x :: l))) as [|Hlt]; [assumption|].
    rewrite skipn_all2 in E by lia. discriminate.
Qed.


Lemma settles_started batch settled :
  settles batch settled -> map startedEvent settled = map startedEvent batch.
Proof.
  intros (_ & D & _).
  change startedEvent with (fun t => String.append "Task started: " (description t)).
  rewrite <- !(map_map description (String.append "Task started: ")).
  now rewrite D.
Qed.

(** What a run over batches does. *)
Lemma runBatches_spec this batches : forall results st,
  let out := fst (runBatches this batches results st) in
  let st' := snd (runBatches this batches results st) in
  Forall2 settles (firstn (length (fst out)) batches) (fst out)
  /\ (length (fst out) <= length batches)%nat
  /\ (exists trace,
        map event (timeline st') = map event (timeline st) ++ trace
        /\ barrierTrace (fst out) trace)
  /\ history st'
     = history st
       ++ concat (map (map workerCall) (firstn (length (fst out)) batches))
  /\ (sr_success (snd out) = true -> length (fst out) = length batches)
  /\ (retryOnFailure (strategy this) = true -> sr_success (snd out) = true)
  /\ (retryOnFailure (strategy this) = false ->
      sr_success (snd out) = forallb allCompleted (fst out)).
Proof.
  induction batches as [|batch rest IH]; intros results st; cbn zeta.
  - cbn. rewrite !app_nil_r. repeat split; auto.
    exists []. rewrite app_nil_r. split; [reflexivity | constructor].
  - cbn [runBatches]. unfold bind.
    destruct (runBatch_spec this batch st) as (S & L & (ends & T & P) & H).
    destruct (runBatch_flights this batch st) as (now & F).
    pose proof (settles_started _ _ S) as SE.
    destruct (runBatch this batch st) as [[fs settled] st1].
    cbn [fst snd] in *.
    destruct (retryOnFailure (strategy this)) eqn:Retry;
      [ pose proof (collectBatch_retry fs results) as CR
      | pose proof (collectBatch_abort now fs results) as CA;
        rewrite <- F in CA; fold (allCompleted settled) in CA ];
      destruct (collectBatch _ fs results) as [results' aborted];
      cbn [fst snd] in *.
    + subst aborted.
      destruct (IH results' st1) as (I1 & I2 & (trace & I3 & I4) & I5 & I6 & I7 & I8).
      destruct (runBatches this rest results' st1) as [[sb sr] st2].
      unfold ret; cbn [fst snd length firstn map concat] in *.
      split; [constructor; assumption|]. split; [lia|]. split.
      { exists (map startedEvent settled ++ ends ++ trace). split.
        - rewrite I3, T, SE. now rewrite <- !app_assoc.
        - constructor; assumption. }
      split; [rewrite I5, H; now rewrite <- app_assoc|].
      split; [intros E; f_equal; auto|]. split; [auto | discriminate].
    + destruct aborted.
      * unfold ret; cbn [fst snd length firstn map concat].
        split; [constructor; [assumption | constructor]|]. split; [lia|]. split.
        { exists (map startedEvent settled ++ ends ++ []). split.
          - now rewrite app_nil_r, SE.
          - constructor; [assumption | constructor]. }
        rewrite app_nil_r. split; [assumption|].
        split; [discriminate|]. split; [discriminate|].
        intros _. cbn. symmetry in CA. apply negb_true_iff in CA. now rewrite CA.
      * destruct (IH results' st1) as (I1 & I2 & (trace & I3 & I4) & I5 & I6 & I7 & I8).
        destruct (runBatches this rest results' st1) as [[sb sr] st2].
        unfold ret; cbn [fst snd length firstn map concat] in *.
        split; [constructor; assumption|]. split; [lia|]. split.
        { exists (map startedEvent settled ++ ends ++ trace). split.
          - rewrite I3, T, SE. now rewrite <- !app_assoc.
          - constructor; assumption. }
        split; [rewrite I5, H; now rewrite <- app_assoc|].
        split; [intros E; f_equal; auto|]. split; [discriminate|].
        intros _. cbn. symmetry in CA. apply negb_false_iff in CA. rewrite CA. auto.
Qed.

(** ** The loop of the parallel executor *)

Lemma slice_chunk {A} (done todo : list A) (mc : Z) :
  (1 <= mc)%Z -> todo <> [] ->
  Js.slice (done ++ todo) (Z.of_nat (length done)) (Z.of_nat (length done) + mc)
  = firstn (Z.to_nat mc) todo
  /\ Z.to_nat (Js.relIndex (Z.of_nat (length (done ++ todo)))
                           (Z.of_nat (length done))) = length done.
Proof.
  intros Hmc Htodo. unfold Js.slice, Js.relIndex.
  rewrite length_app.
  destruct (Z.of_nat (length done) <? 0)%Z eqn:E1; [apply Z.ltb_lt in E1; lia|].
  destruct (Z.of_nat (length done) + mc <? 0)%Z eqn:E2; [apply Z.ltb_lt in E2; lia|].
  assert (F : Z.min (Z.of_nat (length done)) (Z.of_nat (length done + length todo))
              = Z.of_nat (length done)) by lia.
  rewrite F, Nat2Z.id. split; [|reflexivity].
  rewrite skipn_app, skipn_all, Nat.sub_diag. cbn [app skipn].
  destruct (Z.le_gt_cases (Z.of_nat (length todo)) mc) as [Hle|Hgt].
  - replace (Z.to_nat _) with (length todo) by lia.
    rewrite firstn_all. symmetry. apply firstn_all2. lia.
  - f_equal. lia.
Qed.

Lemma writeBack_chunk (done todo batch' : list Task) (n : nat) :
  length batch' = length (firstn n todo) ->
  writeBack (done ++ todo) (length done) batch'
  = done ++ batch' ++ skipn n todo.
Proof.
  intros L. unfold writeBack.
  rewrite firstn_app, firstn_all, Nat.sub_diag. cbn [firstn]. rewrite app_nil_r.
  rewrite skipn_app. 
  rewrite (skipn_all2 done) by lia. cbn [app].
  replace (length done + length batch' - length done)%nat with (length batch') by lia.
  rewrite L, length_firstn. do 2 f_equal.
  destruct (Nat.le_gt_cases n (length todo)).
  - now rewrite Nat.min_l.
  - rewrite Nat.min_r by lia. rewrite !skipn_all2; auto; lia.
Qed.

Lemma settles_length batch settled :
  settles batch settled -> length settled = length batch.
Proof.
  intros (E & _). apply (f_equal (@length _)) in E.
  now rewrite !length_map in E.
Qed.

(** With [maxConcurrency >= 1] the loop ends, and it is the run over the
    batches of the tasks not yet reached. *)
Lemma executeParallelLoop_runBatches this fuel :
  forall i done todo results st,
  (1 <= maxConcurrency (strategy this))%Z ->
  (Z.of_nat (length done) <= i)%Z ->
  (todo <> [] -> i = Z.of_nat (length done)) ->
  (length todo < fuel)%nat ->
  let r := runBatches this (chunks (Z.to_nat (maxConcurrency (strategy this))) todo)
                      results st in
  executeParallelLoop this fuel i (done ++ todo) results st
  = (Some (done ++ concat (fst (fst r))
                ++ skipn (length (concat (fst (fst r)))) todo,
           snd (fst r)),
     snd r).
Proof.
  induction fuel as [|fuel IH]; intros i done todo results st Hmc Hi Hdone Hfuel;
    [lia|]. cbn zeta. cbn [executeParallelLoop].
  set (n := Z.to_nat (maxConcurrency (strategy this))).
  assert (Hn : (1 <= n)%nat) by (subst n; lia).
  destruct todo as [|t todo'].
  - rewrite app_nil_r in *.
    destruct (i <? Z.of_nat (length done))%Z eqn:E; [apply Z.ltb_lt in E; lia|].
    cbn. now rewrite !app_nil_r.
  - set (todo := t :: todo') in *.
    assert (Hne : todo <> []) by discriminate.
    rewrite (Hdone Hne) in *.
    destruct (Z.of_nat (length done) <? Z.of_nat (length (done ++ todo)))%Z eqn:E.
    2:{ apply Z.ltb_ge in E. rewrite length_app in E. subst todo. cbn in E. lia. }
    destruct (slice_chunk done todo _ Hmc Hne) as [Sl Fr].
    rewrite Sl, Fr. fold n.
    rewrite (chunks_cons n todo Hn Hne). cbn [runBatches]. unfold bind.
    destruct (runBatch_spec this (firstn n todo) st) as (S & L & _ & _).
    destruct (runBatch this (firstn n todo) st) as [[fs settled] st1].
    cbn [fst snd] in *.
    rewrite (writeBack_chunk done todo settled n L).
    destruct (collectBatch _ fs results) as [results' aborted].
    assert (Hskip : skipn (length settled) todo = skipn n todo).
    { rewrite L, length_firstn.
      destruct (Nat.le_gt_cases n (length todo)).
      - now rewrite Nat.min_l.
      - rewrite Nat.min_r by lia. rewrite !skipn_all2; auto; lia. }
    destruct aborted.
    + cbn [ret fst snd concat]. rewrite !app_nil_r. now rewrite Hskip.
    + rewrite app_assoc.
      rewrite (IH _ (done ++ settled) (skipn n todo) results' st1); auto.
      * cbn zeta.
        destruct (runBatches this _ results' st1) as [[sb sr] st2].
        cbn [ret fst snd concat]. rewrite length_app, <- Hskip.
        rewrite skipn_skipn, (Nat.add_comm (length (concat sb))), <- !app_assoc.
        reflexivity.
      * rewrite length_app, L, length_firstn. lia.
      * intros Hrest. rewrite length_app, L, length_firstn.
        assert (n < length todo)%nat.
        { destruct (Nat.le_gt_cases (length todo) n); [|assumption].
          rewrite skipn_all2 in Hrest by assumption. congruence. }
        lia.
      * rewrite length_skipn. subst todo. cbn [length] in *. lia.
Qed.


Lemma terminal_notInProgress t : terminal t -> notInProgress t.
Proof.
  unfold terminal, notInProgress. destruct (status t); cbn; congruence.
Qed.

Lemma Forall_firstn {A} (P : A -> Prop) n : forall l,
  Forall P l -> Forall P (firstn n l).
Proof.
  induction n as [|n IH]; intros l H; [constructor|].
  destruct H; cbn; constructor; auto.
Qed.

Lemma Forall_skipn {A} (P : A -> Prop) n : forall l,
  Forall P l -> Forall P (skipn n l).
Proof.
  induction n as [|n IH]; intros l H; [exact H|].
  destruct H; cbn; [constructor | auto].
Qed.

Lemma writeBack_Forall (P : Task -> Prop) tasks from batch :
  Forall P tasks -> Forall P batch -> Forall P (writeBack tasks from batch).
Proof.
  intros Ht Hb. unfold writeBack. rewrite !Forall_app.
  repeat split; auto using Forall_firstn, Forall_skipn.
Qed.

Lemma slice_length {A} (l : list A) s e :
  (Z.to_nat (Js.relIndex (Z.of_nat (length l)) s) <= length l)%nat
  /\ (length (Js.slice l s e)
      <= length l - Z.to_nat (Js.relIndex (Z.of_nat (length l)) s))%nat.
Proof.
  unfold Js.slice. rewrite length_firstn, length_skipn.
  split; [|apply Nat.le_min_r].
  unfold Js.relIndex.
  destruct (s <? 0)%Z eqn:E; [apply Z.ltb_lt in E | apply Z.ltb_ge in E]; lia.
Qed.

Lemma writeBack_length tasks from batch :
  (from <= length tasks)%nat -> (length batch <= length tasks - from)%nat ->
  length (writeBack tasks from batch) = length tasks.
Proof.
  intros. unfold writeBack.
  rewrite !length_app, length_firstn, length_skipn. lia.
Qed.

(** The state of the loop after one batch. *)
Lemma executeParallelLoop_step this fuel i tasks results st :
  (i <? Z.of_nat (length tasks))%Z = true ->
  exists tasks' results' aborted st1,
    length tasks' = length tasks
    /\ (forall P : Task -> Prop,
          (forall t, terminal t -> P t) -> Forall P tasks -> Forall P tasks')
    /\ (retryOnFailure (strategy this) = true -> aborted = false)
    /\ executeParallelLoop this (S fuel) i tasks results st
       = if aborted : bool then (Some (tasks', mkSR false results' None), st1)
         else executeParallelLoop this fuel (i + maxConcurrency (strategy this))
                                  tasks' results' st1.
Proof.
  intros Hi. cbn [executeParallelLoop]. rewrite Hi. unfold bind.
  set (batch := Js.slice tasks i _).
  destruct (runBatch_spec this batch st) as ((_ & _ & _ & St) & L & _ & _).
  destruct (runBatch this batch st) as [[fs settled] st1]. cbn [fst snd] in *.
  destruct (slice_length tasks i (i + maxConcurrency (strategy this))) as [S1 S2].
  fold batch in S2.
  exists (writeBack tasks (Z.to_nat (Js.relIndex (Z.of_nat (length tasks)) i)) settled).
  destruct (retryOnFailure (strategy this));
    [ pose proof (collectBatch_retry fs results) as CR | ];
    destruct (collectBatch _ fs results) as [results' aborted];
    exists results', aborted, st1; cbn [snd] in *;
    (split; [apply writeBack_length; lia|]);
    (split; [intros P HP Hall; apply writeBack_Forall; auto;
             eapply Forall_impl; [exact HP | exact St]|]);
    (split; [auto; discriminate|]);
    destruct aborted; reflexivity.
Qed.

Lemma executeParallelLoop_done this fuel i tasks results st :
  (i <? Z.of_nat (length tasks))%Z = false ->
  executeParallelLoop this (S fuel) i tasks results st
  = (Some (tasks, mkSR true results None), st).
Proof. intros Hi. cbn [executeParallelLoop]. now rewrite Hi. Qed.

Lemma executeParallelLoop_mono this fuel : forall i tasks results st out st',
  executeParallelLoop this fuel i tasks results st = (Some out, st') ->
  executeParallelLoop this (S fuel) i tasks results st = (Some out, st').
Proof.
  induction fuel as [|fuel IH]; intros i tasks results st out st' E;
    [discriminate|].
  destruct (i <? Z.of_nat (length tasks))%Z eqn:Hi.
  - destruct (executeParallelLoop_step this fuel i tasks results st Hi)
      as (t1 & r1 & a1 & s1 & _ & _ & _ & E1).
    destruct (executeParallelLoop_step this (S fuel) i tasks results st Hi)
      as (t2 & r2 & a2 & s2 & _ & _ & _ & E2).
    cbn [executeParallelLoop] in E, E1, E2 |- *. rewrite Hi in *.
    unfold bind in *.
    destruct (runBatch this _ st) as [[fs settled] st1].
    destruct (collectBatch _ _ results) as [results' aborted].
    destruct aborted; [exact E|]. apply IH in E. exact E.
  - rewrite executeParallelLoop_done in * by assumption. exact E.
Qed.

Lemma executeParallelLoop_more this fuel fuel' i tasks results st out st' :
  (fuel <= fuel')%nat ->
  executeParallelLoop this fuel i tasks results st = (Some out, st') ->
  executeParallelLoop this fuel' i tasks results st = (Some out, st').
Proof.
  induction 1; auto using executeParallelLoop_mono.
Qed.

Lemma executeParallelLoop_invariant this (P : Task -> Prop) fuel :
  (forall t, terminal t -> P t) ->
  forall i tasks results st out st',
  Forall P tasks ->
  executeParallelLoop this fuel i tasks results st = (Some out, st') ->
  Forall P (fst out)
  /\ (retryOnFailure (strategy this) = true -> sr_success (snd out) = true).
Proof.
  intros HP. induction fuel as [|fuel IH]; intros i tasks results st out st' Hall E;
    [discriminate|].
  destruct (i <? Z.of_nat (length tasks))%Z eqn:Hi.
  - destruct (executeParallelLoop_step this fuel i tasks results st Hi)
      as (t1 & r1 & a1 & s1 & _ & F & R & E1).
    rewrite E1 in E. destruct a1.
    + injection E as <- <-. cbn. split; [auto|].
      intros Retry. specialize (R Retry). discriminate.
    + eapply IH; [|exact E]. auto.
  - rewrite executeParallelLoop_done in E by assumption.
    injection E as <- <-. cbn. auto.
Qed.

(** With [maxConcurrency <= 0] the index never reaches the end of a
    non-empty array: the loop can only leave through an abort. *)
Lemma executeParallelLoop_stuck this fuel :
  (maxConcurrency (strategy this) <= 0)%Z ->
  forall i tasks results st out st',
  (i <= 0)%Z -> (0 < length tasks)%nat ->
  executeParallelLoop this fuel i tasks results st = (Some out, st') ->
  sr_success (snd out) = false.
Proof.
  intros Hmc. induction fuel as [|fuel IH];
    intros i tasks results st out st' Hi Hlen E; [discriminate|].
  assert (Hlt : (i <? Z.of_nat (length tasks))%Z = true) by (apply Z.ltb_lt; lia).
  destruct (executeParallelLoop_step this fuel i tasks results st Hlt)
    as (t1 & r1 & a1 & s1 & L & _ & _ & E1).
  rewrite E1 in E. destruct a1.
  - injection E as <- <-. reflexivity.
  - eapply IH; [| |exact E]; lia.
Qed.


Lemma pushCurrent_pending tasks currentTask :
  Forall isPending tasks -> Forall isPending (pushCurrent tasks currentTask).
Proof.
  intros H. unfold pushCurrent.
  destruct (pt_description currentTask) as [d|]; [|exact H].
  destruct (Js.truthy d); [|exact H].
  apply Forall_app. split; [exact H|]. repeat constructor.
Qed.

Lemma parseLines_pending lines : forall tasks currentTask,
  Forall isPending tasks ->
  Forall isPending (fst (fold_left parseLine lines (tasks, currentTask))).
Proof.
  induction lines as [|line lines IH]; intros tasks currentTask H;
    cbn [fold_left]; [exact H|].
  unfold parseLine at 2.
  destruct (isTaskStart _); [apply IH, pushCurrent_pending, H|].
  destruct (Js.startsWith _ "Priority:"); [apply IH, H|].
  destruct (Js.startsWith _ "Depends on:"); apply IH, H.
Qed.

Lemma parseTaskBreakdown_pending analysisResult originalDescription :
  Forall isPending (parseTaskBreakdown analysisResult originalDescription).
Proof.
  unfold parseTaskBreakdown.
  pose proof (parseLines_pending (Js.split "010"%char analysisResult) []
                (mkPartial None None None) (Forall_nil _)) as H.
  destruct (fold_left parseLine _ _) as [tasks0 cur]. cbn [fst] in H.
  destruct (0 <? _)%nat; [now apply pushCurrent_pending|].
  repeat constructor.
Qed.

Lemma pending_notInProgress t : isPending t -> notInProgress t.
Proof. unfold isPending, notInProgress. now intros ->. Qed.

(** ** The strategies, side by side *)

Lemma executeParallel_status this fuel tasks st out st' :
  executeParallel this fuel tasks st = (Some out, st') ->
  (Forall notInProgress tasks -> Forall notInProgress (fst out))
  /\ (sr_success (snd out) = true -> Forall terminal (fst out))
  /\ (retryOnFailure (strategy this) = true -> sr_success (snd out) = true).
Proof.
  unfold executeParallel. intros E. split; [|split].
  - intros H.
    eapply (executeParallelLoop_invariant this notInProgress); eauto.
    exact terminal_notInProgress.
  - intros Hok.
    destruct (Z.le_gt_cases 1 (maxConcurrency (strategy this))) as [Hmc|Hmc].
    + apply (executeParallelLoop_more this fuel (fuel + S (length tasks))) in E;
        [|lia].
      pose proof (executeParallelLoop_runBatches this (fuel + S (length tasks))
                    0 [] tasks [] st Hmc) as C.
      cbn [app length] in C. rewrite C in E by (auto; lia). clear C.
      set (n := Z.to_nat (maxConcurrency (strategy this))) in *.
      assert (Hn : (1 <= n)%nat) by (subst n; lia).
      destruct (runBatches_spec this (chunks n tasks) [] st)
        as (F & _ & _ & _ & L & _).
      destruct (runBatches this (chunks n tasks) [] st) as [[sb sr] st2].
      cbn [fst snd] in *. injection E as <- <-. cbn [fst snd] in *.
      specialize (L Hok). rewrite L, firstn_all in F.
      assert (T : Forall terminal (concat sb)).
      { clear -F. induction F as [|b b' bs bs' (_ & _ & _ & T) _ IH]; cbn;
          [constructor | apply Forall_app; auto]. }
      assert (Len : length (concat sb) = length tasks).
      { rewrite <- (chunks_concat n tasks Hn). clear -F.
        induction F as [|b b' bs bs' Hb _ IH]; cbn; [reflexivity|].
        rewrite !length_app, IH, (settles_length _ _ Hb). reflexivity. }
      rewrite skipn_all2 by lia. rewrite app_nil_r. exact T.
    + destruct tasks as [|t tasks].
      * destruct fuel; [discriminate|]. cbn in E. injection E as <- <-. constructor.
      * apply executeParallelLoop_stuck in E; try lia; [congruence | cbn; lia].
  - destruct (executeParallelLoop_invariant this (fun _ => True) fuel
                (fun _ _ => I) 0%Z tasks [] st out st') as [_ R];
      [clear; induction tasks; constructor; auto | exact E | exact R].
Qed.

Lemma sortBy_Forall {A} (key : A -> Z) (P : A -> Prop) l :
  Forall P l -> Forall P (Js.sortBy key l).
Proof. apply Permutation_Forall, sortBy_perm. Qed.

Lemma executeHierarchical_status this tasks st :
  let out := fst (executeHierarchical this tasks st) in
  (Forall notInProgress tasks -> Forall notInProgress (fst out))
  /\ (forall sr, snd out = Returned sr ->
        (sr_success sr = true -> Forall terminal (fst out))
        /\ (retryOnFailure (strategy this) = true -> sr_success sr = true))
  /\ (leadReturns (world this) -> exists sr, snd out = Returned sr).
Proof.
  cbn zeta. unfold executeHierarchical.
  destruct (executeHierarchicalLoop_status this (Js.sortBy priorityRank tasks) [] st)
    as (R & T & L).
  split; [|split; assumption].
  intros H. eapply ranTo_notInProgress; [exact R|]. now apply sortBy_Forall.
Qed.

Lemma runStrategy_status this fuel kind tb st tasks res st' :
  runStrategy this fuel kind tb st = (Some (tasks, Returned res), st') ->
  (Forall notInProgress tb -> Forall notInProgress tasks)
  /\ (sr_success res = true -> Forall terminal tasks)
  /\ (retryOnFailure (strategy this) = true -> sr_success res = true).
Proof.
  destruct kind; cbn [runStrategy]; unfold bind, ret; intros E.
  - pose proof (executeSequentialLoop_status this tb [] st) as (R & T & S).
    unfold executeSequential in E.
    destruct (executeSequentialLoop this tb [] st) as [[t r] s].
    cbn [fst snd] in *. injection E as <- <- <-.
    split; [intros; eapply ranTo_notInProgress; eauto | auto].
  - destruct (executeParallel this fuel tb st) as [[out|] s] eqn:P;
      [|discriminate].
    injection E as <- <- <-.
    exact (executeParallel_status this fuel tb st out s P).
  - pose proof (executeHierarchical_status this tb st) as (R & T & _).
    destruct (executeHierarchical this tb st) as [[t o] s].
    cbn [fst snd] in *. injection E as <- -> <-.
    destruct (T res eq_refl). auto.
  - pose proof (executeCollaborativeLoop_status this tb [] st) as (R & T & S).
    unfold executeCollaborative in E.
    destruct (executeCollaborativeLoop this tb [] st) as [[t r] s].
    cbn [fst snd] in *. injection E as <- <- <-.
    split; [intros; eapply ranTo_notInProgress; eauto | auto].
Qed.

(** ** [orchestrateTask], read backwards from its report *)

Lemma orchestrateTask_returned this fuel d os st report st' :
  orchestrateTask this fuel d os st = (Some (Returned report), st') ->
  exists text st1 res st2,
    runStrategy this fuel (type (effectiveStrategy this os))
                (parseTaskBreakdown text d) st1
    = (Some (taskBreakdown report, Returned res), st2)
    /\ sr_success (report_result report) = sr_success res
    /\ (success report = true -> sr_success res = true)
    /\ (crossValidation (effectiveStrategy this os) = false ->
        success report = sr_success res).
Proof.
  unfold orchestrateTask, analyzeAndBreakdownTask.
  fold (effectiveStrategy this os).
  unfold bind at 1 2 3, pushTimeline at 1, processTask at 1.
  cbn [fst snd timeline agentContributions history].
  destruct (respond _ _ _) as [r|e]; [|discriminate].
  destruct (ar_result r) as [text|]; [|discriminate].
  unfold ret at 1. unfold bind at 1 2, pushTimeline at 1.
  match goal with
  | |- context [runStrategy this fuel ?k ?tb ?s] =>
      destruct (runStrategy this fuel k tb s) as [[[tasks [res|e]]|] st2] eqn:Run
  end; try discriminate.
  destruct (crossValidation (effectiveStrategy this os) && sr_success res) eqn:CV.
  - unfold bind, pushTimeline, crossValidate.
    destruct (memberProcessTask _ _ _ _ _) as [[v|e] st3]; [|discriminate].
    destruct (ar_result v) as [vtext|]; [|discriminate].
    cbn [passed issues]. apply andb_true_iff in CV as [CV1 CV2].
    destruct (negb (verdict vtext)); unfold mkRunReport; intros [= <- <-];
      cbn [taskBreakdown report_result success sr_success];
      (exists text; eexists; exists res; eexists; split; [exact Run|]);
      rewrite CV1; repeat split; auto; discriminate.
  - unfold mkRunReport. intros [= <- <-].
    cbn [taskBreakdown report_result success sr_success].
    exists text; eexists; exists res; eexists. split; [exact Run|]. auto.
Qed.


(** * The claims *)

(** C1, evaluated on the code.  A decomposition whose language-model call
    fails is not recovered: when the lead's [processTask] reports the
    failure (a result without text) [orchestrateTask] throws a [TypeError],
    and when it throws, [orchestrateTask] throws the same error.  No Run
    Report is returned in either case. *)
Theorem decomposition_failure_is_thrown this fuel d os st :
  (forall r,
     respond (world this) (history st) (analysisCall d) = Returned r ->
     ar_result r = None ->
     fst (orchestrateTask this fuel d os st)
     = Some (Threw "Cannot read properties of undefined (reading 'split')"))
  /\ (forall e,
        respond (world this) (history st) (analysisCall d) = Threw e ->
        fst (orchestrateTask this fuel d os st) = Some (Threw e)).
Proof.
  split; intros x Hx; [intros Hr|];
    unfold orchestrateTask, analyzeAndBreakdownTask, bind, pushTimeline,
      processTask; cbn [fst snd history];
    unfold analysisCall in Hx; rewrite Hx; [rewrite Hr|]; reflexivity.
Qed.

Lemma decomposition_failure_is_thrown_witness :
  fst (orchestrateTask brokenLead 1 "Fix typo in README" None emptyStore)
  = Some (Threw "Cannot read properties of undefined (reading 'split')").
Proof.
  apply (proj1 (decomposition_failure_is_thrown brokenLead 1 "Fix typo in README"
                  None emptyStore)
               (failureResult "Anthropic API error: 500 Internal Server Error"));
    reflexivity.
Defined.


(** ** C6 *)

(** C6.  When cross-validation is enabled, the executor reported success
    and the reviewer answers with a text, [orchestrateTask] returns a report
    whose success flag is true exactly when the lower-cased text contains
    "pass" and not "fail"; a text with "fail" in it gives false.  The
    reviewer is the only worker called after the executor, once, and the
    report carries the task list as the executor left it. *)
Theorem cross_validation_verdict this fuel d os st tb st1 tasks res st2 v text :
  analyzeAndBreakdownTask this d (afterPush this "Task analysis started" "lead" st)
  = (Returned tb, st1) ->
  runStrategy this fuel (type (effectiveStrategy this os)) tb
              (afterPush this "Task breakdown completed" "lead" st1)
  = (Some (tasks, Returned res), st2) ->
  crossValidation (effectiveStrategy this os) = true ->
  sr_success res = true ->
  respond (world this) (history st2)
          (reviewCall this res (agentContributions st2)) = Returned v ->
  ar_result v = Some text ->
  exists report st3,
    orchestrateTask this fuel d os st = (Some (Returned report), st3)
    /\ success report
       = (Js.includes (Js.toLowerCase text) "pass"
          && negb (Js.includes (Js.toLowerCase text) "fail"))
    /\ (Js.includes (Js.toLowerCase text) "fail" = true -> success report = false)
    /\ taskBreakdown report = tasks
    /\ history st3
       = history st2 ++ [reviewCall this res (agentContributions st2)].
Proof.
  intros An Run CV Ok Rev Txt.
  unfold orchestrateTask. fold (effectiveStrategy this os).
  unfold bind at 1 2. fold (afterPush this "Task analysis started" "lead" st).
  change (pushTimeline this "Task analysis started" "lead" st)
    with (tt, afterPush this "Task analysis started" "lead" st).
  cbn iota. rewrite An.
  unfold bind at 1 2.
  change (pushTimeline this "Task breakdown completed" "lead" st1)
    with (tt, afterPush this "Task breakdown completed" "lead" st1).
  cbn iota. rewrite Run, CV, Ok. cbn [andb].
  unfold bind, pushTimeline, crossValidate, memberProcessTask, processTask.
  cbn [existsb roleKeys map fst roles String.eqb Ascii.eqb Bool.eqb orb
       fst snd timeline agentContributions history].
  unfold reviewCall in Rev. rewrite Rev, Txt. cbn [passed issues].
  unfold verdict.
  destruct (Js.includes (Js.toLowerCase text) "fail") eqn:Fail;
    destruct (Js.includes (Js.toLowerCase text) "pass") eqn:Pass;
    cbn [andb negb]; unfold mkRunReport; do 2 eexists;
    (split; [reflexivity|]); cbn [success taskBreakdown history];
    repeat split; auto; discriminate.
Qed.


Lemma insertBy_before {A} (key : A -> Z) x y r :
  (key x <= key y)%Z -> Js.insertBy key x (y :: r) = x :: y :: r.
Proof.
  intros H. cbn. destruct (key x - key y <=? 0)%Z eqn:E; [reflexivity|].
  apply Z.leb_gt in E. lia.
Qed.

Lemma insertBy_after {A} (key : A -> Z) x y r :
  (key y < key x)%Z -> Js.insertBy key x (y :: r) = y :: Js.insertBy key x r.
Proof.
  intros H. cbn. destruct (key x - key y <=? 0)%Z eqn:E; [|reflexivity].
  apply Z.leb_le in E. lia.
Qed.

Lemma cross_validation_verdict_witness :
  exists report st3,
    orchestrateTask reviewedRun 1 "Code" None emptyStore
    = (Some (Returned report), st3)
    /\ success report = false
    /\ map status (taskBreakdown report) = [completed].
Proof.
  edestruct (cross_validation_verdict reviewedRun 1 "Code" None emptyStore)
    as (report & st3 & E & _ & F & T & _);
    [reflexivity | reflexivity | reflexivity | reflexivity | reflexivity
    | reflexivity |].
  exists report, st3. split; [exact E|]. split; [apply F; reflexivity|].
  rewrite T. reflexivity.
Defined.

(** ** C7 *)

(** C7.  The Hierarchical strategy sorts the task list by priority rank
    (urgent 0, high 1, medium 2, low 3): the sorted list is a permutation
    of the tasks, ranks never decrease along it, and tasks of one rank keep
    their order.  The tasks are started in that order, all of them when the
    run reports success; priorities low, urgent, medium are run as urgent,
    medium, low. *)
Theorem hierarchical_priority_order this tasks st :
  let sorted := Js.sortBy priorityRank tasks in
  let run := executeHierarchical this tasks st in
  map (Js.indexOf priorityOrder) ["urgent"; "high"; "medium"; "low"]
  = [0; 1; 2; 3]%Z
  /\ Permutation tasks sorted
  /\ StronglySorted (keyLe priorityRank) sorted
  /\ (forall rank,
        filter (fun t => priorityRank t =? rank)%Z sorted
        = filter (fun t => priorityRank t =? rank)%Z tasks)
  /\ (exists k,
        (k <= length tasks)%nat
        /\ startedTasks (timeline (snd run))
           = startedTasks (timeline st) ++ map description (firstn k sorted)
        /\ (forall sr, snd (fst run) = Returned sr -> sr_success sr = true ->
              k = length tasks))
  /\ (forall a b c,
        priority a = "low" -> priority b = "urgent" -> priority c = "medium" ->
        Js.sortBy priorityRank [a; b; c] = [b; c; a]).
Proof.
  cbn zeta. split; [reflexivity|].
  split; [apply sortBy_perm|]. split; [apply sortBy_sorted|].
  split; [intros; apply sortBy_stable|]. split.
  - unfold executeHierarchical.
    destruct (executeHierarchicalLoop_started this (Js.sortBy priorityRank tasks)
                [] st) as (k & Hk & Hs & Hall).
    exists k. rewrite <- (Permutation_length (sortBy_perm priorityRank tasks)) in *.
    auto.
  - intros a b c Ha Hb Hc.
    assert (Ra : priorityRank a = 3%Z) by (unfold priorityRank; now rewrite Ha).
    assert (Rb : priorityRank b = 0%Z) by (unfold priorityRank; now rewrite Hb).
    assert (Rc : priorityRank c = 2%Z) by (unfold priorityRank; now rewrite Hc).
    unfold Js.sortBy. cbn [fold_right].
    change (Js.insertBy priorityRank c []) with [c].
    rewrite (insertBy_before priorityRank b c []) by lia.
    rewrite (insertBy_after priorityRank a b [c]) by lia.
    rewrite (insertBy_after priorityRank a c []) by lia.
    reflexivity.
Qed.

Lemma hierarchical_priority_order_witness :
  Js.sortBy priorityRank mixedPriorities
  = [newTask "task-2" "Patch the outage" "urgent";
     newTask "task-3" "Add the endpoint" "medium";
     newTask "task-1" "Tidy the changelog" "low"]
  /\ startedTasks
       (timeline (snd (executeHierarchical
                         (helpfulTeam (mkStrategy hierarchical 3 true false))
                         mixedPriorities emptyStore)))
     = ["Patch the outage"; "Add the endpoint"; "Tidy the changelog"].
Proof.
  destruct (hierarchical_priority_order
              (helpfulTeam (mkStrategy hierarchical 3 true false))
              mixedPriorities emptyStore) as (_ & _ & _ & _ & (k & _ & Hs & Hk) & Ex).
  split.
  - apply Ex; reflexivity.
  - rewrite Hs. rewrite (Hk (mkSR true
                               [PAgent (answer "done"); PAgent (answer "done");
                                PAgent (answer "done")] None)); reflexivity.
Defined.

(** * Further properties *)

(** * More of the orchestrator *)

(** ** The second agent of the Collaborative strategy *)

Lemma selectSecondaryAgent_is_member task primaryAgent :
  existsb (String.eqb (selectSecondaryAgent task primaryAgent)) roleKeys = true.
Proof.
  unfold selectSecondaryAgent.
  repeat match goal with
         | |- context [if String.eqb primaryAgent ?k then _ else _] =>
             destruct (String.eqb primaryAgent k) eqn:?; try reflexivity
         end.
  cbn [roleKeys roles map fst filter].
  rewrite !(String.eqb_sym _ primaryAgent).
  repeat match goal with H : String.eqb _ _ = false |- _ => rewrite H; clear H end.
  reflexivity.
Qed.

Lemma selectSecondaryAgent_differs task primaryAgent :
  selectSecondaryAgent task primaryAgent <> primaryAgent.
Proof.
  unfold selectSecondaryAgent.
  repeat match goal with
         | |- context [if String.eqb primaryAgent ?k then _ else _] =>
             let E := fresh "E" in
             destruct (String.eqb primaryAgent k) eqn:E;
             [apply String.eqb_eq in E; subst; discriminate|]
         end.
  cbn [roleKeys roles map fst filter].
  rewrite !(String.eqb_sym _ primaryAgent).
  rewrite E0. cbn. intros <-. discriminate.
Qed.

(** X1.  Whatever the primary agent is, the secondary agent is a member of
    the team and is not the primary agent; for the five roles it is the
    reviewer for the developer and the documenter, and the developer for
    the others. *)
Theorem secondary_agent_is_another_member task primaryAgent :
  existsb (String.eqb (selectSecondaryAgent task primaryAgent)) roleKeys = true
  /\ selectSecondaryAgent task primaryAgent <> primaryAgent
  /\ selectSecondaryAgent task (selectBestAgent task)
     = if String.eqb (selectBestAgent task) "developer"
          || String.eqb (selectBestAgent task) "documenter"
       then "reviewer" else "developer".
Proof.
  split; [apply selectSecondaryAgent_is_member|].
  split; [apply selectSecondaryAgent_differs|].
  unfold selectBestAgent.
  generalize (Js.toLowerCase (description task)); intro text.
  repeat match goal with
         | |- context [Js.includes text ?k] => destruct (Js.includes text k); simpl
         end; reflexivity.
Qed.

(** ** What the decomposer returns *)

Lemma taskIds_S n :
  taskIds (S n) = taskIds n ++ [("task-" ++ Js.ofNat (n + 1))%string].
Proof.
  unfold taskIds. rewrite seq_S, map_app. cbn [map].
  now rewrite (Nat.add_comm 1 n).
Qed.

Lemma ofNat_injective n m : Js.ofNat n = Js.ofNat m -> n = m.
Proof.
  unfold Js.ofNat. intros E.
  apply (f_equal NilEmpty.uint_of_string) in E. rewrite !NilEmpty.usu in E.
  injection E as E. apply (f_equal Nat.of_uint) in E.
  now rewrite !DecimalNat.Unsigned.of_to in E.
Qed.

Lemma taskIds_NoDup n : NoDup (taskIds n).
Proof.
  unfold taskIds. apply Finite.Injective_map_NoDup_in; [|apply seq_NoDup].
  intros i j _ _ E. apply ofNat_injective. now injection E.
Qed.

Lemma pushCurrent_numbered tasks currentTask :
  numbered tasks -> numbered (pushCurrent tasks currentTask).
Proof.
  unfold numbered, pushCurrent. intros H.
  destruct (pt_description currentTask) as [d|]; [|exact H].
  destruct (Js.truthy d); [|exact H].
  rewrite map_app, length_app, H. cbn [map length id].
  rewrite Nat.add_1_r at 2. now rewrite taskIds_S.
Qed.

Lemma parseLines_numbered lines : forall tasks currentTask,
  numbered tasks ->
  numbered (fst (fold_left parseLine lines (tasks, currentTask))).
Proof.
  induction lines as [|line lines IH]; intros tasks currentTask H;
    cbn [fold_left]; [exact H|].
  unfold parseLine at 2.
  destruct (isTaskStart _); [apply IH, pushCurrent_numbered, H|].
  destruct (Js.startsWith _ "Priority:"); [apply IH, H|].
  destruct (Js.startsWith _ "Depends on:"); apply IH, H.
Qed.

(** X2.  The tasks of a breakdown are numbered in order, [task-1] to
    [task-n], so no two of them share an id. *)
Theorem parseTaskBreakdown_ids analysisResult originalDescription :
  map id (parseTaskBreakdown analysisResult originalDescription)
  = taskIds (length (parseTaskBreakdown analysisResult originalDescription))
  /\ NoDup (map id (parseTaskBreakdown analysisResult originalDescription)).
Proof.
  assert (N : numbered (parseTaskBreakdown analysisResult originalDescription)).
  { unfold parseTaskBreakdown.
    pose proof (parseLines_numbered (Js.split "010"%char analysisResult) []
                  (mkPartial None None None) eq_refl) as H.
    destruct (fold_left parseLine _ _) as [tasks0 cur]. cbn [fst] in H.
    destruct (0 <? _)%nat; [now apply pushCurrent_numbered | reflexivity]. }
  split; [exact N|]. rewrite N. apply taskIds_NoDup.
Qed.





(** ** The Sequential strategy without retry *)

Lemma executeSequentialLoop_abort this tasks :
  retryOnFailure (strategy this) = false ->
  forall results st,
  let out := fst (executeSequentialLoop this tasks results st) in
  let st' := snd (executeSequentialLoop this tasks results st) in
  map id (fst out) = map id tasks
  /\ (sr_success (snd out) = true ->
      Forall isCompletedTask (fst out)
      /\ history st' = history st ++ map workerCall tasks)
  /\ (sr_success (snd out) = false ->
      exists done t,
        fst out = done ++ t :: skipn (S (length done)) tasks
        /\ Forall isCompletedTask done
        /\ status t = failed
        /\ history st'
           = history st ++ map workerCall (firstn (S (length done)) tasks)).
Proof.
  intros Retry. induction tasks as [|task rest IH]; intros results st; cbn zeta.
  - cbn. rewrite app_nil_r. repeat split; auto; discriminate.
  - cbn [executeSequentialLoop]. rewrite memberProcessTask_selected, Retry.
    unfold_monad. fold (workerCall task).
    destruct (respond _ _ _) as [res|e]; cbn [negb].
    + match goal with
      | |- context [executeSequentialLoop this rest ?r ?s] =>
          destruct (IH r s) as (I & T & F);
          destruct (executeSequentialLoop this rest r s) as [[tasks' sr] st']
      end.
      cbn [fst snd timeline agentContributions history map] in *.
      split; [now rewrite I|]. split.
      * intros S. destruct (T S) as [T1 T2]. split.
        -- constructor; [reflexivity | exact T1].
        -- rewrite T2, <- app_assoc. reflexivity.
      * intros S. destruct (F S) as (done & t & E & C & St & H).
        exists (completeTask (clock (world this) (history st ++ [workerCall task]))
                             (PAgent res)
                             (startTask (clock (world this) (history st))
                                        (selectBestAgent task) task) :: done), t.
        cbn [length app]. split; [rewrite E; reflexivity|].
        split; [constructor; [reflexivity | exact C]|]. split; [exact St|].
        rewrite H, <- app_assoc. reflexivity.
    + cbn [fst snd timeline agentContributions history map].
      split; [reflexivity|]. split; [discriminate|]. intros _.
      exists [], (failTask e (startTask (clock (world this) (history st))
                                        (selectBestAgent task) task)).
      cbn. repeat split; auto.
Qed.

(** X4.  With [retryOnFailure = false] the Sequential strategy stops at the
    first task whose worker throws: the tasks before it are completed, it is
    failed, the tasks behind it are left as they were, and no worker is
    called for them.  When it reports success every task is completed and
    each was given to its worker once, in order. *)
Theorem sequential_stops_at_first_failure this tasks st :
  retryOnFailure (strategy this) = false ->
  let out := fst (executeSequential this tasks st) in
  let st' := snd (executeSequential this tasks st) in
  map id (fst out) = map id tasks
  /\ (sr_success (snd out) = true ->
      Forall isCompletedTask (fst out)
      /\ history st' = history st ++ map workerCall tasks)
  /\ (sr_success (snd out) = false ->
      exists done t,
        fst out = done ++ t :: skipn (S (length done)) tasks
        /\ Forall isCompletedTask done
        /\ status t = failed
        /\ history st'
           = history st ++ map workerCall (firstn (S (length done)) tasks)).
Proof.
  intros Retry. exact (executeSequentialLoop_abort this tasks Retry [] st).
Qed.

Lemma sequential_stops_at_first_failure_witness :
  map status (fst (fst (executeSequential abortingRun threeSteps emptyStore)))
  = [completed; failed; pending]
  /\ exists done t,
       fst (fst (executeSequential abortingRun threeSteps emptyStore))
       = done ++ t :: skipn (S (length done)) threeSteps
       /\ Forall isCompletedTask done
       /\ status t = failed
       /\ history (snd (executeSequential abortingRun threeSteps emptyStore))
          = map workerCall (firstn (S (length done)) threeSteps).
Proof.
  split; [reflexivity|].
  apply (proj2 (proj2 (sequential_stops_at_first_failure abortingRun threeSteps
                         emptyStore eq_refl))).
  reflexivity.
Defined.

(** ** The timeline and the history only grow *)

Lemma extends_refl st : extends st st.
Proof. split; exists []; now rewrite app_nil_r. Qed.

Lemma extends_trans st1 st2 st3 :
  extends st1 st2 -> extends st2 st3 -> extends st1 st3.
Proof.
  intros [[e1 T1] [c1 H1]] [[e2 T2] [c2 H2]]. split.
  - exists (e1 ++ e2). now rewrite T2, T1, app_assoc.
  - exists (c1 ++ c2). now rewrite H2, H1, app_assoc.
Qed.

Lemma grows_ret {A} (a : A) : grows (ret a).
Proof. intros st. apply extends_refl. Qed.

Lemma grows_bind {A B} (c : M A) (k : A -> M B) :
  grows c -> (forall a, grows (k a)) -> grows (bind c k).
Proof.
  intros Hc Hk st. unfold bind. specialize (Hc st).
  destruct (c st) as [a st1]. cbn [snd] in Hc.
  eapply extends_trans; [exact Hc | apply Hk].
Qed.

Lemma grows_pushTimeline this ev who : grows (pushTimeline this ev who).
Proof.
  intros st. split; cbn; [eexists; reflexivity | exists []; now rewrite app_nil_r].
Qed.

Lemma grows_dateNow this : grows (dateNow this).
Proof. intros st. apply extends_refl. Qed.

Lemma grows_contribute who taskId r : grows (contribute who taskId r).
Proof. intros st. split; exists []; cbn; now rewrite app_nil_r. Qed.

Lemma grows_processTask this who p o : grows (processTask this who p o).
Proof.
  intros st. split; cbn; [exists []; now rewrite app_nil_r | eexists; reflexivity].
Qed.

Lemma grows_memberProcessTask this who p o : grows (memberProcessTask this who p o).
Proof.
  unfold memberProcessTask.
  destruct (existsb _ _); [apply grows_processTask | apply grows_ret].
Qed.

Create HintDb grows.
#[local] Hint Resolve grows_ret grows_pushTimeline grows_dateNow grows_contribute
  grows_processTask grows_memberProcessTask : grows.

Ltac grows_step :=
  match goal with
  | |- grows (bind _ _) => apply grows_bind; [|intros ?]
  | |- grows (match ?x with _ => _ end) => destruct x
  | |- grows (if ?b then _ else _) => destruct b
  | |- grows (let _ := _ in _) => cbv zeta
  | |- _ => solve [auto with grows]
  end.

Lemma grows_executeSequentialLoop this tasks : forall results,
  grows (executeSequentialLoop this tasks results).
Proof.
  induction tasks as [|task rest IH]; intros results;
    cbn [executeSequentialLoop]; repeat grows_step.
Qed.

Lemma grows_executeCollaborativeLoop this tasks : forall results,
  grows (executeCollaborativeLoop this tasks results).
Proof.
  induction tasks as [|task rest IH]; intros results;
    cbn [executeCollaborativeLoop]; repeat grows_step.
Qed.

Lemma grows_executeHierarchicalLoop this tasks : forall results,
  grows (executeHierarchicalLoop this tasks results).
Proof.
  induction tasks as [|task rest IH]; intros results;
    cbn [executeHierarchicalLoop]; repeat grows_step.
Qed.

Lemma grows_dispatchAll this batch : grows (dispatchAll this batch).
Proof.
  induction batch as [|task rest IH]; cbn [dispatchAll]; unfold dispatch;
    repeat grows_step.
Qed.

Lemma grows_settleAll this fs : grows (settleAll this fs).
Proof.
  induction fs as [|f rest IH]; cbn [settleAll]; unfold settleShared;
    repeat grows_step.
Qed.

Lemma grows_runBatch this batch : grows (runBatch this batch).
Proof.
  unfold runBatch. apply grows_bind; [apply grows_dispatchAll|].
  intros fs st.
  pose proof (grows_settleAll this
                (settleOrder (pick (world this) (history st)) (length fs) fs) st) as G.
  destruct (settleAll this _ st) as [u st']. exact G.
Qed.

Lemma grows_executeParallelLoop this fuel : forall i tasks results,
  grows (executeParallelLoop this fuel i tasks results).
Proof.
  induction fuel as [|fuel IH]; intros i tasks results;
    cbn [executeParallelLoop]; [apply grows_ret|].
  destruct (i <? _)%Z; [|apply grows_ret]. cbv zeta.
  apply grows_bind; [apply grows_runBatch|]. intros settled.
  destruct (collectBatch _ _ _) as [results' aborted].
  destruct aborted; [apply grows_ret | apply IH].
Qed.

Lemma grows_runStrategy this fuel kind tb : grows (runStrategy this fuel kind tb).
Proof.
  destruct kind; cbn [runStrategy]; apply grows_bind; auto with grows.
  - apply grows_executeSequentialLoop.
  - apply grows_executeParallelLoop.
  - apply grows_executeHierarchicalLoop.
  - apply grows_executeCollaborativeLoop.
Qed.

Lemma grows_crossValidate this res : grows (crossValidate this res).
Proof.
  intros st. unfold crossValidate.
  pose proof (grows_memberProcessTask this "reviewer"
                (validationPrompt this res (agentContributions st))
                validationOptions st) as G.
  destruct (memberProcessTask _ _ _ _ st) as [[v|e] st']; [|exact G].
  destruct (ar_result v); exact G.
Qed.

Lemma grows_mkRunReport ok res tasks : grows (mkRunReport ok res tasks).
Proof. intros st. apply extends_refl. Qed.

(** X5.  A run only appends: whatever the workers do and however the run
    ends, the timeline and the call history it leaves are the ones it found
    followed by new entries, the first of them the start of the analysis
    and the lead's analysis call. *)
Theorem run_only_appends this fuel d os st :
  let st' := snd (orchestrateTask this fuel d os st) in
  (exists entries,
     timeline st'
     = timeline st
       ++ mkEntry (clock (world this) (history st)) "Task analysis started" "lead"
          :: entries)
  /\ (exists calls, history st' = history st ++ analysisCall d :: calls).
Proof.
  cbn zeta. remember (orchestrateTask this fuel d os st) as run eqn:R.
  unfold orchestrateTask, analyzeAndBreakdownTask in R.
  unfold bind at 1 2 3, pushTimeline at 1, processTask at 1 in R.
  cbn [fst snd timeline agentContributions history] in R.
  fold (analysisCall d) in R.
  set (st1 := mkStore _ _ _) in R.
  assert (G : forall c : M (option (Outcome Report)),
             grows c ->
             (exists entries,
                timeline (snd (c st1))
                = timeline st
                  ++ mkEntry (clock (world this) (history st))
                             "Task analysis started" "lead" :: entries)
             /\ (exists calls,
                   history (snd (c st1)) = history st ++ analysisCall d :: calls)).
  { intros c Hc. destruct (Hc st1) as [[e T] [k H]]. subst st1. cbn in T, H.
    split; [exists e | exists k].
    - now rewrite T, <- app_assoc.
    - now rewrite H, <- app_assoc. }
  destruct (respond _ _ _) as [r|e];
    [|subst run; exact (G (ret (Some (Threw e))) (grows_ret _))].
  destruct (ar_result r) as [text|];
    [|subst run; exact (G (ret (Some (Threw _))) (grows_ret _))].
  unfold ret at 1 in R. cbv beta iota in R.
  subst run. apply G. apply grows_bind; [apply grows_pushTimeline|]. intros _.
  apply grows_bind; [apply grows_runStrategy|]. intros [[tasks [res|e]]|];
    try apply grows_ret.
  destruct (_ && _); [|apply grows_mkRunReport].
  apply grows_bind; [apply grows_pushTimeline|]. intros _.
  apply grows_bind; [apply grows_crossValidate|]. intros [v|e]; [|apply grows_ret].
  apply grows_bind; [apply grows_pushTimeline|]. intros _.
  destruct (negb _); apply grows_mkRunReport.
Qed.

(** ** When the lead throws in the Hierarchical strategy *)

Lemma executeHierarchicalLoop_threw this tasks : forall results st e,
  snd (fst (executeHierarchicalLoop this tasks results st)) = Threw e ->
  exists k t calls,
    nth_error tasks k = Some t
    /\ Forall terminal (firstn k (fst (fst (executeHierarchicalLoop this tasks results st))))
    /\ skipn k (fst (fst (executeHierarchicalLoop this tasks results st)))
       = skipn k tasks
    /\ history (snd (executeHierarchicalLoop this tasks results st))
       = history st ++ calls ++ [leadCall t]
    /\ respond (world this) (history st ++ calls) (leadCall t) = Threw e.
Proof.
  induction tasks as [|task rest IH]; intros results st e.
  - cbn. discriminate.
  - cbn [executeHierarchicalLoop]. unfold memberProcessTask.
    rewrite selectBestAgent_is_member. unfold_monad.
    fold (leadCall task).
    destruct (respond _ _ (leadCall task)) as [guidance|e'] eqn:Hlead.
    + assert (Hstep : forall (out : list Task * Outcome StrategyResult * Store) t1,
                 terminal t1 ->
                 (snd (fst out) = Threw e ->
                  exists k t calls,
                    nth_error rest k = Some t
                    /\ Forall terminal (firstn k (fst (fst out)))
                    /\ skipn k (fst (fst out)) = skipn k rest
                    /\ history (snd out)
                       = (history st ++ [leadCall task; guidedCall task guidance])
                         ++ calls ++ [leadCall t]
                    /\ respond (world this)
                         ((history st ++ [leadCall task; guidedCall task guidance])
                          ++ calls) (leadCall t) = Threw e) ->
                 snd (fst out) = Threw e ->
                 exists k t calls,
                   nth_error (task :: rest) k = Some t
                   /\ Forall terminal (firstn k (t1 :: fst (fst out)))
                   /\ skipn k (t1 :: fst (fst out)) = skipn k (task :: rest)
                   /\ history (snd out) = history st ++ calls ++ [leadCall t]
                   /\ respond (world this) (history st ++ calls) (leadCall t)
                      = Threw e).
      { intros out t1 Ht1 H E. destruct (H E) as (k & t & calls & N & T & Sk & Hh & R).
        exists (S k), t, ([leadCall task; guidedCall task guidance] ++ calls).
        cbn [nth_error firstn skipn]. split; [exact N|].
        split; [constructor; assumption|]. split; [exact Sk|].
        split; [rewrite Hh, <- !app_assoc; reflexivity|].
        rewrite <- R. f_equal. rewrite <- !app_assoc. reflexivity. }
      fold (guidedCall task guidance).
      destruct (respond _ _ (guidedCall task guidance)) as [res|e2].
      * match goal with
        | |- context [executeHierarchicalLoop this rest ?r ?s] =>
            pose proof (IH r s e) as I;
            destruct (executeHierarchicalLoop this rest r s) as [[tasks' o] st']
        end.
        cbn [fst snd timeline agentContributions history] in *.
        rewrite <- app_assoc in I. cbn [app] in I.
        apply (Hstep (tasks', o, st')); auto with orch.
      * destruct (retryOnFailure (strategy this)); cbn [negb].
        -- match goal with
           | |- context [executeHierarchicalLoop this rest ?r ?s] =>
               pose proof (IH r s e) as I;
               destruct (executeHierarchicalLoop this rest r s) as [[tasks' o] st']
           end.
           cbn [fst snd timeline agentContributions history] in *.
           rewrite <- app_assoc in I. cbn [app] in I.
           apply (Hstep (tasks', o, st')); auto with orch.
        -- cbn. discriminate.
    + cbn [fst snd history]. intros [= ->].
      exists 0%nat, task, []. cbn. rewrite app_nil_r.
      repeat split; auto.
Qed.

(** X6.  In the Hierarchical strategy the call to the lead is not guarded:
    when the executor throws, the last call it made is a guidance call that
    threw that error; the tasks ahead of that one (in priority order) are
    completed or failed, that task and the ones behind it are untouched,
    and no worker was called for them. *)
Theorem hierarchical_lead_failure_is_thrown this tasks st e :
  snd (fst (executeHierarchical this tasks st)) = Threw e ->
  exists k t calls,
    nth_error (Js.sortBy priorityRank tasks) k = Some t
    /\ Forall terminal (firstn k (fst (fst (executeHierarchical this tasks st))))
    /\ skipn k (fst (fst (executeHierarchical this tasks st)))
       = skipn k (Js.sortBy priorityRank tasks)
    /\ history (snd (executeHierarchical this tasks st))
       = history st ++ calls ++ [leadCall t]
    /\ respond (world this) (history st ++ calls) (leadCall t) = Threw e.
Proof. apply executeHierarchicalLoop_threw. Qed.

Lemma hierarchical_lead_failure_is_thrown_witness :
  exists k t calls,
    nth_error (Js.sortBy priorityRank mixedPriorities) k = Some t
    /\ skipn k (fst (fst (executeHierarchical silentLead mixedPriorities emptyStore)))
       = skipn k (Js.sortBy priorityRank mixedPriorities)
    /\ history (snd (executeHierarchical silentLead mixedPriorities emptyStore))
       = calls ++ [leadCall t].
Proof.
  destruct (hierarchical_lead_failure_is_thrown silentLead mixedPriorities
              emptyStore "lead unavailable" eq_refl)
    as (k & t & calls & N & _ & Sk & H & _).
  exists k, t, calls. auto.
Defined.

(** ** After the executor *)

(** What [orchestrateTask] does once the breakdown and the executor's
    outcome are known. *)
Lemma orchestrateTask_after_strategy this fuel d os st tb st1 tasks o st2 :
  analyzeAndBreakdownTask this d (afterPush this "Task analysis started" "lead" st)
  = (Returned tb, st1) ->
  runStrategy this fuel (type (effectiveStrategy this os)) tb
              (afterPush this "Task breakdown completed" "lead" st1)
  = (Some (tasks, o), st2) ->
  orchestrateTask this fuel d os st
  = match o with
    | Threw e => (Some (Threw e), st2)
    | Returned res =>
        if crossValidation (effectiveStrategy this os) && sr_success res then
          (pushTimeline this "Cross-validation started" "reviewer" ;;;
           v <- crossValidate this res ;;
           match v with
           | Threw e => ret (Some (Threw e))
           | Returned validation =>
               pushTimeline this "Cross-validation completed" "reviewer" ;;;
               if negb (passed validation)
               then mkRunReport false
                      (mkSR (sr_success res) (sr_results res)
                            (Some (issues validation))) tasks
               else mkRunReport true res tasks
           end) st2
        else mkRunReport (sr_success res) res tasks st2
    end.
Proof.
  intros An Run.
  unfold orchestrateTask. fold (effectiveStrategy this os).
  unfold bind at 1 2.
  change (pushTimeline this "Task analysis started" "lead" st)
    with (tt, afterPush this "Task analysis started" "lead" st).
  cbn iota. rewrite An.
  unfold bind at 1 2.
  change (pushTimeline this "Task breakdown completed" "lead" st1)
    with (tt, afterPush this "Task breakdown completed" "lead" st1).
  cbn iota. rewrite Run. destruct o; [destruct (_ && _)|]; reflexivity.
Qed.

(** X7.  A reviewer that fails makes the whole run throw, although the
    executor succeeded: when the reviewer's [processTask] reports a failure
    (a result without text) [orchestrateTask] throws a [TypeError], and when
    it throws, [orchestrateTask] throws the same error. *)
Theorem reviewer_failure_is_thrown this fuel d os st tb st1 tasks res st2 :
  analyzeAndBreakdownTask this d (afterPush this "Task analysis started" "lead" st)
  = (Returned tb, st1) ->
  runStrategy this fuel (type (effectiveStrategy this os)) tb
              (afterPush this "Task breakdown completed" "lead" st1)
  = (Some (tasks, Returned res), st2) ->
  crossValidation (effectiveStrategy this os) = true ->
  sr_success res = true ->
  (forall v,
     respond (world this) (history st2)
             (reviewCall this res (agentContributions st2)) = Returned v ->
     ar_result v = None ->
     fst (orchestrateTask this fuel d os st)
     = Some (Threw "Cannot read properties of undefined (reading 'toLowerCase')"))
  /\ (forall e,
        respond (world this) (history st2)
                (reviewCall this res (agentContributions st2)) = Threw e ->
        fst (orchestrateTask this fuel d os st) = Some (Threw e)).
Proof.
  intros An Run CV Ok.
  rewrite (orchestrateTask_after_strategy _ _ _ _ _ _ _ _ _ _ An Run), CV, Ok.
  cbn [andb].
  unfold bind, pushTimeline, crossValidate, memberProcessTask, processTask.
  cbn [existsb roleKeys map fst roles String.eqb Ascii.eqb Bool.eqb orb
       fst snd timeline agentContributions history].
  fold (reviewCall this res (agentContributions st2)).
  split; intros x Hx; [intros Hr|]; rewrite Hx; [rewrite Hr|]; reflexivity.
Qed.

(** X8.  Without cross-validation, or after an executor that reported
    failure, the report is the executor's outcome as it stands: no reviewer
    call, no timeline entry, [success] the executor's flag. *)
Theorem report_without_review this fuel d os st tb st1 tasks res st2 :
  analyzeAndBreakdownTask this d (afterPush this "Task analysis started" "lead" st)
  = (Returned tb, st1) ->
  runStrategy this fuel (type (effectiveStrategy this os)) tb
              (afterPush this "Task breakdown completed" "lead" st1)
  = (Some (tasks, Returned res), st2) ->
  crossValidation (effectiveStrategy this os) = false \/ sr_success res = false ->
  orchestrateTask this fuel d os st
  = (Some (Returned (mkReport (sr_success res) res tasks
                              (agentContributions st2) (timeline st2))), st2).
Proof.
  intros An Run Skip.
  rewrite (orchestrateTask_after_strategy _ _ _ _ _ _ _ _ _ _ An Run).
  destruct Skip as [-> | ->]; [|rewrite andb_false_r]; reflexivity.
Qed.

(** X9.  A failed verdict turns only the report's [success] to false: the
    [result] in the report keeps the executor's own success flag and its
    results and gains the issues read from the reviewer's text; a passed
    verdict leaves the result as the executor returned it.  Both leave two
    cross-validation entries on the timeline. *)
Theorem verdict_in_report this fuel d os st tb st1 tasks res st2 v text :
  analyzeAndBreakdownTask this d (afterPush this "Task analysis started" "lead" st)
  = (Returned tb, st1) ->
  runStrategy this fuel (type (effectiveStrategy this os)) tb
              (afterPush this "Task breakdown completed" "lead" st1)
  = (Some (tasks, Returned res), st2) ->
  crossValidation (effectiveStrategy this os) = true ->
  sr_success res = true ->
  respond (world this) (history st2)
          (reviewCall this res (agentContributions st2)) = Returned v ->
  ar_result v = Some text ->
  exists report st3,
    orchestrateTask this fuel d os st = (Some (Returned report), st3)
    /\ report_result report
       = (if verdict text then res
          else mkSR true (sr_results res) (Some (extractIssues text)))
    /\ report_contributions report = agentContributions st2
    /\ map event (report_timeline report)
       = map event (timeline st2)
         ++ ["Cross-validation started"; "Cross-validation completed"]
    /\ map agent (skipn (length (timeline st2)) (report_timeline report))
       = ["reviewer"; "reviewer"].
Proof.
  intros An Run CV Ok Rev Txt.
  rewrite (orchestrateTask_after_strategy _ _ _ _ _ _ _ _ _ _ An Run), CV, Ok.
  cbn [andb].
  unfold bind, pushTimeline, crossValidate, memberProcessTask, processTask.
  cbn [existsb roleKeys map fst roles String.eqb Ascii.eqb Bool.eqb orb
       fst snd timeline agentContributions history].
  fold (reviewCall this res (agentContributions st2)).
  rewrite Rev, Txt. cbn [passed issues].
  destruct (verdict text); cbn [negb]; unfold mkRunReport; do 2 eexists;
    (split; [reflexivity|]);
    cbn [report_result report_contributions report_timeline timeline
         agentContributions];
    rewrite <- ?Ok, <- !app_assoc, !map_app, skipn_app, skipn_all, Nat.sub_diag;
    repeat split; destruct res; reflexivity.
Qed.

Lemma reviewer_failure_is_thrown_witness :
  fst (orchestrateTask brokenReviewer 1 "Code" None emptyStore)
  = Some (Threw "Cannot read properties of undefined (reading 'toLowerCase')").
Proof.
  edestruct (reviewer_failure_is_thrown brokenReviewer 1 "Code" None emptyStore)
    as [H _]; [reflexivity | reflexivity | reflexivity | reflexivity |].
  eapply H; reflexivity.
Defined.

Lemma report_without_review_witness :
  exists res tasks st2,
    orchestrateTask abortingRun 1 "Login" None emptyStore
    = (Some (Returned (mkReport (sr_success res) res tasks
                                (agentContributions st2) (timeline st2))), st2)
    /\ sr_success res = false.
Proof.
  do 3 eexists. split.
  - eapply report_without_review; [reflexivity | reflexivity | left; reflexivity].
  - reflexivity.
Defined.

Lemma verdict_in_report_witness :
  exists report st3,
    orchestrateTask reviewedRun 1 "Code" None emptyStore
    = (Some (Returned report), st3)
    /\ sr_success (report_result report) = true
    /\ validationIssues (report_result report) = Some [].
Proof.
  edestruct (verdict_in_report reviewedRun 1 "Code" None emptyStore)
    as (report & st3 & E & R & _);
    [reflexivity | reflexivity | reflexivity | reflexivity | reflexivity
    | reflexivity |].
  exists report, st3. split; [exact E|]. rewrite R. split; reflexivity.
Defined.

(** ** The Parallel strategy at its edges *)

(** X10.  With [maxConcurrency <= 0] the loop index never passes a
    non-empty task list: the Parallel strategy can only leave through an
    abort, so what it returns is a failure, and with [retryOnFailure] set it
    returns nothing however long it runs. *)
Theorem parallel_without_progress this tasks st :
  (maxConcurrency (strategy this) <= 0)%Z ->
  tasks <> [] ->
  (forall fuel out st',
     executeParallel this fuel tasks st = (Some out, st') ->
     sr_success (snd out) = false)
  /\ (retryOnFailure (strategy this) = true ->
      forall fuel, fst (executeParallel this fuel tasks st) = None).
Proof.
  intros Hmc Hne.
  assert (Hlen : (0 < length tasks)%nat) by (destruct tasks; [congruence | cbn; lia]).
  assert (Stuck : forall fuel out st',
             executeParallel this fuel tasks st = (Some out, st') ->
             sr_success (snd out) = false).
  { intros fuel out st' E.
    eapply (executeParallelLoop_stuck this fuel Hmc 0%Z tasks [] st out st');
      [lia | exact Hlen | exact E]. }
  split; [exact Stuck|].
  intros Retry fuel.
  destruct (executeParallel this fuel tasks st) as [[out|] st'] eqn:E;
    [|reflexivity].
  pose proof (Stuck fuel out st' E) as F.
  pose proof (proj2 (proj2 (executeParallel_status this fuel tasks st out st' E))
                    Retry) as T.
  congruence.
Qed.

Lemma parallel_without_progress_witness :
  fst (executeParallel (helpfulTeam (mkStrategy parallel 0 true false)) 50
                       twoFixes emptyStore) = None.
Proof.
  apply (proj2 (parallel_without_progress
                  (helpfulTeam (mkStrategy parallel 0 true false)) twoFixes
                  emptyStore ltac:(cbn; lia) ltac:(discriminate))).
  reflexivity.
Defined.

Lemma completedResults_app a b :
  completedResults (a ++ b) = completedResults a ++ completedResults b.
Proof. unfold completedResults. apply flat_map_app. Qed.

Lemma collectBatch_results now fs : forall results,
  fst (collectBatch true fs results)
  = results ++ completedResults (map (settleTask now) fs).
Proof.
  induction fs as [|f fs IH]; intros results; cbn [collectBatch map].
  - cbn. now rewrite app_nil_r.
  - change (settleTask now f :: map (settleTask now) fs)
      with ([settleTask now f] ++ map (settleTask now) fs).
    rewrite completedResults_app. unfold settleTask at 1.
    destruct (f_outcome f); cbn [negb]; rewrite IH.
    + now rewrite <- app_assoc.
    + reflexivity.
Qed.

Lemma runBatches_results this batches :
  retryOnFailure (strategy this) = true ->
  forall results st,
  sr_results (snd (fst (runBatches this batches results st)))
  = results ++ completedResults (concat (fst (fst (runBatches this batches results st)))).
Proof.
  intros Retry. induction batches as [|batch rest IH]; intros results st.
  - cbn. now rewrite app_nil_r.
  - cbn [runBatches]. unfold bind. rewrite Retry.
    destruct (runBatch_flights this batch st) as (now & F).
    destruct (runBatch this batch st) as [[fs settled] st1]. cbn [fst snd] in *.
    pose proof (collectBatch_retry fs results) as CR.
    pose proof (collectBatch_results now fs results) as CF.
    destruct (collectBatch true fs results) as [results' aborted].
    cbn [fst snd] in *. subst aborted results'.
    specialize (IH (results ++ completedResults (map (settleTask now) fs)) st1).
    destruct (runBatches this rest _ st1) as [[sb sr] st2].
    unfold ret. cbn [fst snd concat] in *.
    rewrite IH, completedResults_app, F, <- app_assoc. reflexivity.
Qed.

Lemma settles_concat_length batches settled :
  Forall2 settles batches settled ->
  length (concat settled) = length (concat batches).
Proof.
  induction 1 as [|b b' bs bs' Hb _ IH]; cbn; [reflexivity|].
  now rewrite !length_app, IH, (settles_length _ _ Hb).
Qed.

(** X11.  With [retryOnFailure] set and [maxConcurrency >= 1] the Parallel
    strategy runs every task, and the results it returns are those of the
    completed tasks in the order of the task list, whatever the order in
    which the workers of a batch ended. *)
Theorem parallel_results_in_task_order this tasks st fuel :
  retryOnFailure (strategy this) = true ->
  (1 <= maxConcurrency (strategy this))%Z ->
  (length tasks < fuel)%nat ->
  exists tasks' sr st',
    executeParallel this fuel tasks st = (Some (tasks', sr), st')
    /\ map id tasks' = map id tasks
    /\ Forall terminal tasks'
    /\ sr_results sr = completedResults tasks'.
Proof.
  intros Retry Hmc Hfuel. unfold executeParallel.
  pose proof (executeParallelLoop_runBatches this fuel 0 [] tasks [] st Hmc) as C.
  cbn [app length] in C. rewrite C by (auto; lia). clear C.
  set (n := Z.to_nat (maxConcurrency (strategy this))).
  assert (Hn : (1 <= n)%nat) by (subst n; lia).
  destruct (runBatches_spec this (chunks n tasks) [] st)
    as (F & _ & _ & _ & L & S & _).
  pose proof (runBatches_results this (chunks n tasks) Retry [] st) as R.
  destruct (runBatches this (chunks n tasks) [] st) as [[sb sr] st2].
  cbn [fst snd app] in *.
  specialize (L (S Retry)). rewrite L, firstn_all in F.
  pose proof (settles_concat_length _ _ F) as Len.
  rewrite (chunks_concat n tasks Hn) in Len.
  rewrite skipn_all2, app_nil_r by lia.
  exists (concat sb), sr, st2. split; [reflexivity|]. split; [|split; [|exact R]].
  - rewrite <- (chunks_concat n tasks Hn). clear -F.
    induction F as [|b b' bs bs' (I & _) _ IH]; cbn; [reflexivity|].
    now rewrite !map_app, IH, I.
  - clear -F. induction F as [|b b' bs bs' (_ & _ & _ & T) _ IH]; cbn;
      [constructor | apply Forall_app; auto].
Qed.

Lemma parallel_results_in_task_order_witness :
  exists tasks' sr st',
    executeParallel (helpfulTeam (mkStrategy parallel 2 true false)) 3 twoFixes
                    emptyStore
    = (Some (tasks', sr), st')
    /\ Forall terminal tasks'
    /\ sr_results sr = completedResults tasks'.
Proof.
  destruct (parallel_results_in_task_order
              (helpfulTeam (mkStrategy parallel 2 true false)) twoFixes
              emptyStore 3 eq_refl ltac:(cbn; lia) ltac:(cbn; lia))
    as (tasks' & sr & st' & E & _ & T & R).
  exists tasks', sr, st'. auto.
Defined.

(** ** Contributions *)

Lemma lookup_assocSet_same {V} (m : list (string * V)) k v :
  lookup (assocSet m k v) k = Some v.
Proof.
  induction m as [|[k' v'] m IH]; cbn.
  - now rewrite String.eqb_refl.
  - destruct (String.eqb k' k) eqn:E; cbn.
    + now rewrite String.eqb_refl.
    + now rewrite E.
Qed.

Lemma lookup_assocSet_other {V} (m : list (string * V)) k k' v :
  k <> k' -> lookup (assocSet m k v) k' = lookup m k'.
Proof.
  intros N. induction m as [|[k0 v0] m IH]; cbn.
  - destruct (String.eqb k k') eqn:E; [apply String.eqb_eq in E; congruence|].
    reflexivity.
  - destruct (String.eqb k0 k) eqn:E; cbn.
    + apply String.eqb_eq in E. subst k0.
      destruct (String.eqb k k') eqn:E'; [apply String.eqb_eq in E'; congruence|].
      reflexivity.
    + destruct (String.eqb k0 k'); [reflexivity | exact IH].
Qed.

Lemma recorded_contribute_same who taskId r st :
  recorded (agentContributions (snd (contribute who taskId r st))) who taskId
  = Some r.
Proof.
  unfold recorded, contribute. cbn [snd agentContributions].
  rewrite lookup_assocSet_same. apply lookup_assocSet_same.
Qed.

Lemma recorded_contribute_other who taskId r st who' taskId' :
  who <> who' \/ taskId <> taskId' ->
  recorded (agentContributions (snd (contribute who taskId r st))) who' taskId'
  = recorded (agentContributions st) who' taskId'.
Proof.
  unfold recorded, contribute. cbn [snd agentContributions]. intros N.
  destruct (String.eqb who who') eqn:E.
  - apply String.eqb_eq in E. subst who'. rewrite lookup_assocSet_same.
    destruct N as [N|N]; [congruence|].
    rewrite lookup_assocSet_other by exact N.
    destruct (lookup (agentContributions st) who); reflexivity.
  - apply String.eqb_neq in E. now rewrite lookup_assocSet_other.
Qed.

Lemma executeSequentialLoop_keeps this tasks who taskId : forall results st,
  ~ In taskId (map id tasks) ->
  recorded (agentContributions (snd (executeSequentialLoop this tasks results st)))
           who taskId
  = recorded (agentContributions st) who taskId.
Proof.
  induction tasks as [|task rest IH]; intros results st N; [reflexivity|].
  cbn [map In] in N.
  cbn [executeSequentialLoop]. rewrite memberProcessTask_selected.
  unfold bind, ret, pushTimeline, dateNow, processTask.
  cbn [fst snd timeline agentContributions history].
  destruct (respond _ _ _) as [res|e].
  - match goal with
    | |- context [contribute ?a ?i ?r ?s] =>
        pose proof (recorded_contribute_other a i r s who taskId) as K;
        destruct (contribute a i r s) as [u st1]
    end.
    cbn [fst snd timeline agentContributions history] in *.
    match goal with
    | |- context [executeSequentialLoop this rest ?r ?s] =>
        pose proof (IH r s) as I;
        destruct (executeSequentialLoop this rest r s) as [[tasks' sr] st']
    end.
    cbn [fst snd timeline agentContributions history] in *.
    rewrite I by tauto. apply K. right. tauto.
  - destruct (retryOnFailure (strategy this)); cbn [negb]; [|reflexivity].
    match goal with
    | |- context [executeSequentialLoop this rest ?r ?s] =>
        pose proof (IH r s) as I;
        destruct (executeSequentialLoop this rest r s) as [[tasks' sr] st']
    end.
    cbn [fst snd timeline agentContributions history] in *.
    apply I. tauto.
Qed.

Lemma executeSequentialLoop_contributions this tasks : forall results st,
  NoDup (map id tasks) ->
  Forall isPending tasks ->
  Forall (fun t => status t = completed ->
                   exists who r,
                     assignedAgent t = Some who
                     /\ result t = Some (PAgent r)
                     /\ recorded (agentContributions
                                    (snd (executeSequentialLoop this tasks results st)))
                                 who (id t) = Some r)
         (fst (fst (executeSequentialLoop this tasks results st))).
Proof.
  induction tasks as [|task rest IH]; intros results st ND HP; [constructor|].
  cbn [map] in ND. apply NoDup_cons_iff in ND as [Nin ND].
  apply Forall_cons_iff in HP as [_ HP].
  cbn [executeSequentialLoop]. rewrite memberProcessTask_selected.
  unfold bind, ret, pushTimeline, dateNow, processTask.
  cbn [fst snd timeline agentContributions history].
  destruct (respond _ _ _) as [res|e].
  - match goal with
    | |- context [contribute ?a ?i ?r ?s] =>
        pose proof (recorded_contribute_same a i r s) as K;
        destruct (contribute a i r s) as [u st1]
    end.
    cbn [fst snd timeline agentContributions history] in *.
    match goal with
    | |- context [executeSequentialLoop this rest ?r ?s] =>
        pose proof (IH r s ND HP) as I;
        pose proof (executeSequentialLoop_keeps this rest (selectBestAgent task)
                      (id task) r s Nin) as P;
        destruct (executeSequentialLoop this rest r s) as [[tasks' sr] st']
    end.
    cbn [fst snd timeline agentContributions history] in *.
    constructor; [|exact I].
    intros _. exists (selectBestAgent task), res. cbn.
    repeat split. now rewrite P.
  - destruct (retryOnFailure (strategy this)); cbn [negb].
    + match goal with
      | |- context [executeSequentialLoop this rest ?r ?s] =>
          pose proof (IH r s ND HP) as I;
          destruct (executeSequentialLoop this rest r s) as [[tasks' sr] st']
      end.
      cbn [fst snd] in *. constructor; [|exact I]. cbn. discriminate.
    + cbn [fst snd]. constructor; [cbn; discriminate|].
      eapply Forall_impl; [|exact HP].
      unfold isPending. intros t -> C. discriminate.
Qed.

(** X12.  When the tasks are pending and their ids distinct, as the
    decomposer makes them, the Sequential strategy leaves every completed
    task's result in the contribution map, under the agent the task was
    assigned to and the task's id; later tasks do not overwrite it. *)
Theorem sequential_contributions_complete this tasks st :
  NoDup (map id tasks) ->
  Forall isPending tasks ->
  Forall (fun t => status t = completed ->
                   exists who r,
                     assignedAgent t = Some who
                     /\ result t = Some (PAgent r)
                     /\ recorded (agentContributions
                                    (snd (executeSequential this tasks st)))
                                 who (id t) = Some r)
         (fst (fst (executeSequential this tasks st))).
Proof. apply executeSequentialLoop_contributions. Qed.

Lemma sequential_contributions_complete_witness :
  Forall (fun t => status t = completed ->
                   exists who r,
                     assignedAgent t = Some who
                     /\ result t = Some (PAgent r)
                     /\ recorded (agentContributions
                                    (snd (executeSequential abortingRun threeSteps
                                                            emptyStore)))
                                 who (id t) = Some r)
         (fst (fst (executeSequential abortingRun threeSteps emptyStore))).
Proof.
  apply sequential_contributions_complete.
  - repeat constructor; cbn; intuition discriminate.
  - repeat constructor.
Defined.

(** ** One task under the Collaborative strategy *)

(** X13.  A task under the Collaborative strategy.  When the primary worker
    throws the task is failed with its error and the secondary worker is
    not called.  When the secondary worker throws the task is failed as
    well and nothing is recorded, the primary's work included.  When both
    return the task is completed, its result holds both answers with the
    secondary's text as the final one, and each answer is recorded under
    its own agent. *)
Theorem collaborative_task this task st :
  let run := executeCollaborative this [task] st in
  let tasks' := fst (fst run) in
  let st' := snd run in
  (forall e,
     respond (world this) (history st) (primaryCall task) = Threw e ->
     map status tasks' = [failed]
     /\ map result tasks' = [Some (PError e)]
     /\ history st' = history st ++ [primaryCall task]
     /\ agentContributions st' = agentContributions st)
  /\ (forall primaryResult e,
        respond (world this) (history st) (primaryCall task)
        = Returned primaryResult ->
        respond (world this) (history st ++ [primaryCall task])
                (secondaryCall task primaryResult) = Threw e ->
        map status tasks' = [failed]
        /\ map result tasks' = [Some (PError e)]
        /\ history st'
           = history st ++ [primaryCall task; secondaryCall task primaryResult]
        /\ agentContributions st' = agentContributions st)
  /\ (forall primaryResult secondaryResult,
        respond (world this) (history st) (primaryCall task)
        = Returned primaryResult ->
        respond (world this) (history st ++ [primaryCall task])
                (secondaryCall task primaryResult) = Returned secondaryResult ->
        map status tasks' = [completed]
        /\ map result tasks'
           = [Some (PCombined primaryResult secondaryResult
                              (ar_result secondaryResult))]
        /\ sr_results (snd (fst run))
           = [PCombined primaryResult secondaryResult (ar_result secondaryResult)]
        /\ history st'
           = history st ++ [primaryCall task; secondaryCall task primaryResult]
        /\ recorded (agentContributions st') (selectBestAgent task) (id task)
           = Some primaryResult
        /\ recorded (agentContributions st')
                    (selectSecondaryAgent task (selectBestAgent task)) (id task)
           = Some secondaryResult).
Proof.
  cbn zeta. unfold executeCollaborative. cbn [executeCollaborativeLoop].
  rewrite memberProcessTask_selected. unfold memberProcessTask.
  rewrite selectSecondaryAgent_is_member.
  unfold bind, ret, pushTimeline, dateNow, processTask.
  cbn [fst snd timeline agentContributions history].
  fold (primaryCall task).
  split; [|split].
  - intros e Hp. rewrite Hp.
    destruct (retryOnFailure (strategy this)); cbn; repeat split.
  - intros pr e Hp Hs. rewrite Hp. cbn [fst snd timeline agentContributions history].
    fold (secondaryCall task pr). rewrite Hs.
    destruct (retryOnFailure (strategy this)); cbn; rewrite <- app_assoc;
      repeat split.
  - intros pr sr Hp Hs. rewrite Hp.
    cbn [fst snd timeline agentContributions history].
    fold (secondaryCall task pr). rewrite Hs.
    match goal with
    | |- context [contribute (selectBestAgent task) ?i ?r ?s] =>
        pose proof (recorded_contribute_same (selectBestAgent task) i r s) as K1;
        destruct (contribute (selectBestAgent task) i r s) as [u st1] eqn:C1
    end.
    assert (H1 : history st1 = (history st ++ [primaryCall task])
                               ++ [secondaryCall task pr])
      by (unfold contribute in C1; injection C1 as _ <-; reflexivity).
    match goal with
    | |- context [contribute ?a ?i ?r st1] =>
        pose proof (recorded_contribute_same a i r st1) as K2;
        pose proof (recorded_contribute_other a i r st1 (selectBestAgent task)
                      (id task) (or_introl (selectSecondaryAgent_differs _ _))) as K3;
        destruct (contribute a i r st1) as [u2 st2] eqn:C2
    end.
    assert (H2 : history st2 = history st1)
      by (unfold contribute in C2; injection C2 as _ <-; reflexivity).
    cbn [fst snd timeline agentContributions history map status result
         sr_results app completeTask] in *.
    rewrite H2, H1, <- app_assoc, K3, K1, K2. repeat split.
Qed.

Lemma collaborative_task_witness :
  map status (fst (fst (executeCollaborative
                          (helpfulTeam (mkStrategy collaborative 3 true false))
                          [apiTask] emptyStore)))
  = [completed]
  /\ map result (fst (fst (executeCollaborative
                             (helpfulTeam (mkStrategy collaborative 3 true false))
                             [apiTask] emptyStore)))
     = [Some (PCombined (answer "done") (answer "done") (Some "done"))].
Proof.
  destruct (proj2 (proj2 (collaborative_task
                            (helpfulTeam (mkStrategy collaborative 3 true false))
                            apiTask emptyStore))
                  (answer "done") (answer "done") eq_refl eq_refl)
    as (S & R & _).
  split; [exact S | exact R].
Defined.

(** * Template validation *)

(** ** [parseRepoUrl] *)

Lemma string_app_assoc (a b c : string) :
  ((a ++ b) ++ c = a ++ (b ++ c))%string.
Proof. induction a as [|x a IH]; cbn; [reflexivity | now rewrite IH]. Qed.

Lemma startsWith_app s p : Js.startsWith (p ++ s) p = true.
Proof.
  induction p as [|c p IH]; cbn; [reflexivity|].
  now rewrite Ascii.eqb_refl, IH.
Qed.

Lemma startsWith_split s p :
  Js.startsWith s p = true -> s = (p ++ Js.dropChars (String.length p) s)%string.
Proof.
  revert s. induction p as [|c p IH]; intros s H; cbn in *; [reflexivity|].
  destruct s as [|b s]; [discriminate|].
  apply andb_true_iff in H as [E H]. apply Ascii.eqb_eq in E. subst b.
  cbn. f_equal. now apply IH.
Qed.

Lemma dropChars_app p s : Js.dropChars (String.length p) (p ++ s) = s.
Proof. induction p as [|c p IH]; cbn; auto. Qed.

Lemma nonSlashRun_split s :
  s = (fst (Templates.nonSlashRun s) ++ snd (Templates.nonSlashRun s))%string
  /\ slashFree (fst (Templates.nonSlashRun s)) = true
  /\ (snd (Templates.nonSlashRun s) = EmptyString
      \/ Js.startsWith (snd (Templates.nonSlashRun s)) "/" = true).
Proof.
  induction s as [|c s (E & F & R)]; [cbn; auto|].
  cbn [Templates.nonSlashRun].
  destruct (Ascii.eqb c "/") eqn:C.
  - apply Ascii.eqb_eq in C. subst c. cbn. auto.
  - destruct (Templates.nonSlashRun s) as [run rest].
    cbn [fst snd slashFree append] in *.
    rewrite C, F. repeat split; auto. now rewrite <- E.
Qed.

Lemma nonSlashRun_free a :
  slashFree a = true -> Templates.nonSlashRun a = (a, EmptyString).
Proof.
  induction a as [|c a IH]; [reflexivity|].
  cbn [slashFree Templates.nonSlashRun]. intros H.
  apply andb_true_iff in H as [C F]. apply negb_true_iff in C.
  now rewrite C, IH.
Qed.

Lemma nonSlashRun_slash a r :
  slashFree a = true ->
  Templates.nonSlashRun (a ++ String "/" r) = (a, String "/" r).
Proof.
  induction a as [|c a IH]; [reflexivity|].
  cbn [slashFree Templates.nonSlashRun append]. intros H.
  apply andb_true_iff in H as [C F]. apply negb_true_iff in C.
  now rewrite C, IH.
Qed.

Lemma includes_app_r a s sub :
  Js.includes s sub = true -> Js.includes (a ++ s) sub = true.
Proof.
  induction a as [|c a IH]; cbn; [auto|]. intros H.
  rewrite (IH H). apply orb_true_r.
Qed.

Lemma matchRepoAt_sound s owner repo :
  Templates.matchRepoAt s = Some (owner, repo) ->
  Js.startsWith s ("github.com/" ++ owner ++ "/" ++ repo) = true
  /\ owner <> EmptyString /\ repo <> EmptyString
  /\ slashFree owner = true /\ slashFree repo = true.
Proof.
  unfold Templates.matchRepoAt.
  destruct (Js.startsWith s "github.com/") eqn:P; [|discriminate].
  apply startsWith_split in P. cbn [String.length] in P.
  destruct (nonSlashRun_split (Js.dropChars 11 s)) as (E1 & F1 & _).
  destruct (Templates.nonSlashRun (Js.dropChars 11 s)) as [o rest].
  cbn [fst snd] in *.
  destruct (Js.truthy o) eqn:To; [|discriminate].
  destruct (Js.startsWith rest "/") eqn:Sl; [|discriminate]. cbn [andb].
  apply startsWith_split in Sl. cbn [String.length] in Sl.
  destruct (nonSlashRun_split (Js.dropChars 1 rest)) as (E2 & F2 & _).
  destruct (Templates.nonSlashRun (Js.dropChars 1 rest)) as [r rest'].
  cbn [fst snd] in *.
  destruct (Js.truthy r) eqn:Tr; [|discriminate].
  intros [= <- <-]. split.
  - assert (Es : s = (("github.com/" ++ o ++ "/" ++ r) ++ rest')%string).
    { rewrite !string_app_assoc. rewrite <- E2, <- Sl, <- E1. exact P. }
    rewrite Es at 1. apply startsWith_app.
  - repeat split; auto; intros ->; discriminate.
Qed.

Lemma parseRepoUrl_unfold s :
  Templates.parseRepoUrl s
  = match Templates.matchRepoAt s with
    | Some m => Some m
    | None => match s with
              | EmptyString => None
              | String _ r => Templates.parseRepoUrl r
              end
    end.
Proof. destruct s; reflexivity. Qed.

Lemma string_app_nil (s : string) : (s ++ EmptyString)%string = s.
Proof. induction s; cbn; congruence. Qed.

Lemma matchRepoAt_complete owner repo tail :
  owner <> EmptyString -> repo <> EmptyString ->
  slashFree owner = true -> slashFree repo = true ->
  tail = EmptyString \/ Js.startsWith tail "/" = true ->
  Templates.matchRepoAt ("github.com/" ++ owner ++ "/" ++ repo ++ tail)
  = Some (owner, repo).
Proof.
  intros No Nr Fo Fr Ht.
  assert (R : Templates.nonSlashRun (repo ++ tail) = (repo, tail)).
  { destruct Ht as [-> | Ht].
    - rewrite string_app_nil. apply nonSlashRun_free, Fr.
    - destruct tail as [|c t]; [discriminate|].
      cbn [Js.startsWith] in Ht. apply andb_true_iff in Ht as [C _].
      apply Ascii.eqb_eq in C. subst c. apply nonSlashRun_slash, Fr. }
  unfold Templates.matchRepoAt.
  rewrite (startsWith_app _ "github.com/").
  change 11%nat with (String.length "github.com/"). rewrite dropChars_app.
  change ("/" ++ repo ++ tail)%string with (String "/" (repo ++ tail)).
  rewrite (nonSlashRun_slash owner _ Fo).
  destruct owner as [|c o]; [congruence|]. cbn [Js.truthy andb Js.startsWith].
  rewrite Ascii.eqb_refl. cbn [andb Js.dropChars]. rewrite R.
  destruct repo; [congruence | reflexivity].
Qed.

(** X14.  [parseRepoUrl] finds the first [github.com/owner/repo] in the
    text.  What it returns are two non-empty names without a slash that
    stand in the text in that form; a text without [github.com/] is
    refused; and an [https] address of a repository gives back its owner
    and name, also when a path follows the name. *)
Theorem parseRepoUrl_finds_owner_and_repo :
  (forall url owner repo,
     Templates.parseRepoUrl url = Some (owner, repo) ->
     Js.includes url ("github.com/" ++ owner ++ "/" ++ repo) = true
     /\ owner <> EmptyString /\ repo <> EmptyString
     /\ slashFree owner = true /\ slashFree repo = true)
  /\ (forall url,
        Js.includes url "github.com/" = false ->
        Templates.parseRepoUrl url = None)
  /\ (forall owner repo path,
        owner <> EmptyString -> repo <> EmptyString ->
        slashFree owner = true -> slashFree repo = true ->
        Templates.parseRepoUrl ("https://github.com/" ++ owner ++ "/" ++ repo)
        = Some (owner, repo)
        /\ Templates.parseRepoUrl
             ("https://github.com/" ++ owner ++ "/" ++ repo ++ "/" ++ path)
           = Some (owner, repo)).
Proof.
  split; [|split].
  - induction url as [|c url IH]; intros owner repo;
      rewrite parseRepoUrl_unfold.
    + destruct (Templates.matchRepoAt EmptyString) as [m|] eqn:M; [|discriminate].
      discriminate.
    + destruct (Templates.matchRepoAt (String c url)) as [[o r]|] eqn:M.
      * intros [= <- <-]. destruct (matchRepoAt_sound _ _ _ M) as (S & rest).
        split; [|exact rest]. destruct url; cbn [Js.includes]; now rewrite S.
      * intros H. destruct (IH _ _ H) as (I & rest). split; [|exact rest].
        cbn [Js.includes]. rewrite I. apply orb_true_r.
  - induction url as [|c url IH]; intros H; rewrite parseRepoUrl_unfold.
    + reflexivity.
    + cbn [Js.includes] in H. apply orb_false_iff in H as [H1 H2].
      unfold Templates.matchRepoAt. rewrite H1. now apply IH.
  - intros owner repo path No Nr Fo Fr.
    assert (Skip : forall tail,
               Templates.parseRepoUrl ("https://github.com/" ++ tail)
               = Templates.parseRepoUrl ("github.com/" ++ tail)).
    { intros tail. cbn [append].
      do 8 (rewrite parseRepoUrl_unfold;
            match goal with
            | |- context [Templates.matchRepoAt ?s] =>
                change (Templates.matchRepoAt s) with (@None (string * string))
            end; cbv iota).
      reflexivity. }
    rewrite !Skip. split.
    + rewrite parseRepoUrl_unfold.
      replace ("github.com/" ++ owner ++ "/" ++ repo)%string
        with ("github.com/" ++ owner ++ "/" ++ repo ++ EmptyString)%string.
      * now rewrite matchRepoAt_complete by auto.
      * now rewrite string_app_nil.
    + rewrite parseRepoUrl_unfold.
      now rewrite matchRepoAt_complete by auto.
Qed.

Lemma parseRepoUrl_finds_owner_and_repo_witness :
  Templates.parseRepoUrl "https://github.com/mxn2020/geenius-cli"
  = Some ("mxn2020", "geenius-cli")
  /\ Templates.parseRepoUrl "https://github.com/mxn2020/geenius-cli/tree/main"
     = Some ("mxn2020", "geenius-cli")
  /\ Templates.parseRepoUrl "https://gitlab.com/mxn2020/geenius-cli" = None.
Proof.
  destruct parseRepoUrl_finds_owner_and_repo as (_ & Refuse & Canon).
  destruct (Canon "mxn2020" "geenius-cli" "tree/main") as [C1 C2];
    try discriminate; try reflexivity.
  split; [exact C1|]. split; [exact C2|]. apply Refuse. reflexivity.
Defined.

(** ** [TemplateFetcher.validateTemplate] *)

Lemma scored_charge lo issues score note d :
  (0 < d)%Z -> scored lo (issues, score) ->
  scored (lo - d) (issues ++ [note], (score - d)%Z).
Proof.
  unfold scored. cbn [fst snd]. intros Hd [B E]. split; [lia|]. split.
  - intros H. apply app_eq_nil in H as [_ H]. discriminate.
  - intros H. lia.
Qed.

Lemma scored_weaken lo lo' r : (lo' <= lo)%Z -> scored lo r -> scored lo' r.
Proof. unfold scored. intros H [B E]. split; [lia | exact E]. Qed.

Lemma checkRequiredFiles_scored api owner repo files :
  forall issues score log lo,
  scored lo (issues, score) ->
  scored (lo - 20 * Z.of_nat (length files))
         (fst (Templates.checkRequiredFiles api owner repo files issues score log)).
Proof.
  induction files as [|file rest IH]; intros issues score log lo H.
  - cbn. eapply scored_weaken; [|exact H]. lia.
  - cbn [Templates.checkRequiredFiles length]. unfold Templates.fetch.
    destruct (Templates.getContent api log owner repo file).
    + eapply scored_weaken; [|apply IH, (scored_charge lo _ _ _ 20)]; auto; lia.
    + eapply scored_weaken; [|apply IH, H]. lia.
    + eapply scored_weaken; [|apply IH, H]. lia.
Qed.

Lemma missingScript_scored lo present name r :
  scored lo r -> scored (lo - 10) (Templates.missingScript present name r).
Proof.
  unfold Templates.missingScript. destruct r as [issues score]. intros H.
  destruct present.
  - eapply scored_weaken; [|exact H]. lia.
  - apply scored_charge; [lia | exact H].
Qed.

Lemma checkPackageJson_scored api owner repo issues score log lo :
  scored lo (issues, score) ->
  scored (lo - 30)
         (fst (Templates.checkPackageJson api owner repo issues score log)).
Proof.
  intros H. unfold Templates.checkPackageJson, Templates.fetch.
  destruct (Templates.getContent api log owner repo "package.json") as [| |[s|]];
    cbn [fst].
  - apply scored_charge; [lia | exact H].
  - eapply scored_weaken; [|exact H]. lia.
  - eapply scored_weaken;
      [|apply missingScript_scored, missingScript_scored, missingScript_scored, H].
    lia.
  - apply scored_charge; [lia | exact H].
Qed.

Lemma checkTestsDirectory_scored api owner repo issues score log lo :
  scored lo (issues, score) ->
  scored (lo - 15)
         (fst (Templates.checkTestsDirectory api owner repo issues score log)).
Proof.
  intros H. unfold Templates.checkTestsDirectory, Templates.fetch.
  destruct (Templates.getContent api log owner repo "tests");
    [destruct (Templates.getContent api _ owner repo "__tests__")| |]; cbn [fst];
    try (eapply scored_weaken; [|exact H]; lia).
  apply scored_charge; [lia | exact H].
Qed.

Lemma validateTemplate_cases api repoUrl log :
  match fst (Templates.validateTemplate api repoUrl log) with
  | Threw message =>
      Templates.parseRepoUrl repoUrl = None
      /\ message = "Invalid GitHub repository URL"
      /\ snd (Templates.validateTemplate api repoUrl log) = log
  | Returned b =>
      Templates.parseRepoUrl repoUrl <> None
      /\ (-25 <= Templates.b_score b <= 100)%Z
      /\ Templates.b_valid b = (60 <=? Templates.b_score b)%Z
      /\ (Templates.b_issues b = [] <-> Templates.b_score b = 100%Z)
  end.
Proof.
  unfold Templates.validateTemplate.
  destruct (Templates.parseRepoUrl repoUrl) as [[owner repo]|];
    [|cbn; repeat split].
  destruct (Templates.reposGet api log owner repo).
  - pose proof (checkRequiredFiles_scored api owner repo Templates.requiredFiles
                  [] 100 (log ++ [Templates.ReposGet owner repo]) 100) as H1.
    destruct (Templates.checkRequiredFiles _ _ _ _ _ _ _) as [[i1 s1] log1].
    pose proof (checkPackageJson_scored api owner repo i1 s1 log1 20) as H2.
    destruct (Templates.checkPackageJson _ _ _ _ _ _) as [[i2 s2] log2].
    pose proof (checkTestsDirectory_scored api owner repo i2 s2 log2 (-10)) as H3.
    destruct (Templates.checkTestsDirectory _ _ _ _ _ _) as [[i3 s3] log3].
    cbn [fst snd Templates.b_score Templates.b_valid Templates.b_issues] in *.
    assert (H0 : scored 100 ([], 100%Z)) by (split; cbn; [lia | tauto]).
    apply H1 in H0. change (100 - 20 * Z.of_nat (length Templates.requiredFiles))%Z
      with 20%Z in H0.
    apply H2 in H0. apply H3 in H0. destruct H0 as [B E]. cbn [fst snd] in B, E.
    split; [discriminate|]. split; [lia|]. split; [reflexivity | exact E].
  - cbn. split; [discriminate|]. split; [lia|]. split; [reflexivity|].
    split; discriminate.
Qed.

(** X15.  The fetcher's validation throws only for an address
    [parseRepoUrl] refuses, and then before any request.  Otherwise its
    score lies between -25 and 100, it is 100 exactly when there is no
    issue, and the template is valid exactly when the score is at least
    60. *)
Theorem validateTemplate_score api repoUrl log :
  match fst (Templates.validateTemplate api repoUrl log) with
  | Threw message =>
      Templates.parseRepoUrl repoUrl = None
      /\ message = "Invalid GitHub repository URL"
      /\ snd (Templates.validateTemplate api repoUrl log) = log
  | Returned b =>
      Templates.parseRepoUrl repoUrl <> None
      /\ (-25 <= Templates.b_score b <= 100)%Z
      /\ Templates.b_valid b = (60 <=? Templates.b_score b)%Z
      /\ (Templates.b_issues b = [] <-> Templates.b_score b = 100%Z)
  end.
Proof. exact (validateTemplate_cases api repoUrl log). Qed.

(** ** [performAdditionalChecks] and [validateTemplateRepository] *)

Lemma checkPath_charged api owner repo path (asIssue : bool) note penalty acc log
    hi ni nr :
  (0 < penalty)%Z -> charged hi ni nr acc ->
  charged (hi + penalty)
          (ni + (if asIssue then 1 else 0)) (nr + (if asIssue then 0 else 1))
          (fst (Templates.checkPath api owner repo path asIssue note penalty acc log)).
Proof.
  intros Hp (B & E & Li & Lr). unfold Templates.checkPath, Templates.fetch.
  assert (K : charged (hi + penalty) (ni + (if asIssue then 1 else 0))
                      (nr + (if asIssue then 0 else 1)) acc)
    by (repeat split; try apply E; try lia; destruct asIssue; lia).
  destruct (Templates.getContent api log owner repo path); cbn [fst]; try exact K.
  clear K. unfold charged.
  destruct asIssue;
    cbn [Templates.a_penalties Templates.a_issues Templates.a_recommendations];
    rewrite ?length_app; cbn [length].
  - split; [lia|]. split; [|lia]. split; [lia|].
    intros [H _]. apply app_eq_nil in H as [_ H]. discriminate.
  - split; [lia|]. split; [|lia]. split; [lia|].
    intros [_ H]. apply app_eq_nil in H as [_ H]. discriminate.
Qed.

Lemma performAdditionalChecks_charged api repoUrl log :
  charged 25 1 4 (fst (Templates.performAdditionalChecks api repoUrl log)).
Proof.
  unfold Templates.performAdditionalChecks.
  destruct (Templates.parseRepoUrl repoUrl) as [[owner repo]|].
  - assert (H0 : charged 0 0 0 (Templates.mkAdditional [] [] 0))
      by (repeat split; cbn; auto; lia).
    match goal with
    | |- context [Templates.checkPath api owner repo ?p ?b ?n ?k ?a log] =>
        apply (checkPath_charged api owner repo p b n k a log) in H0; [|lia];
        destruct (Templates.checkPath api owner repo p b n k a log) as [a1 log1]
    end.
    match goal with
    | |- context [Templates.checkPath api owner repo ?p ?b ?n ?k a1 log1] =>
        apply (checkPath_charged api owner repo p b n k a1 log1) in H0; [|lia];
        destruct (Templates.checkPath api owner repo p b n k a1 log1) as [a2 log2]
    end.
    match goal with
    | |- context [Templates.checkPath api owner repo ?p ?b ?n ?k a2 log2] =>
        apply (checkPath_charged api owner repo p b n k a2 log2) in H0; [|lia];
        destruct (Templates.checkPath api owner repo p b n k a2 log2) as [a3 log3]
    end.
    match goal with
    | |- context [Templates.checkPath api owner repo ?p ?b ?n ?k a3 log3] =>
        apply (checkPath_charged api owner repo p b n k a3 log3) in H0; [|lia];
        destruct (Templates.checkPath api owner repo p b n k a3 log3) as [a4 log4]
    end.
    match goal with
    | |- context [Templates.checkPath api owner repo ?p ?b ?n ?k a4 log4] =>
        apply (checkPath_charged api owner repo p b n k a4 log4) in H0; [|lia]
    end.
    cbn [fst] in *. exact H0.
  - unfold charged. cbn.
    split; [lia|]. split; [|lia]. split; [discriminate|].
    intros [H _]. discriminate.
Qed.

(** X16.  The additional checks never fail: their penalties lie between 0
    and 25 and are 0 exactly when nothing is noted, with at most one issue
    and four recommendations; for an address [parseRepoUrl] refuses they
    are 20, with one issue and no request. *)
Theorem performAdditionalChecks_penalties api repoUrl log :
  let a := fst (Templates.performAdditionalChecks api repoUrl log) in
  charged 25 1 4 a
  /\ (Templates.parseRepoUrl repoUrl = None ->
      Templates.a_penalties a = 20%Z
      /\ length (Templates.a_issues a) = 1%nat
      /\ snd (Templates.performAdditionalChecks api repoUrl log) = log).
Proof.
  cbn zeta. split; [apply performAdditionalChecks_charged|].
  unfold Templates.performAdditionalChecks. intros ->. cbn. auto.
Qed.

Lemma validateTemplateRepository_bounds api repoUrl log :
  (0 <= Templates.r_score
          (fst (Templates.validateTemplateRepository api repoUrl log)) <= 100)%Z.
Proof.
  unfold Templates.validateTemplateRepository.
  pose proof (validateTemplate_cases api repoUrl log) as V.
  destruct (Templates.validateTemplate api repoUrl log) as [[b|message] log1].
  - cbn [fst snd] in V. destruct V as (_ & B & _).
    pose proof (performAdditionalChecks_charged api repoUrl log1) as (C & _).
    destruct (Templates.performAdditionalChecks api repoUrl log1) as [a log2].
    cbn [fst snd Templates.r_score] in *. lia.
  - cbn. lia.
Qed.

(** X17.  The validator's repository check never throws and its score lies
    between 0 and 100; the repository is valid exactly when the score is at
    least 70, and then the fetcher's validation passed too, with a score no
    smaller.  An address [parseRepoUrl] refuses scores 0 with one issue and
    no request. *)
Theorem validateTemplateRepository_score api repoUrl log :
  let v := fst (Templates.validateTemplateRepository api repoUrl log) in
  (0 <= Templates.r_score v <= 100)%Z
  /\ Templates.r_valid v = (70 <=? Templates.r_score v)%Z
  /\ (Templates.r_valid v = true ->
      exists b,
        fst (Templates.validateTemplate api repoUrl log) = Returned b
        /\ Templates.b_valid b = true
        /\ (Templates.r_score v <= Templates.b_score b)%Z)
  /\ (Templates.parseRepoUrl repoUrl = None ->
      Templates.r_score v = 0%Z
      /\ Templates.r_issues v
         = ["Repository validation failed: Invalid GitHub repository URL"]
      /\ Templates.r_recommendations v = []
      /\ snd (Templates.validateTemplateRepository api repoUrl log) = log).
Proof.
  cbn zeta. unfold Templates.validateTemplateRepository.
  pose proof (validateTemplate_cases api repoUrl log) as V.
  destruct (Templates.validateTemplate api repoUrl log) as [[b|message] log1].
  - cbn [fst snd] in V. destruct V as (P & B & Vb & _).
    pose proof (performAdditionalChecks_charged api repoUrl log1) as (C & _).
    destruct (Templates.performAdditionalChecks api repoUrl log1) as [a log2].
    cbn [fst snd Templates.r_score Templates.r_valid Templates.r_issues
         Templates.r_recommendations] in *.
    split; [lia|]. split; [reflexivity|]. split; [|congruence].
    intros Hv. apply Z.leb_le in Hv. exists b. split; [reflexivity|].
    split; [rewrite Vb; apply Z.leb_le; lia | lia].
  - cbn [fst snd] in V. destruct V as (P & -> & ->).
    cbn. split; [lia|]. split; [reflexivity|]. split; [discriminate|]. auto.
Qed.

(** ** [generateTemplateHealthReport] *)

Lemma countStatus_app s a b :
  countStatus s (a ++ b) = (countStatus s a + countStatus s b)%nat.
Proof. unfold countStatus. now rewrite filter_app, length_app. Qed.

Lemma healthLoop_counts api ts : forall acc log,
  let r := fst (Templates.healthLoop api ts acc log) in
  Templates.h_healthy acc = countStatus Templates.healthy (Templates.h_details acc) ->
  Templates.h_warning acc = countStatus Templates.warning (Templates.h_details acc) ->
  Templates.h_critical acc = countStatus Templates.critical (Templates.h_details acc) ->
  Templates.h_healthy r = countStatus Templates.healthy (Templates.h_details r)
  /\ Templates.h_warning r = countStatus Templates.warning (Templates.h_details r)
  /\ Templates.h_critical r = countStatus Templates.critical (Templates.h_details r)
  /\ map Templates.d_template (Templates.h_details r)
     = map Templates.d_template (Templates.h_details acc)
       ++ map Templates.t_name ts
  /\ (Forall (fun d => Templates.d_status d = Templates.classify (Templates.d_score d)
                       /\ (0 <= Templates.d_score d <= 100)%Z)
             (Templates.h_details acc) ->
      Forall (fun d => Templates.d_status d = Templates.classify (Templates.d_score d)
                       /\ (0 <= Templates.d_score d <= 100)%Z)
             (Templates.h_details r)).
Proof.
  induction ts as [|t ts IH]; intros acc log; cbn zeta.
  - cbn. rewrite app_nil_r. auto.
  - cbn [Templates.healthLoop map].
    pose proof (validateTemplateRepository_bounds api (Templates.t_repository t) log)
      as B.
    destruct (Templates.validateTemplateRepository api (Templates.t_repository t) log)
      as [v log1]. cbn [fst] in B.
    intros Hh Hw Hc.
    match goal with
    | |- context [Templates.healthLoop api ts ?a log1] =>
        specialize (IH a log1); cbn zeta in IH;
        destruct IH as (I1 & I2 & I3 & I4 & I5)
    end.
    + destruct (Templates.classify (Templates.r_score v));
        cbn [Templates.h_healthy Templates.h_details];
        rewrite countStatus_app, <- Hh; cbn; lia.
    + destruct (Templates.classify (Templates.r_score v));
        cbn [Templates.h_warning Templates.h_details];
        rewrite countStatus_app, <- Hw; cbn; lia.
    + destruct (Templates.classify (Templates.r_score v));
        cbn [Templates.h_critical Templates.h_details];
        rewrite countStatus_app, <- Hc; cbn; lia.
    + split; [exact I1|]. split; [exact I2|]. split; [exact I3|]. split.
      * rewrite I4.
        destruct (Templates.classify (Templates.r_score v));
          cbn [Templates.h_details]; rewrite map_app, <- app_assoc; reflexivity.
      * intros F. apply I5.
        destruct (Templates.classify (Templates.r_score v)) eqn:C;
          cbn [Templates.h_details]; apply Forall_app; split; auto;
          constructor; auto; cbn; auto.
Qed.

(** X18.  The health report has one detail per template, in order and under
    the template's name; every detail's status follows from its score (90
    and above healthy, 70 and above warning, below critical), the score
    lying between 0 and 100; and the three counters count the details of
    each status, so they add up to the number of templates. *)
Theorem health_report_counts api ts log :
  let r := fst (Templates.generateTemplateHealthReport api ts log) in
  map Templates.d_template (Templates.h_details r) = map Templates.t_name ts
  /\ Forall (fun d => Templates.d_status d = Templates.classify (Templates.d_score d)
                      /\ (0 <= Templates.d_score d <= 100)%Z)
            (Templates.h_details r)
  /\ Templates.h_healthy r = countStatus Templates.healthy (Templates.h_details r)
  /\ Templates.h_warning r = countStatus Templates.warning (Templates.h_details r)
  /\ Templates.h_critical r = countStatus Templates.critical (Templates.h_details r)
  /\ (Templates.h_healthy r + Templates.h_warning r + Templates.h_critical r
      = length ts)%nat.
Proof.
  cbn zeta. unfold Templates.generateTemplateHealthReport.
  destruct (healthLoop_counts api ts (Templates.mkHealthReport 0 0 0 []) log
              eq_refl eq_refl eq_refl) as (H & W & C & N & F).
  set (r := fst (Templates.healthLoop api ts _ log)) in *.
  cbn [Templates.h_details map app] in N.
  specialize (F (Forall_nil _)).
  repeat split; auto.
  rewrite H, W, C. rewrite <- (length_map Templates.t_name ts), <- N, length_map.
  clear. unfold countStatus.
  induction (Templates.h_details r) as [|d l IH]; [reflexivity|].
  cbn [filter length]. destruct (Templates.d_status d); cbn [length]; lia.
Qed.

(** ** [validateTemplateRegistry] *)

Lemma existsb_eqb_In k seen :
  existsb (String.eqb k) seen = true <-> In k seen.
Proof.
  rewrite existsb_exists. split.
  - intros (x & I & E). apply String.eqb_eq in E. now subst.
  - intros I. exists k. split; [exact I | apply String.eqb_refl].
Qed.

Lemma repeated_nil keys : forall seen,
  Templates.repeated seen keys = []
  <-> NoDup keys /\ (forall k, In k keys -> ~ In k seen).
Proof.
  induction keys as [|k keys IH]; intros seen; cbn [Templates.repeated].
  - split; [intros _; split; [constructor | intros k []] | reflexivity].
  - split.
    + intros H. apply app_eq_nil in H as [H1 H2].
      apply IH in H2 as [N D].
      assert (K : ~ In k seen).
      { intros I. apply existsb_eqb_In in I. rewrite I in H1. discriminate. }
      split.
      * constructor; [|exact N]. intros I. apply (D k I). now left.
      * intros x [<-|I]; [exact K|]. intros J. apply (D x I). now right.
    + intros [N D]. inversion N as [|? ? Nk N']; subst.
      destruct (existsb (String.eqb k) seen) eqn:E.
      * apply existsb_eqb_In in E. destruct (D k (or_introl eq_refl) E).
      * cbn [app]. apply IH. split; [exact N'|].
        intros x I [<-|J]; [exact (Nk I) | exact (D x (or_intror I) J)].
Qed.

Lemma repeated_In keys : forall seen k,
  In k (Templates.repeated seen keys) -> In k keys.
Proof.
  induction keys as [|x keys IH]; intros seen k; cbn [Templates.repeated].
  - intros [].
  - intros I. apply in_app_or in I as [I|I].
    + destruct (existsb (String.eqb x) seen); [|destruct I].
      destruct I as [<-|[]]. now left.
    + right. exact (IH _ _ I).
Qed.

(** X19.  For a registry with a template array, the validator reports no
    duplicate exactly when the templates' ids are pairwise different and
    their repositories are; every duplicate it reports is an id of the
    registry or a repository of it behind the words "Repository: ". *)
Theorem registry_duplicates lib registry ts :
  Templates.templates registry = Some ts ->
  let v := Templates.validateTemplateRegistry lib registry in
  (Templates.v_duplicates v = []
   <-> NoDup (map Templates.t_id ts) /\ NoDup (map Templates.t_repository ts))
  /\ Forall (fun d =>
               In d (map Templates.t_id ts)
               \/ exists r, In r (map Templates.t_repository ts)
                            /\ d = ("Repository: " ++ r)%string)
            (Templates.v_duplicates v).
Proof.
  intros T. cbn zeta. unfold Templates.validateTemplateRegistry. rewrite T.
  cbn [Templates.v_duplicates]. split.
  - split.
    + intros H. apply app_eq_nil in H as [H1 H2].
      apply map_eq_nil in H2.
      apply repeated_nil in H1 as [N1 _]. apply repeated_nil in H2 as [N2 _].
      now split.
    + intros [N1 N2].
      assert (H1 : Templates.repeated [] (map Templates.t_id ts) = [])
        by (apply repeated_nil; split; [exact N1 | intros k _ []]).
      assert (H2 : Templates.repeated [] (map Templates.t_repository ts) = [])
        by (apply repeated_nil; split; [exact N2 | intros k _ []]).
      now rewrite H1, H2.
  - apply Forall_app. split; apply Forall_forall; intros d I.
    + left. exact (repeated_In _ _ _ I).
    + right. apply in_map_iff in I as (r & <- & I).
      exists r. split; [exact (repeated_In _ _ _ I) | reflexivity].
Qed.

Lemma flat_map_nil {A B} (f : A -> list B) l :
  flat_map f l = [] <-> forall x, In x l -> f x = [].
Proof.
  induction l as [|a l IH]; cbn [flat_map].
  - split; [intros _ x [] | reflexivity].
  - split.
    + intros H. apply app_eq_nil in H as [H1 H2].
      intros x [<-|I]; [exact H1 | exact (proj1 IH H2 x I)].
    + intros H. rewrite (H a (or_introl eq_refl)). cbn [app].
      apply IH. intros x I. apply H. now right.
Qed.

Lemma length_eqb_nil {A} (l : list A) : (length l =? 0)%nat = true <-> l = [].
Proof. destruct l; cbn; split; congruence. Qed.

Lemma templateIssues_nil lib ts :
  Templates.templateIssues lib ts = []
  <-> forall t, In t ts -> Templates.schemaErrors lib t = [].
Proof.
  unfold Templates.templateIssues. rewrite flat_map_nil.
  split; intros H t I; specialize (H t I);
    unfold Templates.validateTemplateConfig in *;
    cbn [Templates.cv_valid Templates.cv_errors] in *.
  - destruct (Templates.schemaErrors lib t); [reflexivity | discriminate].
  - now rewrite H.
Qed.

Lemma categoryIssues_nil lib ts category :
  Templates.categoryIssues lib ts category = []
  <-> Templates.falsy (Templates.c_id category) = false
      /\ Templates.falsy (Templates.c_name category) = false
      /\ forall ids templateId,
           Templates.c_templates category = Some ids -> In templateId ids ->
           exists t, In t ts /\ Templates.t_id t = templateId.
Proof.
  unfold Templates.categoryIssues. split.
  - intros H. apply app_eq_nil in H as [H1 H2].
    destruct (Templates.falsy (Templates.c_id category)) eqn:E1; [discriminate|].
    destruct (Templates.falsy (Templates.c_name category)) eqn:E2; [discriminate|].
    split; [reflexivity|]. split; [reflexivity|].
    intros ids templateId C I. rewrite C in H2.
    pose proof (proj1 (flat_map_nil _ _) H2 templateId I) as K. cbn beta in K.
    destruct (existsb _ ts) eqn:E; [|discriminate].
    apply existsb_exists in E as (t & It & Et). apply String.eqb_eq in Et.
    now exists t.
  - intros (E1 & E2 & H). rewrite E1, E2. cbn [orb app].
    destruct (Templates.c_templates category) as [ids|] eqn:C; [|reflexivity].
    apply flat_map_nil. intros templateId I.
    destruct (H ids templateId eq_refl I) as (t & It & Et).
    assert (E : existsb (fun t => String.eqb (Templates.t_id t) templateId) ts = true).
    { apply existsb_exists. exists t. split; [exact It|]. now apply String.eqb_eq. }
    now rewrite E.
Qed.

(** X20.  A registry is valid exactly when it has a template array, the
    schema accepts every template, and every category has a non-empty id
    and name and lists only ids of templates of the registry.  Warnings and
    duplicates do not count: [valid] says that there is no issue. *)
Theorem registry_valid_iff lib registry :
  let v := Templates.validateTemplateRegistry lib registry in
  (Templates.v_valid v = true <-> Templates.v_issues v = [])
  /\ (Templates.v_valid v = true
      <-> exists ts,
            Templates.templates registry = Some ts
            /\ (forall t, In t ts -> Templates.schemaErrors lib t = [])
            /\ (forall cs category,
                  Templates.categories registry = Some cs -> In category cs ->
                  Templates.falsy (Templates.c_id category) = false
                  /\ Templates.falsy (Templates.c_name category) = false
                  /\ forall ids templateId,
                       Templates.c_templates category = Some ids ->
                       In templateId ids ->
                       exists t, In t ts /\ Templates.t_id t = templateId)).
Proof.
  cbn zeta. unfold Templates.validateTemplateRegistry.
  destruct (Templates.templates registry) as [ts|];
    cbn [Templates.v_valid Templates.v_issues].
  - split; [apply length_eqb_nil|].
    rewrite length_eqb_nil. split.
    + intros H. apply app_eq_nil in H as [H1 H2].
      exists ts. split; [reflexivity|]. split; [now apply templateIssues_nil|].
      intros cs category C I. rewrite C in H2.
      apply (proj1 (categoryIssues_nil lib ts category)).
      exact (proj1 (flat_map_nil _ _) H2 category I).
    + intros (ts' & E & H1 & H2). injection E as <-.
      apply templateIssues_nil in H1. rewrite H1. cbn [app].
      destruct (Templates.categories registry) as [cs|]; [|reflexivity].
      apply flat_map_nil. intros category I.
      apply (proj2 (categoryIssues_nil lib ts category)).
      exact (H2 cs category eq_refl I).
  - split; split; try discriminate. intros (ts & E & _). discriminate.
Qed.

Lemma registry_duplicates_witness :
  Templates.templates smallRegistry = Some twoTemplates
  /\ (Templates.v_duplicates
        (Templates.validateTemplateRegistry acceptingLibrary smallRegistry) = []
      <-> NoDup (map Templates.t_id twoTemplates)
          /\ NoDup (map Templates.t_repository twoTemplates)).
Proof.
  split; [reflexivity|].
  exact (proj1 (registry_duplicates acceptingLibrary smallRegistry twoTemplates
                  eq_refl)).
Defined.

(** ** [CustomAIAgent.processTask] *)

Lemma includes_prefix sub rest : Js.includes (sub ++ rest) sub = true.
Proof.
  pose proof (startsWith_app rest sub) as H.
  destruct (sub ++ rest)%string; cbn [Js.includes]; rewrite H; reflexivity.
Qed.

Lemma ran_app a b : ran (a ++ b) = ran a ++ ran b.
Proof. apply flat_map_app. Qed.

Lemma asked_app a b : asked (a ++ b) = asked a ++ asked b.
Proof. apply flat_map_app. Qed.

Lemma tracks_refl this p : tracks this p p [].
Proof.
  unfold tracks. cbn. rewrite app_nil_r, Nat.add_0_r. repeat split. constructor.
Qed.

Lemma tracks_asked this p q request :
  Agent.p_executionSteps q = Agent.p_executionSteps p ->
  Agent.p_reasoning q = Agent.p_reasoning p ->
  tracks this p q [Agent.AskedAI request].
Proof.
  intros Hs Hr. unfold tracks. cbn. rewrite Hs, Hr, app_nil_r, Nat.add_0_r.
  repeat split. constructor.
Qed.

Lemma tracks_trans this p1 p2 p3 a b :
  tracks this p1 p2 a -> tracks this p2 p3 b -> tracks this p1 p3 (a ++ b).
Proof.
  intros (S1 & R1 & K1) (S2 & R2 & K2). unfold tracks.
  rewrite ran_app, map_app, length_app, S2, S1, R2, R1, app_assoc.
  repeat split; [lia | now apply Forall_app].
Qed.

Lemma runTools_tracks this toolCalls : forall p log,
  exists more,
    snd (Agent.runTools this toolCalls p log) = log ++ more
    /\ asked more = []
    /\ tracks this p (fst (Agent.runTools this toolCalls p log)) more.
Proof.
  induction toolCalls as [|toolCall rest IH]; intros p log; cbn [Agent.runTools].
  - exists []. rewrite app_nil_r. split; [reflexivity|]. split; [reflexivity|].
    apply tracks_refl.
  - destruct (existsb _ (Agent.tools this)) eqn:E; [|apply IH].
    assert (K : known this toolCall).
    { apply existsb_exists in E as (x & I & Ex). apply String.eqb_eq in Ex.
      unfold known. now rewrite Ex. }
    assert (T0 : forall q,
               map Agent.es_tool (Agent.p_executionSteps q)
               = map Agent.es_tool (Agent.p_executionSteps p)
                 ++ [Agent.tc_name toolCall] ->
               length (Agent.p_reasoning q) = S (length (Agent.p_reasoning p)) ->
               tracks this p q [Agent.RanTool toolCall]).
    { intros q Hs Hr. unfold tracks. cbn. rewrite Hs, Hr.
      split; [reflexivity|]. split; [lia|]. constructor; [exact K | constructor]. }
    destruct (Agent.execute this log toolCall) as [toolResult|message].
    + match goal with
      | |- context [Agent.runTools this rest ?q ?l] =>
          destruct (IH q l) as (more & L & A & T); specialize (T0 q)
      end.
      exists ([Agent.RanTool toolCall] ++ more).
      split; [rewrite L, <- app_assoc; reflexivity|]. split; [exact A|].
      refine (tracks_trans this p _ _ _ _ (T0 _ _) T); cbn.
      * now rewrite map_app.
      * rewrite length_app. cbn. lia.
    + match goal with
      | |- context [Agent.runTools this rest ?q ?l] =>
          destruct (IH q l) as (more & L & A & T); specialize (T0 q)
      end.
      exists ([Agent.RanTool toolCall] ++ more).
      split; [rewrite L, <- app_assoc; reflexivity|]. split; [exact A|].
      refine (tracks_trans this p _ _ _ _ (T0 _ _) T); cbn.
      * now rewrite map_app.
      * rewrite length_app. cbn. lia.
Qed.

Lemma stepLoop_tracks this systemPrompt remaining :
  forall currentStep prompt p log,
  match Agent.stepLoop this systemPrompt remaining currentStep prompt p log with
  | (error, p', log') =>
      exists more,
        log' = log ++ more
        /\ tracks this p p' more
        /\ (length (asked more) <= remaining)%nat
        /\ match error with
           | Some message =>
               exists before request,
                 log' = before ++ [Agent.AskedAI request]
                 /\ Agent.callAIWithTools this before request = Threw message
           | None => True
           end
  end.
Proof.
  induction remaining as [|remaining IH]; intros currentStep prompt p log;
    cbn [Agent.stepLoop].
  - exists []. rewrite app_nil_r. split; [reflexivity|].
    split; [apply tracks_refl|]. split; [cbn; lia | exact I].
  - cbv zeta.
    set (request := Agent.stepPrompt systemPrompt (currentStep + 1) prompt
                                     (Agent.p_lastResult p)).
    destruct (Agent.callAIWithTools this log request) as [stepResult|message] eqn:C.
    + destruct (Agent.parseToolCalls this stepResult) as [|toolCall rest].
      * exists [Agent.AskedAI request]. split; [reflexivity|].
        split; [|cbn; split; [lia | exact I]].
        apply (tracks_asked this); reflexivity.
      * destruct (runTools_tracks this (toolCall :: rest) p
                                  (log ++ [Agent.AskedAI request]))
          as (ranNow & L & A & T).
        destruct (Agent.runTools this (toolCall :: rest) p
                                 (log ++ [Agent.AskedAI request])) as [p1 log2].
        cbn [fst snd] in L, T. subst log2.
        assert (T1 : tracks this p p1 ([Agent.AskedAI request] ++ ranNow)).
        { apply (tracks_trans this p p p1); [|exact T].
          apply (tracks_asked this); reflexivity. }
        destruct (Agent.announcesCompletion stepResult).
        -- exists ([Agent.AskedAI request] ++ ranNow).
           rewrite app_assoc. split; [reflexivity|]. split; [exact T1|].
           rewrite asked_app, A. cbn. split; [lia | exact I].
        -- specialize (IH (currentStep + 1)%Z prompt p1
                          ((log ++ [Agent.AskedAI request]) ++ ranNow)).
           destruct (Agent.stepLoop this systemPrompt remaining (currentStep + 1)
                       prompt p1 ((log ++ [Agent.AskedAI request]) ++ ranNow))
             as [[error p'] log'].
           destruct IH as (more & L & T2 & B & E).
           exists (([Agent.AskedAI request] ++ ranNow) ++ more).
           split; [rewrite L, !app_assoc; reflexivity|].
           split; [exact (tracks_trans this p p1 p' _ _ T1 T2)|].
           split; [rewrite !asked_app, A; cbn; lia | exact E].
    + exists [Agent.AskedAI request]. split; [reflexivity|].
      split; [|cbn; split; [lia|]].
      * apply (tracks_asked this); reflexivity.
      * exists log, request. split; [reflexivity | exact C].
Qed.

(** X21.  A run of [processTask] only adds events.  It asks the language
    model at most [maxSteps] times, and not at all when [maxSteps] is not
    positive; the execution steps are the tools run, in order, each a key
    of [this.tools]; and the reasoning has one line for each step, after
    the opening line when reasoning is asked for. *)
Theorem processTask_steps this prompt o st :
  match Agent.processTask this prompt o st with
  | ((r, steps), st') =>
      exists more,
        Agent.events st' = Agent.events st ++ more
        /\ (length (asked more) <= Z.to_nat (maxSteps o))%nat
        /\ map Agent.es_tool steps = map Agent.tc_name (ran more)
        /\ Forall (fun s => In (Agent.es_tool s) (Agent.tools this)) steps
        /\ length (ar_reasoning r)
           = ((if reasoning o then 1 else 0) + length steps)%nat
  end.
Proof.
  unfold Agent.processTask.
  destruct (Agent.systemPrompt this) as [systemPrompt|message].
  2:{ exists []. cbn. rewrite app_nil_r.
      split; [reflexivity|]. split; [lia|]. split; [reflexivity|].
      split; [constructor|]. destruct (reasoning o); reflexivity. }
  pose proof (stepLoop_tracks this systemPrompt (Z.to_nat (maxSteps o)) 0 prompt
    (Agent.mkProgress
       (if reasoning o
        then ["🧠 Analyzing task and generating execution plan..."] else [])
       [] EmptyString) (Agent.events st)) as H.
  destruct (Agent.stepLoop this systemPrompt (Z.to_nat (maxSteps o)) 0 prompt _
                           (Agent.events st))
    as [[error p] log].
  destruct H as (more & L & (S1 & R1 & K1) & B & _).
  cbn [Agent.p_executionSteps Agent.p_reasoning map app] in S1, R1.
  assert (Hlen : length (Agent.p_executionSteps p) = length (ran more))
    by (rewrite <- (length_map Agent.es_tool), S1, length_map; reflexivity).
  assert (Hk : Forall (fun s => In (Agent.es_tool s) (Agent.tools this))
                      (Agent.p_executionSteps p)).
  { apply Forall_forall. intros s I.
    apply (in_map Agent.es_tool) in I. rewrite S1 in I.
    apply in_map_iff in I as (c & <- & I).
    exact (proj1 (Forall_forall _ _) K1 c I). }
  assert (Hr : length (Agent.p_reasoning p)
               = ((if reasoning o then 1 else 0) + length (Agent.p_executionSteps p))%nat)
    by (rewrite R1, Hlen; destruct (reasoning o); reflexivity).
  destruct error as [message|]; exists more; cbn; auto.
Qed.

(** X22.  [processTask] records the prompt in the conversation whatever
    happens.  It reports success with a result and no error, and then adds
    one successful record to the task history; or it reports failure
    without a result, and then the history is unchanged and the error is
    the message thrown by the system prompt, before any request and any
    tool, or else by the last request to the language model.  A system
    prompt that throws always gives the first kind of failure. *)
Theorem processTask_outcome this prompt o st :
  match Agent.processTask this prompt o st with
  | ((r, steps), st') =>
      Agent.conversation st'
      = Agent.conversation st
        ++ [Agent.mkMessage "user" prompt (Agent.now this (Agent.events st))]
      /\ (if ar_success r
          then exists text,
                 ar_result r = Some text /\ ar_error r = None
                 /\ Agent.taskHistory st'
                    = Agent.taskHistory st
                      ++ [Agent.mkTaskRecord prompt
                            (Js.ofNat (length steps) ++ " steps executed")
                            (String.substring 0 500 text) true
                            (Agent.now this (Agent.events st'))]
          else ar_result r = None
               /\ Agent.taskHistory st' = Agent.taskHistory st
               /\ exists message,
                    ar_error r = Some message
                    /\ ((Agent.systemPrompt this = Threw message
                         /\ Agent.events st' = Agent.events st /\ steps = [])
                        \/ exists before request,
                             Agent.events st' = before ++ [Agent.AskedAI request]
                             /\ Agent.callAIWithTools this before request
                                = Threw message))
      /\ (forall message,
            Agent.systemPrompt this = Threw message ->
            ar_success r = false /\ ar_error r = Some message
            /\ Agent.events st' = Agent.events st)
  end.
Proof.
  unfold Agent.processTask.
  destruct (Agent.systemPrompt this) as [systemPrompt|thrown].
  2:{ cbn. split; [reflexivity|]. split.
      - split; [reflexivity|]. split; [reflexivity|].
        exists thrown. split; [reflexivity|]. left. auto.
      - intros message [= <-]. auto. }
  pose proof (stepLoop_tracks this systemPrompt (Z.to_nat (maxSteps o)) 0 prompt
    (Agent.mkProgress
       (if reasoning o
        then ["🧠 Analyzing task and generating execution plan..."] else [])
       [] EmptyString) (Agent.events st)) as H.
  destruct (Agent.stepLoop this systemPrompt (Z.to_nat (maxSteps o)) 0 prompt _
                           (Agent.events st))
    as [[error p] log].
  destruct H as (more & L & _ & _ & E).
  destruct error as [message|]; cbn; (split; [reflexivity|]);
    (split; [|discriminate]).
  - split; [reflexivity|]. split; [reflexivity|].
    destruct E as (before & request & Lb & C).
    exists message. split; [reflexivity|]. right. now exists before, request.
  - now exists (Agent.p_lastResult p).
Qed.

Lemma processTask_outcome_witness :
  ar_success (fst (fst (Agent.processTask bareAgent "Fix the build"
                                          (mkOptions true 3) freshState)))
  = false
  /\ ar_error (fst (fst (Agent.processTask bareAgent "Fix the build"
                                           (mkOptions true 3) freshState)))
     = Some "Cannot read properties of undefined (reading 'framework')"
  /\ Agent.events (snd (Agent.processTask bareAgent "Fix the build"
                                          (mkOptions true 3) freshState))
     = [].
Proof.
  pose proof (processTask_outcome bareAgent "Fix the build" (mkOptions true 3)
                                  freshState) as H.
  destruct (Agent.processTask bareAgent "Fix the build" (mkOptions true 3)
                              freshState) as [[r steps] st'].
  destruct H as (_ & _ & H). exact (H _ eq_refl).
Defined.

(** X23.  A tool that throws does not fail the task: when the system
    prompt is built and no request to the language model throws,
    [processTask] reports success without an error, whatever the tools
    do. *)
Theorem tool_failures_do_not_fail_the_task this prompt o st systemPrompt :
  Agent.systemPrompt this = Returned systemPrompt ->
  (forall log request message,
     Agent.callAIWithTools this log request <> Threw message) ->
  ar_success (fst (fst (Agent.processTask this prompt o st))) = true
  /\ ar_error (fst (fst (Agent.processTask this prompt o st))) = None.
Proof.
  intros Hsp H. unfold Agent.processTask. rewrite Hsp.
  pose proof (stepLoop_tracks this systemPrompt (Z.to_nat (maxSteps o)) 0 prompt
    (Agent.mkProgress
       (if reasoning o
        then ["🧠 Analyzing task and generating execution plan..."] else [])
       [] EmptyString) (Agent.events st)) as K.
  destruct (Agent.stepLoop this systemPrompt (Z.to_nat (maxSteps o)) 0 prompt _
                           (Agent.events st))
    as [[error p] log].
  destruct K as (more & _ & _ & _ & E).
  destruct error as [message|]; [|split; reflexivity].
  destruct E as (before & request & _ & C). destruct (H _ _ _ C).
Qed.

Lemma tool_failures_do_not_fail_the_task_witness :
  Agent.systemPrompt clumsyAgent
  = Returned "You are an advanced AI development assistant"
  /\ (forall log request message,
        Agent.callAIWithTools clumsyAgent log request <> Threw message)
  /\ map Agent.es_success
         (snd (fst (Agent.processTask clumsyAgent "Fix the build"
                                      (mkOptions true 3) freshState)))
     = [false]
  /\ ar_success (fst (fst (Agent.processTask clumsyAgent "Fix the build"
                                             (mkOptions true 3) freshState)))
     = true
  /\ ar_error (fst (fst (Agent.processTask clumsyAgent "Fix the build"
                                           (mkOptions true 3) freshState)))
     = None.
Proof.
  assert (H : forall log request message,
            Agent.callAIWithTools clumsyAgent log request <> Threw message)
    by (intros log request message; cbn; destruct (asked log); discriminate).
  split; [reflexivity|]. split; [exact H|]. split; [vm_compute; reflexivity|].
  exact (tool_failures_do_not_fail_the_task clumsyAgent "Fix the build"
           (mkOptions true 3) freshState _ eq_refl H).
Defined.

(** X24.  When the system prompt is built, [maxSteps] is positive and the
    first reply of the language model calls no tool, that reply is the
    result: the task succeeds with it after this one request, which
    carries the system prompt and the task, and no tool runs. *)
Theorem reply_without_tools_is_the_result this prompt o st systemPrompt text :
  Agent.systemPrompt this = Returned systemPrompt ->
  (0 < maxSteps o)%Z ->
  Agent.callAIWithTools this (Agent.events st)
    (Agent.stepPrompt systemPrompt 1 prompt EmptyString) = Returned text ->
  Agent.parseToolCalls this text = [] ->
  ar_result (fst (fst (Agent.processTask this prompt o st))) = Some text
  /\ ar_success (fst (fst (Agent.processTask this prompt o st))) = true
  /\ snd (fst (Agent.processTask this prompt o st)) = []
  /\ Agent.events (snd (Agent.processTask this prompt o st))
     = Agent.events st
       ++ [Agent.AskedAI (Agent.stepPrompt systemPrompt 1 prompt EmptyString)]
  /\ Js.startsWith (Agent.stepPrompt systemPrompt 1 prompt EmptyString)
                   systemPrompt = true
  /\ Js.includes (Agent.stepPrompt systemPrompt 1 prompt EmptyString)
                 ("Task: " ++ prompt) = true.
Proof.
  intros Hsp Hpos C P.
  assert (H : Js.includes (Agent.stepPrompt systemPrompt 1 prompt EmptyString)
                          ("Task: " ++ prompt) = true).
  { unfold Agent.stepPrompt. cbn [Z.eqb Pos.eqb].
    apply includes_app_r, includes_app_r, includes_app_r.
    rewrite <- string_app_assoc. apply includes_prefix. }
  assert (H' : Js.startsWith (Agent.stepPrompt systemPrompt 1 prompt EmptyString)
                             systemPrompt = true).
  { unfold Agent.stepPrompt. cbn [Z.eqb Pos.eqb]. apply startsWith_app. }
  unfold Agent.processTask. rewrite Hsp.
  destruct (Z.to_nat (maxSteps o)) as [|n] eqn:N; [lia|].
  cbn [Agent.stepLoop]. cbv zeta.
  change (0 + 1)%Z with 1%Z. cbn [Agent.p_lastResult].
  rewrite C, P. cbn [fst snd ar_result ar_success Agent.events Agent.p_lastResult
                     Agent.p_executionSteps].
  repeat split; assumption.
Qed.

Lemma reply_without_tools_is_the_result_witness :
  Agent.systemPrompt clumsyAgent
  = Returned "You are an advanced AI development assistant"
  /\ (0 < maxSteps (mkOptions false 3))%Z
  /\ Agent.parseToolCalls clumsyAgent "All done" = []
  /\ ar_result (fst (fst (Agent.processTask clumsyAgent "Fix the build"
                                            (mkOptions false 3) laterState)))
     = Some "All done".
Proof.
  split; [reflexivity|]. split; [reflexivity|]. split; [reflexivity|].
  apply (reply_without_tools_is_the_result clumsyAgent "Fix the build"
           (mkOptions false 3) laterState
           "You are an advanced AI development assistant" "All done");
    reflexivity.
Defined.

(** ** [CodingAgent.developFeature] *)

Lemma steady_commit taskDescription s s' :
  steady taskDescription s ->
  Coding.s_iteration s' = S (Coding.s_iteration s) ->
  Coding.s_commits s' = Coding.s_commits s ->
  Coding.s_committed s' = Coding.s_committed s ->
  (Coding.s_success s' = true <-> In (Coding.Tested true) (Coding.s_log s')) ->
  steady taskDescription s' /\ steady taskDescription (Coding.commit taskDescription s').
Proof.
  intros (Hs & Hc & Hl & Hm) Hi Hcs Hcd Hs'.
  assert (F : Forall (fun m => exists i, (1 <= i <= Coding.s_iteration s')%nat
                                         /\ m = Coding.commitMessage i taskDescription)
                     (Coding.s_commits s)).
  { rewrite Hi. eapply Forall_impl; [|exact Hm].
    intros m (i & B & E). exists i. split; [lia | exact E]. }
  split; unfold steady; cbn [Coding.commit Coding.s_success Coding.s_log
    Coding.s_committed Coding.s_commits Coding.s_iteration].
  - rewrite Hcs, Hcd, Hi. split; [exact Hs'|]. split; [exact Hc|].
    split; [lia|]. rewrite <- Hi. exact F.
  - rewrite Hcs, Hcd, Hc, length_app, Hi. cbn [length].
    split; [exact Hs'|]. split; [reflexivity|]. split; [lia|].
    apply Forall_app. split; [rewrite <- Hi; exact F|].
    constructor; [|constructor]. exists (S (Coding.s_iteration s)).
    split; [lia | reflexivity].
Qed.

Lemma In_snoc {A} (x y : A) l : In x (l ++ [y]) <-> In x l \/ x = y.
Proof.
  rewrite in_app_iff. cbn. split; intros [H|H]; auto.
  - destruct H as [H|[]]; auto.
Qed.

Lemma iterate_steady this taskDescription s :
  Coding.s_success s = false -> steady taskDescription s ->
  steady taskDescription (Coding.iterate this taskDescription s)
  /\ Coding.s_iteration (Coding.iterate this taskDescription s)
     = S (Coding.s_iteration s).
Proof.
  intros Hf St. pose proof St as (Hs & _).
  assert (Hn : ~ In (Coding.Tested true) (Coding.s_log s))
    by (intros I; apply Hs in I; congruence).
  unfold Coding.iterate. cbv zeta.
  destruct (Coding.runAICommand this _ taskDescription _) as [aiResponse|message].
  2:{ split; [|reflexivity].
      apply (steady_commit taskDescription s); try reflexivity; [exact St|].
      cbn. rewrite Hf, In_snoc. split; [discriminate|]. intros [I|E]; [tauto | discriminate]. }
  destruct (Coding.extractCodeChanges this aiResponse) as [|change changes].
  { split; [|reflexivity].
    apply (steady_commit taskDescription s); try reflexivity; [exact St|].
    cbn. rewrite Hf, In_snoc. split; [discriminate|]. intros [I|E]; [tauto | discriminate]. }
  destruct (Coding.applyChanges this _ (change :: changes)) as [message|].
  { split; [|reflexivity].
    apply (steady_commit taskDescription s); try reflexivity; [exact St|].
    cbn. rewrite Hf, !In_snoc. split; [discriminate|].
    intros [[I|E]|E]; [tauto | discriminate | discriminate]. }
  destruct (Coding.runTests this _) as [[passed testOutput]|message].
  2:{ split; [|reflexivity].
      apply (steady_commit taskDescription s); try reflexivity; [exact St|].
      cbn. rewrite Hf, !In_snoc. split; [discriminate|].
      intros [[I|E]|E]; [tauto | discriminate | discriminate]. }
  destruct passed.
  { split; [|reflexivity].
    apply (steady_commit taskDescription s); try reflexivity; [exact St|].
    cbn. rewrite !In_snoc. split; auto. }
  destruct (Coding.runAICommand this _ (Coding.fixPrompt testOutput) _)
    as [reply|message].
  - split; [|reflexivity].
    apply (steady_commit taskDescription s); try reflexivity; [exact St|].
    cbn. rewrite Hf, !In_snoc. split; [discriminate|].
    intros [[[[I|E]|E]|E]|E]; try discriminate. tauto.
  - split; [|reflexivity].
    apply (steady_commit taskDescription s); try reflexivity; [exact St|].
    cbn. rewrite Hf, !In_snoc. split; [discriminate|].
    intros [[[[I|E]|E]|E]|E]; try discriminate. tauto.
Qed.

Lemma develop_steady this taskDescription remaining : forall s,
  steady taskDescription s ->
  let s' := Coding.develop this taskDescription remaining s in
  steady taskDescription s'
  /\ (Coding.s_iteration s <= Coding.s_iteration s'
      <= Coding.s_iteration s + remaining)%nat
  /\ (Coding.s_success s' = false ->
      Coding.s_iteration s' = (Coding.s_iteration s + remaining)%nat).
Proof.
  induction remaining as [|remaining IH]; intros s St; cbn [Coding.develop]; cbv zeta.
  - split; [exact St|]. split; lia.
  - destruct (Coding.s_success s) eqn:Hs.
    + split; [exact St|]. split; [lia | congruence].
    + destruct (iterate_steady this taskDescription s Hs St) as [St1 Hi].
      destruct (IH _ St1) as (St2 & B & E). rewrite Hi in B, E.
      split; [exact St2|]. split; [lia|]. intros F. rewrite (E F). lia.
Qed.

(** X25.  A development session runs at most [maxIterations] iterations,
    ten when [maxIterations] is absent or 0 and none when it is negative;
    it stops earlier only on success. *)
Theorem developFeature_iterations this taskDescription maxIterations :
  let s := Coding.developFeature this taskDescription maxIterations in
  let limit := match maxIterations with
               | None | Some 0%Z => 10%Z
               | Some m => Z.max 0 m
               end in
  (Z.of_nat (Coding.s_iteration s) <= limit)%Z
  /\ (Coding.s_success s = false -> Z.of_nat (Coding.s_iteration s) = limit).
Proof.
  cbv zeta. unfold Coding.developFeature.
  match goal with
  | |- context [Coding.develop this taskDescription ?n ?s0] =>
      assert (St : steady taskDescription s0)
        by (unfold steady; cbn; repeat split; try discriminate; try tauto;
            constructor);
      destruct (develop_steady this taskDescription n s0 St) as (_ & B & E)
  end.
  cbn [Coding.onProgress Coding.s_iteration] in B, E.
  assert (L : Z.of_nat (Z.to_nat (Coding.orTen maxIterations))
              = match maxIterations with
                | None | Some 0%Z => 10%Z
                | Some m => Z.max 0 m
                end).
  { unfold Coding.orTen. destruct maxIterations as [[|m|m]|]; cbn [Z.eqb]; lia. }
  rewrite <- L. split; [lia|]. intros F. rewrite (E F). reflexivity.
Qed.

(** X26.  A development session succeeds exactly when a test run passed.
    Every commit is announced to [onCommit]; there is at most one commit
    for an iteration, and its message names an iteration that was run,
    followed by the first 50 characters of the task. *)
Theorem developFeature_commits this taskDescription maxIterations :
  let s := Coding.developFeature this taskDescription maxIterations in
  (Coding.s_success s = true <-> In (Coding.Tested true) (Coding.s_log s))
  /\ Coding.s_committed s = Coding.s_commits s
  /\ (length (Coding.s_commits s) <= Coding.s_iteration s)%nat
  /\ Forall (fun m =>
               exists i, (1 <= i <= Coding.s_iteration s)%nat
                         /\ m = ("feat: iteration " ++ Js.ofNat i ++ " - "
                                 ++ String.substring 0 50 taskDescription)%string)
            (Coding.s_commits s).
Proof.
  cbv zeta. unfold Coding.developFeature.
  match goal with
  | |- context [Coding.develop this taskDescription ?n ?s0] =>
      assert (St : steady taskDescription s0)
        by (unfold steady; cbn; repeat split; try discriminate; try tauto;
            constructor);
      destruct (develop_steady this taskDescription n s0 St) as (St' & _)
  end.
  exact St'.
Qed.

(** * The executors when every worker returns *)

Lemma initializeTeam_resolves agents w : resolves (initializeTeam agents w).
Proof. intros h c. eexists. reflexivity. Qed.

Lemma executeSequentialLoop_resolves this tasks :
  resolves (world this) ->
  forall results st,
    Forall isCompletedTask
           (fst (fst (executeSequentialLoop this tasks results st)))
    /\ sr_success (snd (fst (executeSequentialLoop this tasks results st))) = true.
Proof.
  intros Hr. induction tasks as [|task rest IH]; intros results st;
    [split; [constructor | reflexivity]|].
  cbn [executeSequentialLoop]. rewrite memberProcessTask_selected.
  unfold_monad.
  match goal with
  | |- context [respond ?w ?h ?c] => destruct (Hr h c) as [res ->]
  end.
  recursive_call executeSequentialLoop IH. destruct IH0 as [F S].
  split; [constructor; [reflexivity | exact F] | exact S].
Qed.

Lemma executeCollaborativeLoop_resolves this tasks :
  resolves (world this) ->
  forall results st,
    Forall isCompletedTask
           (fst (fst (executeCollaborativeLoop this tasks results st)))
    /\ sr_success (snd (fst (executeCollaborativeLoop this tasks results st)))
       = true.
Proof.
  intros Hr. induction tasks as [|task rest IH]; intros results st;
    [split; [constructor | reflexivity]|].
  cbn [executeCollaborativeLoop]. rewrite memberProcessTask_selected.
  unfold memberProcessTask. rewrite selectSecondaryAgent_is_member.
  unfold_monad.
  match goal with
  | |- context [respond ?w ?h ?c] => destruct (Hr h c) as [res ->]
  end.
  match goal with
  | |- context [respond ?w ?h ?c] => destruct (Hr h c) as [res' ->]
  end.
  recursive_call executeCollaborativeLoop IH. destruct IH0 as [F S].
  split; [constructor; [reflexivity | exact F] | exact S].
Qed.

Lemma executeHierarchicalLoop_resolves this tasks :
  resolves (world this) ->
  forall results st,
    Forall isCompletedTask
           (fst (fst (executeHierarchicalLoop this tasks results st)))
    /\ exists sr,
         snd (fst (executeHierarchicalLoop this tasks results st)) = Returned sr
         /\ sr_success sr = true.
Proof.
  intros Hr. induction tasks as [|task rest IH]; intros results st.
  - split; [constructor|]. eexists. split; reflexivity.
  - cbn [executeHierarchicalLoop]. unfold memberProcessTask.
    rewrite selectBestAgent_is_member. unfold_monad.
    match goal with
    | |- context [respond ?w ?h ?c] => destruct (Hr h c) as [guidance ->]
    end.
    match goal with
    | |- context [respond ?w ?h ?c] => destruct (Hr h c) as [res ->]
    end.
    recursive_call executeHierarchicalLoop IH. destruct IH0 as [F S].
    split; [constructor; [reflexivity | exact F] | exact S].
Qed.

Lemma dispatchAll_landed this batch :
  resolves (world this) ->
  forall st, Forall landed (fst (dispatchAll this batch st)).
Proof.
  intros Hr. induction batch as [|task rest IH]; intros st; [constructor|].
  cbn [dispatchAll]. unfold dispatch. rewrite memberProcessTask_selected.
  unfold_monad.
  match goal with
  | |- context [dispatchAll this rest ?s] =>
      pose proof (IH s) as F; destruct (dispatchAll this rest s) as [fs st']
  end.
  cbn [fst] in *. constructor; [|exact F].
  unfold landed. cbn. apply Hr.
Qed.

Lemma runBatch_landed this batch st :
  resolves (world this) -> Forall landed (fst (fst (runBatch this batch st))).
Proof.
  intros Hr. unfold runBatch, bind.
  pose proof (dispatchAll_landed this batch Hr st) as F.
  destruct (dispatchAll this batch st) as [fs st1].
  destruct (settleAll this _ st1) as [u st2]. exact F.
Qed.

Lemma collectBatch_landed retry fs :
  Forall landed fs -> forall results, snd (collectBatch retry fs results) = false.
Proof.
  induction 1 as [|f fs [r Hf] _ IH]; intros results; cbn; [reflexivity|].
  rewrite Hf. apply IH.
Qed.

Lemma settleTask_landed now fs :
  Forall landed fs -> Forall isCompletedTask (map (settleTask now) fs).
Proof.
  induction 1 as [|f fs [r Hf] _ IH]; cbn [map]; constructor; [|exact IH].
  unfold settleTask. rewrite Hf. reflexivity.
Qed.

Lemma runBatches_resolves this batches :
  resolves (world this) ->
  forall results st,
    length (fst (fst (runBatches this batches results st))) = length batches
    /\ Forall isCompletedTask
              (concat (fst (fst (runBatches this batches results st))))
    /\ sr_success (snd (fst (runBatches this batches results st))) = true.
Proof.
  intros Hr. induction batches as [|batch rest IH]; intros results st.
  - cbn. repeat split. constructor.
  - cbn [runBatches]. unfold bind.
    pose proof (runBatch_landed this batch st Hr) as F.
    destruct (runBatch_flights this batch st) as (now & E).
    destruct (runBatch this batch st) as [[fs settled] st1].
    cbn [fst snd] in *.
    pose proof (collectBatch_landed (retryOnFailure (strategy this)) fs F results)
      as C.
    destruct (collectBatch _ fs results) as [results' aborted].
    cbn [snd] in C. subst aborted.
    destruct (IH results' st1) as (L & T & S).
    destruct (runBatches this rest results' st1) as [[sb sr] st2].
    cbn [ret fst snd length concat] in *.
    split; [now rewrite L|]. split; [|exact S].
    apply Forall_app. split; [|exact T]. subst settled.
    now apply settleTask_landed.
Qed.

Lemma executeParallelLoop_resolves this fuel :
  resolves (world this) ->
  forall i tasks results st out st',
    executeParallelLoop this fuel i tasks results st = (Some out, st') ->
    sr_success (snd out) = true.
Proof.
  intros Hr. induction fuel as [|fuel IH]; intros i tasks results st out st' E;
    [discriminate|].
  cbn [executeParallelLoop] in E.
  destruct (i <? Z.of_nat (length tasks))%Z.
  - unfold bind in E.
    pose proof (runBatch_landed this
                  (Js.slice tasks i (i + maxConcurrency (strategy this))) st Hr) as F.
    destruct (runBatch this _ st) as [[fs settled] st1]. cbn [fst snd] in *.
    pose proof (collectBatch_landed (retryOnFailure (strategy this)) fs F results)
      as C.
    destruct (collectBatch _ fs results) as [results' aborted].
    cbn [snd] in C. subst aborted. exact (IH _ _ _ _ _ _ E).
  - injection E as <- <-. reflexivity.
Qed.

Lemma executeParallel_resolves this fuel tasks st out st' :
  resolves (world this) ->
  executeParallel this fuel tasks st = (Some out, st') ->
  Forall isCompletedTask (fst out) /\ sr_success (snd out) = true.
Proof.
  intros Hr E.
  pose proof (executeParallelLoop_resolves this fuel Hr _ _ _ _ _ _ E) as Ok.
  split; [|exact Ok].
  destruct (Z.le_gt_cases 1 (maxConcurrency (strategy this))) as [Hmc|Hmc].
  - unfold executeParallel in E.
    apply (executeParallelLoop_more this fuel (fuel + S (length tasks))) in E;
      [|lia].
    pose proof (executeParallelLoop_runBatches this (fuel + S (length tasks))
                  0 [] tasks [] st Hmc) as C.
    cbn [app length] in C. rewrite C in E by (auto; lia). clear C.
    set (n := Z.to_nat (maxConcurrency (strategy this))) in *.
    assert (Hn : (1 <= n)%nat) by (subst n; lia).
    destruct (runBatches_spec this (chunks n tasks) [] st) as (F & _).
    destruct (runBatches_resolves this (chunks n tasks) Hr [] st) as (L & T & _).
    destruct (runBatches this (chunks n tasks) [] st) as [[sb sr] st2].
    cbn [fst snd] in *. injection E as <- <-. cbn [fst snd] in *.
    rewrite L, firstn_all in F.
    assert (Len : length (concat sb) = length tasks).
    { rewrite <- (chunks_concat n tasks Hn). clear -F.
      induction F as [|b b' bs bs' Hb _ IH]; cbn; [reflexivity|].
      rewrite !length_app, IH, (settles_length _ _ Hb). reflexivity. }
    rewrite skipn_all2 by lia. rewrite app_nil_r. exact T.
  - destruct tasks as [|t tasks].
    + destruct fuel; [discriminate|]. cbn in E. injection E as <- <-. constructor.
    + apply executeParallelLoop_stuck in E; try lia; [congruence | cbn; lia].
Qed.

Lemma runStrategy_resolves this fuel kind tb st tasks res st' :
  resolves (world this) ->
  runStrategy this fuel kind tb st = (Some (tasks, Returned res), st') ->
  Forall isCompletedTask tasks /\ sr_success res = true.
Proof.
  intros Hr. destruct kind; cbn [runStrategy]; unfold bind, ret; intros E.
  - pose proof (executeSequentialLoop_resolves this tb Hr [] st) as S.
    unfold executeSequential in E.
    destruct (executeSequentialLoop this tb [] st) as [[t r] s].
    cbn [fst snd] in *. injection E as <- <- <-. exact S.
  - destruct (executeParallel this fuel tb st) as [[out|] s] eqn:P;
      [|discriminate].
    injection E as <- <- <-.
    exact (executeParallel_resolves this fuel _ _ _ _ Hr P).
  - pose proof (executeHierarchicalLoop_resolves this
                  (Js.sortBy priorityRank tb) Hr [] st) as (F & sr & S1 & S2).
    unfold executeHierarchical in E.
    destruct (executeHierarchicalLoop this _ [] st) as [[t o] s].
    cbn [fst snd] in *. injection E as <- -> <-. split; [exact F | congruence].
  - pose proof (executeCollaborativeLoop_resolves this tb Hr [] st) as S.
    unfold executeCollaborative in E.
    destruct (executeCollaborativeLoop this tb [] st) as [[t r] s].
    cbn [fst snd] in *. injection E as <- <- <-. exact S.
Qed.

(** * The claims on the executors *)

(** ** C2 *)

(** C2.  [initializeTeam] makes every worker a [CustomAIAgent], whose
    [processTask] returns a result whatever its language model and its
    tools do.  For such a team, under any of the four strategies and any
    setting of [retryOnFailure], every task of a Run Report that
    [orchestrateTask] returns is completed or failed, none is pending or in
    progress; indeed every task is completed, since no call of a worker
    throws. *)
Theorem report_statuses agents w s fuel d os st report st' :
  orchestrateTask (mkOrchestrator (initializeTeam agents w) s) fuel d os st
  = (Some (Returned report), st') ->
  Forall (fun t => status t = completed \/ status t = failed)
         (taskBreakdown report)
  /\ Forall (fun t => status t = completed) (taskBreakdown report).
Proof.
  intros E.
  destruct (orchestrateTask_returned _ _ _ _ _ _ _ E)
    as (text & st1 & res & st2 & Run & _).
  destruct (runStrategy_resolves
              (mkOrchestrator (initializeTeam agents w) s) _ _ _ _ _ _ _
              (initializeTeam_resolves agents w) Run) as [F _].
  split; [|exact F].
  eapply Forall_impl; [|exact F]. intros t Ht. left. exact Ht.
Qed.

Lemma report_statuses_witness :
  exists report st',
    orchestrateTask (office (mkStrategy sequential 3 false false)) 1 "Login" None
                    emptyStore
    = (Some (Returned report), st')
    /\ map description (taskBreakdown report)
       = ["Test the login form"; "Write the code"]
    /\ map (fun t => match result t with
                     | Some (PAgent r) => ar_error r
                     | _ => None
                     end) (taskBreakdown report)
       = [Some "Anthropic API error: 500 Internal Server Error"; None]
    /\ map status (taskBreakdown report) = [completed; completed]
    /\ Forall (fun t => status t = completed \/ status t = failed)
              (taskBreakdown report).
Proof.
  let run := eval vm_compute in
               (orchestrateTask (office (mkStrategy sequential 3 false false)) 1
                                "Login" None emptyStore) in
  match run with
  | (Some (Returned ?report), ?st') =>
      exists report, st';
      split; [vm_compute; reflexivity|];
      split; [vm_compute; reflexivity|];
      split; [vm_compute; reflexivity|];
      split; [vm_compute; reflexivity|];
      apply (proj1 (report_statuses officeAgents
               (world (helpfulTeam (mkStrategy sequential 3 false false)))
               (mkStrategy sequential 3 false false) 1 "Login" None emptyStore
               report st' ltac:(vm_compute; reflexivity)))
  end.
Defined.

(** ** The batches of a parallel run *)

Lemma runBatches_stops this batches : forall results st,
  retryOnFailure (strategy this) = false ->
  stopsAtFailure (sr_success (snd (fst (runBatches this batches results st))))
                 batches (fst (fst (runBatches this batches results st))).
Proof.
  induction batches as [|batch rest IH]; intros results st Retry.
  - left. cbn. auto.
  - cbn [runBatches]. unfold bind.
    destruct (runBatch_flights this batch st) as (now & F).
    destruct (runBatch this batch st) as [[fs settled] st1].
    cbn [fst snd] in *. rewrite Retry.
    pose proof (collectBatch_abort now fs results) as CA.
    rewrite <- F in CA. fold (allCompleted settled) in CA.
    destruct (collectBatch false fs results) as [results' aborted].
    cbn [snd] in CA. destruct aborted.
    + right. cbn. split; [reflexivity|]. exists [], settled.
      split; [reflexivity|]. split; [reflexivity|].
      symmetry in CA. now apply negb_true_iff in CA.
    + symmetry in CA. apply negb_false_iff in CA.
      specialize (IH results' st1 Retry).
      destruct (runBatches this rest results' st1) as [[sb sr] st2].
      cbn [ret fst snd] in *.
      destruct IH as [(Ok & L & C)|(Ok & done & last & E & C & B)].
      * left. cbn. rewrite CA, C, L. auto.
      * right. split; [exact Ok|]. exists (settled :: done), last.
        rewrite E. cbn. rewrite CA, C. auto.
Qed.

(** With [maxConcurrency >= 1] the executor ends, and what it does is a
    run over the batches of the task list. *)
Lemma executeParallel_batches this tasks st fuel :
  (1 <= maxConcurrency (strategy this))%Z ->
  (length tasks < fuel)%nat ->
  let batches := chunks (Z.to_nat (maxConcurrency (strategy this))) tasks in
  exists settled sr st',
    executeParallel this fuel tasks st
    = (Some (concat settled ++ skipn (length (concat settled)) tasks, sr), st')
    /\ Forall2 settles (firstn (length settled) batches) settled
    /\ history st'
       = history st ++ map workerCall (concat (firstn (length settled) batches))
    /\ (exists trace,
          map event (timeline st') = map event (timeline st) ++ trace
          /\ barrierTrace settled trace)
    /\ (retryOnFailure (strategy this) = true ->
        length settled = length batches /\ sr_success sr = true)
    /\ (retryOnFailure (strategy this) = false ->
        stopsAtFailure (sr_success sr) batches settled).
Proof.
  intros Hmc Hfuel batches. unfold executeParallel.
  pose proof (executeParallelLoop_runBatches this fuel 0 [] tasks [] st Hmc) as C.
  cbn [app length] in C. rewrite C by (auto; lia). clear C. fold batches.
  destruct (runBatches_spec this batches [] st) as (F & _ & T & H & L & R & _).
  pose proof (runBatches_stops this batches [] st) as Stop.
  destruct (runBatches this batches [] st) as [[sb sr] st2]. cbn [fst snd] in *.
  exists sb, sr, st2. split; [reflexivity|]. split; [exact F|].
  split; [rewrite H, concat_map; reflexivity|]. split; [exact T|].
  split; [intros Retry; split; auto | exact Stop].
Qed.

(** ** C3 *)

(** C3 as stated fails: two tasks of one batch whose texts select the same
    role are both sent to that role's one worker, the second before the
    first has ended. *)
Lemma same_worker_twice_in_a_batch :
  chunks 2 twoFixes = [twoFixes]
  /\ ~ NoDup (map selectBestAgent twoFixes)
  /\ map callee (history twoFixesRun) = [Member "developer"; Member "developer"]
  /\ map event (timeline twoFixesRun)
     = ["Task started: Fix login"; "Task started: Fix logout";
        "Task completed: Fix login"; "Task completed: Fix logout"].
Proof.
  split; [reflexivity|]. split; [|split; reflexivity].
  intros H. inversion H as [|x l Hin _]; subst. apply Hin. now left.
Qed.

(** C3, amended.  With [maxConcurrency >= 1] the Parallel strategy cuts the
    task list into batches and runs them in order: all of them with
    [retryOnFailure], and otherwise up to the first batch with a task that
    is not completed.  The calls it makes are exactly one call for every
    task of the batches run, in order, to the worker of the role the
    selector returns for the task's own text, with the task's description;
    the task is assigned that role; and every task of a batch is started
    before any task of the batch ends.  So tasks of one batch whose texts
    select the same role are with the same worker at the same time. *)
Theorem parallel_roles_by_selector this tasks st fuel :
  (1 <= maxConcurrency (strategy this))%Z ->
  (length tasks < fuel)%nat ->
  let batches := chunks (Z.to_nat (maxConcurrency (strategy this))) tasks in
  exists settled sr st',
    executeParallel this fuel tasks st
    = (Some (concat settled ++ skipn (length (concat settled)) tasks, sr), st')
    /\ history st'
       = history st
         ++ map (fun t => mkCall (Member (selectBestAgent t)) (description t)
                                 (mkOptions true 8))
                (concat (firstn (length settled) batches))
    /\ map assignedAgent (concat settled)
       = map (fun t => Some (selectBestAgent t))
             (concat (firstn (length settled) batches))
    /\ (exists trace,
          map event (timeline st') = map event (timeline st) ++ trace
          /\ barrierTrace settled trace)
    /\ (retryOnFailure (strategy this) = true -> length settled = length batches)
    /\ (retryOnFailure (strategy this) = false ->
        stopsAtFailure (sr_success sr) batches settled).
Proof.
  intros Hmc Hfuel batches.
  destruct (executeParallel_batches this tasks st fuel Hmc Hfuel)
    as (settled & sr & st' & E & F & H & T & R & Stop).
  fold batches in F, H, R, Stop.
  exists settled, sr, st'. split; [exact E|]. split; [exact H|].
  split; [|split; [exact T|split; [intros Retry; apply R, Retry | exact Stop]]].
  clear -F. induction F as [|b b' bs bs' (_ & _ & A & _) _ IH]; [reflexivity|].
  cbn [concat]. rewrite !map_app, A, IH. reflexivity.
Qed.

Lemma parallel_roles_by_selector_witness :
  exists tasks' sr st',
    executeParallel (helpfulTeam (mkStrategy parallel 2 true false)) 3 twoFixes
                    emptyStore = (Some (tasks', sr), st')
    /\ map description twoFixes = ["Fix login"; "Fix logout"]
    /\ history st'
       = [mkCall (Member "developer") "Fix login" (mkOptions true 8);
          mkCall (Member "developer") "Fix logout" (mkOptions true 8)]
    /\ map assignedAgent tasks' = [Some "developer"; Some "developer"].
Proof.
  destruct (parallel_roles_by_selector
              (helpfulTeam (mkStrategy parallel 2 true false)) twoFixes
              emptyStore 3 ltac:(cbn; lia) ltac:(cbn; lia))
    as (settled & sr & st' & E & H & A & _ & R & _).
  specialize (R eq_refl).
  change (chunks (Z.to_nat (maxConcurrency
                              (strategy (helpfulTeam
                                           (mkStrategy parallel 2 true false)))))
                 twoFixes) with [twoFixes] in *.
  cbn [length] in R. rewrite R in H, A. cbn in H, A.
  assert (L : length (concat settled) = 2%nat)
    by (rewrite <- (length_map assignedAgent), A; reflexivity).
  rewrite L in E. cbn [skipn twoFixes] in E. rewrite app_nil_r in E.
  exists (concat settled), sr, st'. auto.
Defined.

(** ** C5 *)

(** C5.  With [maxConcurrency >= 1] the Parallel strategy ends and cuts the
    task list into contiguous batches of [maxConcurrency] tasks, the last one
    possibly shorter (five tasks and [maxConcurrency = 2] give sizes 2, 2, 1).
    It runs the batches in order.  Each batch run comes back with every one
    of its tasks terminal, and in the timeline the starts of a batch are
    followed by the ends of that batch before the next batch starts.  With
    [retryOnFailure] every batch is run.  With [retryOnFailure = false] the
    run goes on as long as the batches come back completed: it ends with
    success after the last batch, or with [success = false] right after the
    first batch with a task that is not completed, that batch settled as a
    whole.  No worker is called for the batches behind it and their tasks
    are left as they were. *)
Theorem parallel_batches_and_barrier this tasks st fuel :
  (1 <= maxConcurrency (strategy this))%Z ->
  (length tasks < fuel)%nat ->
  let n := Z.to_nat (maxConcurrency (strategy this)) in
  let batches := chunks n tasks in
  concat batches = tasks
  /\ Forall (fun b => 1 <= length b <= n)%nat batches
  /\ Forall (fun b => length b = n) (removelast batches)
  /\ (forall a b c d e : Task, map (@length Task) (chunks 2 [a; b; c; d; e]) = [2; 2; 1]%nat)
  /\ exists settled sr st',
       executeParallel this fuel tasks st
       = (Some (concat settled ++ skipn (length (concat settled)) tasks, sr), st')
       /\ Forall2 settles (firstn (length settled) batches) settled
       /\ history st'
          = history st ++ map workerCall (concat (firstn (length settled) batches))
       /\ (exists trace,
             map event (timeline st') = map event (timeline st) ++ trace
             /\ barrierTrace settled trace)
       /\ (retryOnFailure (strategy this) = true ->
           length settled = length batches /\ sr_success sr = true)
       /\ (retryOnFailure (strategy this) = false ->
           stopsAtFailure (sr_success sr) batches settled).
Proof.
  intros Hmc Hfuel n batches.
  assert (Hn : (1 <= n)%nat) by (subst n; lia).
  split; [apply chunks_concat, Hn|].
  destruct (chunks_sizes n tasks Hn) as [S1 S2].
  split; [exact S1|]. split; [exact S2|]. split; [reflexivity|].
  exact (executeParallel_batches this tasks st fuel Hmc Hfuel).
Qed.

Lemma parallel_batches_and_barrier_witness :
  map (@length Task) (chunks 2 fiveTasks) = [2; 2; 1]%nat
  /\ exists settled sr st',
       executeParallel abortingBatches 6 fiveTasks emptyStore
       = (Some (concat settled ++ skipn (length (concat settled)) fiveTasks, sr), st')
       /\ stopsAtFailure (sr_success sr) (chunks 2 fiveTasks) settled
       /\ sr_success sr = false
       /\ map status (concat settled ++ skipn (length (concat settled)) fiveTasks)
          = [completed; failed; pending; pending; pending]
       /\ map callee (history st') = [Member "developer"; Member "tester"].
Proof.
  destruct (parallel_batches_and_barrier abortingBatches fiveTasks emptyStore 6
              ltac:(cbn; lia) ltac:(cbn; lia))
    as (_ & _ & _ & Sz & settled & sr & st' & E & _ & _ & _ & _ & Stop).
  specialize (Stop eq_refl).
  split; [apply Sz|]. exists settled, sr, st'.
  split; [exact E|]. split; [exact Stop|].
  let run := eval vm_compute in
               (executeParallel abortingBatches 6 fiveTasks emptyStore) in
  assert (C : executeParallel abortingBatches 6 fiveTasks emptyStore = run)
    by (vm_compute; reflexivity).
  rewrite C in E. injection E as <- <- <-.
  split; [reflexivity|]. split; reflexivity.
Defined.

(** ** C4 *)

Lemma executeHierarchicalLoop_consulted this tasks :
  resolves (world this) ->
  forall results st,
  exists calls,
    history (snd (executeHierarchicalLoop this tasks results st))
    = history st ++ calls
    /\ consulted (world this) (history st) tasks calls.
Proof.
  intros Hr. induction tasks as [|task rest IH]; intros results st.
  - exists []. cbn. rewrite app_nil_r. split; [reflexivity | constructor].
  - cbn [executeHierarchicalLoop]. unfold memberProcessTask.
    rewrite selectBestAgent_is_member. unfold_monad.
    match goal with
    | |- context [respond ?w ?h ?c] =>
        destruct (Hr h c) as [guidance Hlead]; rewrite Hlead
    end.
    match goal with
    | |- context [respond ?w ?h ?c] => destruct (Hr h c) as [res ->]
    end.
    match goal with
    | |- context [executeHierarchicalLoop this rest ?r ?s] =>
        destruct (IH r s) as (calls & Hh & Hg);
        destruct (executeHierarchicalLoop this rest r s) as [[tasks' o] st']
    end.
    cbn [fst snd history] in *.
    eexists. split.
    + rewrite Hh, <- !app_assoc. cbn [app]. reflexivity.
    + eapply consulted_task; [reflexivity | exact Hlead | reflexivity |].
      rewrite <- app_assoc in Hg. exact Hg.
Qed.

(** C4 as stated fails: the worker's prompt opens with the task description
    and the guidance comes after it. *)
Lemma guidance_follows_description :
  map callee (history guidedRun) = [Lead; Member "developer"]
  /\ nth 1 (map prompt (history guidedRun)) EmptyString
     = ("Build API" ++ Js.nl ++ Js.nl ++ "Guidance from lead: Use REST")%string
  /\ Js.startsWith (nth 1 (map prompt (history guidedRun)) EmptyString)
                   "Use REST" = false
  /\ Js.startsWith (nth 1 (map prompt (history guidedRun)) EmptyString)
                   "Build API" = true.
Proof. repeat split. Qed.

(** C4, amended.  In the Hierarchical strategy of a team as
    [initializeTeam] builds it, for every task, in priority order, the lead
    is asked first, with reasoning disabled, for guidance on that task and
    the role selected for it, and the member of that role is then given the
    task description followed by a blank line, the words "Guidance from
    lead: " and the guidance.  These are all the calls: the lead is
    called for guidance only, every task goes to a member. *)
Theorem hierarchical_guidance agents w s tasks st :
  let this := mkOrchestrator (initializeTeam agents w) s in
  exists calls,
    history (snd (executeHierarchical this tasks st)) = history st ++ calls
    /\ consulted (world this) (history st) (Js.sortBy priorityRank tasks) calls
    /\ length calls = (2 * length tasks)%nat.
Proof.
  cbn zeta. unfold executeHierarchical.
  destruct (executeHierarchicalLoop_consulted
              (mkOrchestrator (initializeTeam agents w) s)
              (Js.sortBy priorityRank tasks) (initializeTeam_resolves agents w)
              [] st) as (calls & H & C).
  exists calls. split; [exact H|]. split; [exact C|].
  rewrite (Permutation_length (sortBy_perm priorityRank tasks)).
  clear H. induction C as [|h task rest guidance ask work calls _ _ _ _ IH];
    [reflexivity|].
  cbn [length]. rewrite IH. lia.
Qed.

Lemma hierarchical_guidance_witness :
  exists calls,
    history (snd (executeHierarchical (office (mkStrategy hierarchical 3 false false))
                                      [apiTask] emptyStore))
    = calls
    /\ map callee calls = [Lead; Member "developer"]
    /\ map prompt calls
       = [("Provide guidance for this task: Build API" ++ Js.nl
           ++ "        Agent: developer" ++ Js.nl
           ++ "        Role: Senior Developer")%string;
          ("Build API" ++ Js.nl ++ Js.nl
           ++ "Guidance from lead: Keep it small")%string]
    /\ length calls = 2%nat.
Proof.
  destruct (hierarchical_guidance officeAgents
              (world (helpfulTeam (mkStrategy hierarchical 3 false false)))
              (mkStrategy hierarchical 3 false false) [apiTask] emptyStore)
    as (calls & H & _ & L).
  change (history (snd (executeHierarchical
                          (office (mkStrategy hierarchical 3 false false))
                          [apiTask] emptyStore)) = calls) in H.
  subst calls. eexists. split; [reflexivity|].
  split; [vm_compute; reflexivity|].
  split; [vm_compute; reflexivity | exact L].
Defined.

(** ** C10 *)

Lemma executeParallel_stuck this tasks st fuel :
  (maxConcurrency (strategy this) <= 0)%Z ->
  tasks <> [] ->
  retryOnFailure (strategy this) = true ->
  fst (executeParallel this fuel tasks st) = None.
Proof.
  intros Hmc Hne Retry.
  destruct (executeParallel this fuel tasks st) as [[out|] st'] eqn:E;
    [|reflexivity].
  assert (F : sr_success (snd out) = false).
  { eapply (executeParallelLoop_stuck this fuel Hmc 0%Z tasks [] st out st');
      [lia | destruct tasks; [congruence | cbn; lia] | exact E]. }
  pose proof (proj2 (proj2 (executeParallel_status this fuel tasks st out st' E))
                    Retry) as T.
  congruence.
Qed.

Lemma orchestrateTask_stuck this fuel d os st r text :
  respond (world this) (history st) (analysisCall d) = Returned r ->
  ar_result r = Some text ->
  parseTaskBreakdown text d <> [] ->
  type (effectiveStrategy this os) = parallel ->
  (maxConcurrency (strategy this) <= 0)%Z ->
  retryOnFailure (strategy this) = true ->
  fst (orchestrateTask this fuel d os st) = None.
Proof.
  intros Hlead Htext Hne Hkind Hmc Retry.
  unfold orchestrateTask, analyzeAndBreakdownTask.
  fold (effectiveStrategy this os). rewrite Hkind.
  unfold bind at 1 2 3, pushTimeline at 1, processTask at 1.
  cbn [fst snd timeline agentContributions history].
  unfold analysisCall in Hlead. rewrite Hlead, Htext.
  unfold ret at 1. unfold bind at 1 2, pushTimeline at 1.
  cbn [runStrategy]. unfold bind at 1.
  match goal with
  | |- context [executeParallel this fuel ?tb ?s] =>
      pose proof (executeParallel_stuck this tb s fuel Hmc Hne Retry) as N;
      destruct (executeParallel this fuel tb s) as [[out|] s2]
  end; [discriminate|]. reflexivity.
Qed.

(** C10 as stated fails: with [maxConcurrency = 0] the Parallel strategy
    returns nothing, however long it runs, although [retryOnFailure] is set
    and every worker answers; neither does [orchestrateTask]. *)
Lemma parallel_retry_never_returns :
  retryOnFailure (strategy (office (mkStrategy parallel 0 true false))) = true
  /\ (forall fuel,
        fst (executeParallel (office (mkStrategy parallel 0 true false)) fuel
                             twoFixes emptyStore) = None)
  /\ (forall fuel,
        fst (orchestrateTask (office (mkStrategy parallel 0 true false)) fuel
                             "Login" None emptyStore) = None).
Proof.
  split; [reflexivity|]. split; intros fuel.
  - apply executeParallel_stuck; [cbn; lia | discriminate | reflexivity].
  - eapply orchestrateTask_stuck;
      [vm_compute; reflexivity | reflexivity | vm_compute; discriminate
      | reflexivity | cbn; lia | reflexivity].
Qed.

(** C10, amended.  With [retryOnFailure] set no executor reports failure,
    whatever the workers do.  Sequential and Collaborative return success.
    Parallel returns success when [maxConcurrency >= 1]; when
    [maxConcurrency <= 0] and there is a task it returns nothing.
    Hierarchical returns success, unless a call to the lead throws: then
    it throws that error; it returns when the lead's calls return.  With
    cross-validation disabled every Run Report that is returned has its
    success flag true. *)
Theorem retry_always_succeeds this :
  retryOnFailure (strategy this) = true ->
  (forall tasks st,
     sr_success (snd (fst (executeSequential this tasks st))) = true)
  /\ (forall tasks st,
        sr_success (snd (fst (executeCollaborative this tasks st))) = true)
  /\ (forall tasks st fuel,
        (1 <= maxConcurrency (strategy this))%Z -> (length tasks < fuel)%nat ->
        exists out,
          fst (executeParallel this fuel tasks st) = Some out
          /\ sr_success (snd out) = true)
  /\ (forall tasks st fuel,
        (maxConcurrency (strategy this) <= 0)%Z -> tasks <> [] ->
        fst (executeParallel this fuel tasks st) = None)
  /\ (forall tasks st,
        (exists sr,
           snd (fst (executeHierarchical this tasks st)) = Returned sr
           /\ sr_success sr = true)
        \/ (exists e h task,
              snd (fst (executeHierarchical this tasks st)) = Threw e
              /\ respond (world this) h (leadCall task) = Threw e))
  /\ (forall tasks st,
        leadReturns (world this) ->
        exists sr,
          snd (fst (executeHierarchical this tasks st)) = Returned sr
          /\ sr_success sr = true)
  /\ (forall fuel d os st report st',
        crossValidation (effectiveStrategy this os) = false ->
        orchestrateTask this fuel d os st = (Some (Returned report), st') ->
        success report = true).
Proof.
  intros Retry. repeat match goal with |- _ /\ _ => split end.
  - intros tasks st.
    exact (proj2 (proj2 (executeSequentialLoop_status this tasks [] st)) Retry).
  - intros tasks st.
    exact (proj2 (proj2 (executeCollaborativeLoop_status this tasks [] st)) Retry).
  - intros tasks st fuel Hmc Hfuel.
    destruct (executeParallel_batches this tasks st fuel Hmc Hfuel)
      as (settled & sr & st' & E & _ & _ & _ & R & _).
    rewrite E. eexists. split; [reflexivity|]. exact (proj2 (R Retry)).
  - intros tasks st fuel Hmc Hne.
    exact (executeParallel_stuck this tasks st fuel Hmc Hne Retry).
  - intros tasks st.
    destruct (snd (fst (executeHierarchical this tasks st))) as [sr|e] eqn:E.
    + left. exists sr. split; [reflexivity|].
      exact (proj2 (proj1 (proj2 (executeHierarchical_status this tasks st)) sr E)
                   Retry).
    + right. unfold executeHierarchical in E.
      destruct (executeHierarchicalLoop_threw this _ [] st e E)
        as (k & t & calls & _ & _ & _ & _ & Hthrew).
      exists e, (history st ++ calls), t. split; [reflexivity | exact Hthrew].
  - intros tasks st HL.
    destruct (proj2 (proj2 (executeHierarchical_status this tasks st)) HL)
      as [sr E].
    exists sr. split; [exact E|].
    exact (proj2 (proj1 (proj2 (executeHierarchical_status this tasks st)) sr E)
                 Retry).
  - intros fuel d os st report st' CV E.
    destruct (orchestrateTask_returned _ _ _ _ _ _ _ E)
      as (text & st1 & res & st2 & Run & _ & _ & S).
    rewrite (S CV).
    exact (proj2 (proj2 (runStrategy_status _ _ _ _ _ _ _ _ Run)) Retry).
Qed.

Ltac all_failed_yet_success kind always :=
  let run := eval vm_compute in
               (orchestrateTask (failingTeam kind) 3 "Code" None emptyStore) in
  match run with
  | (Some (Returned ?report), ?st') =>
      exists report; split; [vm_compute; reflexivity|];
      split; [vm_compute; reflexivity|];
      apply (proj2 (proj2 (proj2 (proj2 (proj2 (proj2
               (always (failingTeam kind) eq_refl))))))
               3%nat "Code" None emptyStore report st');
      vm_compute; reflexivity
  end.

Lemma retry_always_succeeds_witness :
  (exists report,
     fst (orchestrateTask (failingTeam sequential) 3 "Code" None emptyStore)
     = Some (Returned report)
     /\ map status (taskBreakdown report) = [failed; failed]
     /\ success report = true)
  /\ (exists report,
        fst (orchestrateTask (failingTeam parallel) 3 "Code" None emptyStore)
        = Some (Returned report)
        /\ map status (taskBreakdown report) = [failed; failed]
        /\ success report = true)
  /\ (exists report,
        fst (orchestrateTask (failingTeam hierarchical) 3 "Code" None emptyStore)
        = Some (Returned report)
        /\ map status (taskBreakdown report) = [failed; failed]
        /\ success report = true)
  /\ (exists report,
        fst (orchestrateTask (failingTeam collaborative) 3 "Code" None emptyStore)
        = Some (Returned report)
        /\ map status (taskBreakdown report) = [failed; failed]
        /\ success report = true).
Proof.
  split; [all_failed_yet_success sequential retry_always_succeeds|].
  split; [all_failed_yet_success parallel retry_always_succeeds|].
  split; [all_failed_yet_success hierarchical retry_always_succeeds|].
  all_failed_yet_success collaborative retry_always_succeeds.
Defined.
